(** * Stream URL discovery and playlist reconciliation

    A shallow embedding of [.github/scripts/update_streams.py] and of
    [create_output] from [apps/stream-url-updater/main.py], together with the
    parts of Python's [re] and [urllib.parse] modules that the script calls.

    Python [str] values are modelled as lists of 8-bit characters (the
    Latin-1 range of code points); every character the script's patterns
    single out is an ASCII one. *)

From Stdlib Require Import String Ascii List Bool Arith Lia.
Import ListNotations.

(** ** Strings *)

Definition str := list ascii.

Definition lit (s : string) : list ascii := list_ascii_of_string s.
Coercion lit : string >-> list.

Open Scope string_scope.
Open Scope list_scope.
Open Scope bool_scope.
Open Scope nat_scope.

(** Python exceptions and [sys.exit] are results of their own. *)
Inductive result (A : Type) : Type :=
| Ok (a : A)
| Raise (exn : string).
Arguments Ok {A} a.
Arguments Raise {A} exn.

Definition bind {A B} (r : result A) (f : A -> result B) : result B :=
  match r with
  | Ok a => f a
  | Raise e => Raise e
  end.

Notation "x <- r ;; k" := (bind r (fun x => k))
  (at level 61, r at next level, right associativity).

Module Str.

Definition nl : ascii := "010"%char.
Definition tab : ascii := "009"%char.
Definition cr : ascii := "013"%char.

Definition eqb (a b : str) : bool :=
  if list_eq_dec ascii_dec a b then true else false.

(** [x in xs] on a list of strings. *)
Definition mem (x : str) (xs : list str) : bool := existsb (eqb x) xs.

(** [s.startswith(p)] *)
Fixpoint startswith (p s : str) : bool :=
  match p, s with
  | [], _ => true
  | a :: p', b :: s' => Ascii.eqb a b && startswith p' s'
  | _ :: _, [] => false
  end.

(** [sub in s] *)
Fixpoint contains (sub s : str) : bool :=
  startswith sub s ||
  match s with
  | [] => false
  | _ :: s' => contains sub s'
  end.

(** [c in s] for one character. *)
Definition has (c : ascii) (s : str) : bool := existsb (Ascii.eqb c) s.

(** [s.lstrip(chars)], the set of characters given as a predicate. *)
Fixpoint lstrip (drop : ascii -> bool) (s : str) : str :=
  match s with
  | c :: s' => if drop c then lstrip drop s' else s
  | [] => []
  end.

(** [s.replace(c, empty)] for every character [c] of a set. *)
Definition remove (drop : ascii -> bool) (s : str) : str :=
  filter (fun c => negb (drop c)) s.

(** The longest prefix free of the characters of [stop], and the rest:
    [s[:i], s[i:]] for [i] the first index of a character of [stop]
    (or [len(s)]). *)
Fixpoint break (stop : ascii -> bool) (s : str) : str * str :=
  match s with
  | [] => ([], [])
  | c :: s' =>
      if stop c then ([], s)
      else let (a, b) := break stop s' in (c :: a, b)
  end.

(** [s.split(c, 1)] when [c in s]: the text before the first [c] and the
    text after it. *)
Definition split1 (c : ascii) (s : str) : str * str :=
  let (a, b) := break (Ascii.eqb c) s in (a, tl b).

(** ASCII lower-casing, [str.lower] on ASCII text. *)
Definition is_upper (c : ascii) : bool :=
  ((65 <=? nat_of_ascii c) && (nat_of_ascii c <=? 90))%nat.
Definition is_lower (c : ascii) : bool :=
  ((97 <=? nat_of_ascii c) && (nat_of_ascii c <=? 122))%nat.
Definition is_digit (c : ascii) : bool :=
  ((48 <=? nat_of_ascii c) && (nat_of_ascii c <=? 57))%nat.
Definition lower_char (c : ascii) : ascii :=
  if is_upper c then ascii_of_nat (nat_of_ascii c + 32) else c.
Definition lower (s : str) : str := map lower_char s.

End Str.

(** ** Python's [re] on the patterns of the script

    Every pattern the script compiles is a sequence of character classes
    under a greedy quantifier, with capture groups that do not nest and, in
    one of them, a final [$].  The matcher below is the backtracking matcher
    of [re] on that fragment: leftmost match, each quantifier greedy, earlier
    quantifiers having priority. *)

Module Re.

Inductive quant := One | Opt | Star | Plus.

Inductive item :=
| Chr (cls : ascii -> bool) (q : quant)   (* a class with its quantifier *)
| GroupOpen                               (* ( *)
| GroupClose                              (* ) *)
| EndAnchor.                              (* $ *)

Definition regex := list item.

(** A literal text, as [re.escape] produces it. *)
Definition chars (w : str) : regex :=
  map (fun c => Chr (Ascii.eqb c) One) w.

(** A literal text under [re.IGNORECASE]. *)
Definition ci (c x : ascii) : bool :=
  Ascii.eqb (Str.lower_char c) (Str.lower_char x).
Definition chars_ci (w : str) : regex :=
  map (fun c => Chr (ci c) One) w.

(** [$] without [re.MULTILINE]: the end of the string, or just before a
    newline that ends the string. *)
Definition at_end (s : str) : bool :=
  match s with
  | [] => true
  | [c] => Ascii.eqb c Str.nl
  | _ => false
  end.

(** [greedy cls k s]: take as many characters of [cls] as possible, giving
    back one at a time until the continuation [k] matches the rest. *)
Fixpoint greedy (cls : ascii -> bool) (k : str -> option (list str))
         (s : str) : option (str * list str) :=
  match s with
  | c :: s' =>
      if cls c then
        match greedy cls k s' with
        | Some (w, r) => Some (c :: w, r)
        | None => option_map (pair []) (k s)
        end
      else option_map (pair []) (k s)
  | [] => option_map (pair []) (k [])
  end.

Definition cons_piece (wr : str * list str) : list str :=
  fst wr :: snd wr.

(** [match_here p s]: the pattern matched at the start of [s]; the result
    lists the text each item consumed (empty for group marks and [$]). *)
Fixpoint match_here (p : regex) : str -> option (list str) :=
  match p with
  | [] => fun _ => Some []
  | Chr cls One :: p' => fun s =>
      match s with
      | c :: s' =>
          if cls c then option_map (cons [c]) (match_here p' s') else None
      | [] => None
      end
  | Chr cls Opt :: p' => fun s =>
      match s with
      | c :: s' =>
          if cls c then
            match match_here p' s' with
            | Some r => Some ([c] :: r)
            | None => option_map (cons []) (match_here p' s)
            end
          else option_map (cons []) (match_here p' s)
      | [] => option_map (cons []) (match_here p' [])
      end
  | Chr cls Star :: p' => fun s =>
      option_map cons_piece (greedy cls (match_here p') s)
  | Chr cls Plus :: p' => fun s =>
      match s with
      | c :: s' =>
          if cls c then
            option_map (fun wr => (c :: fst wr) :: snd wr)
                       (greedy cls (match_here p') s')
          else None
      | [] => None
      end
  | GroupOpen :: p' => fun s => option_map (cons []) (match_here p' s)
  | GroupClose :: p' => fun s => option_map (cons []) (match_here p' s)
  | EndAnchor :: p' => fun s =>
      if at_end s then option_map (cons []) (match_here p' s) else None
  end.

(** The text of each capture group, in order, from the pieces of a match. *)
Fixpoint groups_from (p : regex) (pieces : list str) (cur : option str)
  : list str :=
  match p, pieces with
  | GroupOpen :: p', _ :: ps => groups_from p' ps (Some [])
  | GroupClose :: p', _ :: ps =>
      match cur with
      | Some w => w :: groups_from p' ps None
      | None => groups_from p' ps None
      end
  | _ :: p', w :: ps => groups_from p' ps (option_map (fun a => a ++ w) cur)
  | _, _ => []
  end.

(** A match object: where it starts, [group(0)] and the numbered groups. *)
Record mobj := { start : nat; whole : str; groups : list str }.

Definition mk (p : regex) (i : nat) (pieces : list str) : mobj :=
  {| start := i; whole := concat pieces; groups := groups_from p pieces None |}.

Definition group (m : mobj) (n : nat) : str :=
  match n with
  | 0 => whole m
  | S k => nth k (groups m) []
  end.

(** [re.search]: the first position, left to right, where the pattern
    matches. *)
Fixpoint search_from (p : regex) (i : nat) (s : str) : option mobj :=
  match match_here p s with
  | Some pieces => Some (mk p i pieces)
  | None =>
      match s with
      | [] => None
      | _ :: s' => search_from p (S i) s'
      end
  end.

Definition search (p : regex) (s : str) : option mobj := search_from p 0 s.

(** The scan shared by [re.findall] and [re.sub]: the string cut into
    matches that do not overlap and the characters between them.  [skip]
    counts the characters of the current match still to step over.  (None
    of the script's patterns matches the empty string.) *)
Inductive token := Plain (c : ascii) | Matched (m : mobj).

Fixpoint scan (p : regex) (i skip : nat) (s : str) : list token :=
  match skip with
  | S k =>
      match s with
      | [] => []
      | _ :: s' => scan p (S i) k s'
      end
  | 0 =>
      match match_here p s with
      | Some pieces =>
          Matched (mk p i pieces) ::
          match s with
          | [] => []
          | _ :: s' => scan p (S i) (length (concat pieces) - 1) s'
          end
      | None =>
          match s with
          | [] => []
          | c :: s' => Plain c :: scan p (S i) 0 s'
          end
      end
  end.

(** [re.findall] for a pattern with at most one group: the text of the
    group when there is one, of the whole match otherwise. *)
Definition found_text (t : token) : list str :=
  match t with
  | Plain _ => []
  | Matched m =>
      match groups m with
      | [] => [whole m]
      | g :: _ => [g]
      end
  end.

Definition findall (p : regex) (s : str) : list str :=
  flat_map found_text (scan p 0 0 s).

End Re.

(** ** Replacement templates of [re.sub]

    [re.sub(pattern, template, s)] parses the whole template before it
    replaces anything, so a bad escape raises whatever the matches are.  The
    numbered references of a template are [\N] and [\g<N>], with [N] in
    ASCII digits (as CPython 3.12 requires); the pattern of the script has no
    named group, so every other [\g<...>] raises. *)

Module Template.

Definition backslash : ascii := "092"%char.

Definition is_octal (c : ascii) : bool :=
  ((48 <=? nat_of_ascii c) && (nat_of_ascii c <=? 55))%nat.

Definition is_letter (c : ascii) : bool := Str.is_upper c || Str.is_lower c.

Definition digit (c : ascii) : nat := nat_of_ascii c - 48.

Definition number (base : nat) (w : str) : nat :=
  fold_left (fun n c => base * n + digit c) w 0.

(** The escapes of [ESCAPES] in the parser of [re]. *)
Definition escape (c : ascii) : option ascii :=
  if Ascii.eqb c "a" then Some "007"%char
  else if Ascii.eqb c "b" then Some "008"%char
  else if Ascii.eqb c "f" then Some "012"%char
  else if Ascii.eqb c "n" then Some "010"%char
  else if Ascii.eqb c "r" then Some "013"%char
  else if Ascii.eqb c "t" then Some "009"%char
  else if Ascii.eqb c "v" then Some "011"%char
  else if Ascii.eqb c backslash then Some backslash
  else None.

Section Expand.
Variable m : Re.mobj.
Variable ngroups : nat.

Definition reference (n : nat) (rest : result str) : result str :=
  if n <=? ngroups then r <- rest ;; Ok (Re.group m n ++ r)
  else Raise "re.error".

(** [name] is [Some acc] while the text between [\g<] and [>] is read. *)
Fixpoint expand (name : option str) (t : str) : result str :=
  match name with
  | Some acc =>
      match t with
      | [] => Raise "re.error"
      | c :: t' =>
          if Ascii.eqb c ">" then
            match acc with
            | [] => Raise "re.error"
            | _ :: _ =>
                if forallb Str.is_digit acc
                then reference (number 10 acc) (expand None t')
                else if forallb (fun x => is_letter x || Str.is_digit x
                                          || Ascii.eqb x "_") acc
                        && negb (Str.is_digit (hd c acc))
                     then Raise "IndexError"
                     else Raise "re.error"
            end
          else expand (Some (acc ++ [c])) t'
      end
  | None =>
      match t with
      | [] => Ok []
      | c :: t' =>
          if negb (Ascii.eqb c backslash)
          then r <- expand None t' ;; Ok (c :: r)
          else
            match t' with
            | [] => Raise "re.error"
            | e :: t1 =>
                if Ascii.eqb e "g" then
                  match t1 with
                  | lt :: t2 =>
                      if Ascii.eqb lt "<" then expand (Some []) t2
                      else Raise "re.error"
                  | [] => Raise "re.error"
                  end
                else if Ascii.eqb e "0" then
                  match t1 with
                  | o1 :: t2 =>
                      if is_octal o1 then
                        match t2 with
                        | o2 :: t3 =>
                            if is_octal o2
                            then r <- expand None t3 ;;
                                 Ok (ascii_of_nat (number 8 [o1; o2]) :: r)
                            else r <- expand None t2 ;;
                                 Ok (ascii_of_nat (digit o1) :: r)
                        | [] => Ok [ascii_of_nat (digit o1)]
                        end
                      else r <- expand None t1 ;; Ok (zero :: r)
                  | [] => Ok [zero]
                  end
                else if Str.is_digit e then
                  match t1 with
                  | d2 :: t2 =>
                      if Str.is_digit d2 then
                        match t2 with
                        | d3 :: t3 =>
                            if is_octal e && is_octal d2 && is_octal d3 then
                              if number 8 [e; d2; d3] <=? 255
                              then r <- expand None t3 ;;
                                   Ok (ascii_of_nat (number 8 [e; d2; d3]) :: r)
                              else Raise "re.error"
                            else reference (number 10 [e; d2]) (expand None t2)
                        | [] => reference (number 10 [e; d2]) (Ok [])
                        end
                      else reference (digit e) (expand None t1)
                  | [] => reference (digit e) (Ok [])
                  end
                else
                  match escape e with
                  | Some x => r <- expand None t1 ;; Ok (x :: r)
                  | None =>
                      if is_letter e then Raise "re.error"
                      else r <- expand None t1 ;; Ok (backslash :: e :: r)
                  end
            end
      end
  end.
End Expand.

End Template.

Module ReSub.

(** [re.sub(p, template, s)]: every match, left to right and without
    overlap, is replaced by the expansion of the template. *)
Fixpoint rebuild (ngroups : nat) (template : str) (ts : list Re.token)
  : result str :=
  match ts with
  | [] => Ok []
  | Re.Plain c :: ts' => r <- rebuild ngroups template ts' ;; Ok (c :: r)
  | Re.Matched m :: ts' =>
      w <- Template.expand m ngroups None template ;;
      r <- rebuild ngroups template ts' ;;
      Ok (w ++ r)
  end.

Definition count_groups (p : Re.regex) : nat :=
  length (filter (fun i => match i with Re.GroupOpen => true | _ => false end) p).

(** The template is parsed once, before any replacement. *)
Definition sub (p : Re.regex) (template s : str) : result str :=
  _ <- Template.expand
         {| Re.start := 0; Re.whole := [];
            Re.groups := repeat [] (count_groups p) |}
         (count_groups p) None template ;;
  rebuild (count_groups p) template (Re.scan p 0 0 s).

End ReSub.

(** ** [update_streams.py]: discovery *)

Definition dquote : ascii := "034"%char.
Definition squote : ascii := "039"%char.

(** [\s] on text: the white space of the Latin-1 range. *)
Definition is_space (c : ascii) : bool :=
  let n := nat_of_ascii c in
  ((9 <=? n) && (n <=? 13)) || ((28 <=? n) && (n <=? 32))
  || (n =? 133) || (n =? 160).

(** The class of the first pattern: any character but white space, the two
    quotes and the angle brackets. *)
Definition url_char (c : ascii) : bool :=
  negb (is_space c || Ascii.eqb c dquote || Ascii.eqb c squote
        || Ascii.eqb c "<" || Ascii.eqb c ">").

Definition not_char (q c : ascii) : bool := negb (Ascii.eqb c q).

(** [https?://] under [re.IGNORECASE] *)
Definition http_prefix : Re.regex :=
  Re.chars_ci "http" ++ [Re.Chr (Re.ci "s") Re.Opt] ++ Re.chars_ci "://".

(** The first pattern: [https?://], one or more [url_char], [\.m3u8], any
    number of [url_char]. *)
Definition bare_pattern : Re.regex :=
  http_prefix ++ [Re.Chr url_char Re.Plus] ++ Re.chars_ci ".m3u8"
  ++ [Re.Chr url_char Re.Star].

(** The second and third patterns, for [q] the double and the single
    quote: [q], then a group holding [https?://], one or more characters
    other than [q], [\.m3u8] and any number of characters other than [q],
    then [q]. *)
Definition quoted_pattern (q : ascii) : Re.regex :=
  Re.chars_ci [q] ++ [Re.GroupOpen] ++ http_prefix
  ++ [Re.Chr (not_char q) Re.Plus] ++ Re.chars_ci ".m3u8"
  ++ [Re.Chr (not_char q) Re.Star] ++ [Re.GroupClose] ++ Re.chars_ci [q].

Definition patterns : list Re.regex :=
  [bare_pattern; quoted_pattern dquote; quoted_pattern squote].

(** The class of the trailing characters removed from a match: the two
    quotes, comma, semicolon and the closing round, square and curly
    brackets. *)
Definition trailing (c : ascii) : bool :=
  Ascii.eqb c dquote || Ascii.eqb c squote || Ascii.eqb c ","
  || Ascii.eqb c ";" || Ascii.eqb c ")" || Ascii.eqb c "]" || Ascii.eqb c "}".

(** One or more trailing characters, then [$]. *)
Definition trailing_pattern : Re.regex := [Re.Chr trailing Re.Plus; Re.EndAnchor].

(** [re.sub] of [trailing_pattern] by the empty string in [url_match]; an
    empty template has nothing to parse. *)
Definition strip_trailing (url_match : str) : str :=
  flat_map (fun t => match t with Re.Plain c => [c] | Re.Matched _ => [] end)
           (Re.scan trailing_pattern 0 0 url_match).

(** What one visit of the page shows to the script: the URLs of the requests
    issued until [page.goto] returns or times out, whether it times out, the
    URLs of the requests issued during the five seconds of [time.sleep], and
    the text [page.content()] returns. *)
Record page := {
  requests_goto : list str;
  goto_times_out : bool;
  requests_sleep : list str;
  content : str
}.

(** The state the function threads: the list [m3u8_urls] and the lines
    printed on standard output and on standard error. *)
Record session := {
  m3u8_urls : list str;
  stdout : list str;
  stderr : list str
}.

Definition print (line : str) (st : session) : session :=
  {| m3u8_urls := m3u8_urls st; stdout := stdout st ++ [line]; stderr := stderr st |}.

Definition eprint (line : str) (st : session) : session :=
  {| m3u8_urls := m3u8_urls st; stdout := stdout st; stderr := stderr st ++ [line] |}.

Definition append_url (u : str) (st : session) : session :=
  {| m3u8_urls := m3u8_urls st ++ [u]; stdout := stdout st; stderr := stderr st |}.

(** The observer registered with [page.on] for the request event. *)
Definition handle_request (st : session) (request_url : str) : session :=
  if Str.contains ".m3u8" request_url
  then print ("Captured m3u8 URL: " ++ request_url) (append_url request_url st)
  else st.

(** The body of [for match in matches]. *)
Definition add_match (st : session) (m : str) : session :=
  let url_match := strip_trailing m in
  if negb (Str.mem url_match (m3u8_urls st)) then append_url url_match st else st.

(** The loop [for pattern in patterns] over the page content. *)
Definition scan_content (text : str) (st : session) : session :=
  fold_left (fun st pattern => fold_left add_match (Re.findall pattern text) st)
            patterns st.

(** The end of [extract_m3u8_from_page]: the choice among [m3u8_urls].  A
    [preferred_domain] that is [None] or empty is no preference. *)
Definition select (urls : list str) (preferred_domain : option str)
  : option str :=
  match urls with
  | [] => None
  | first :: _ =>
      match preferred_domain with
      | Some d =>
          match d with
          | [] => Some first
          | _ :: _ =>
              match find (Str.contains d) urls with
              | Some u => Some u
              | None => Some first
              end
          end
      | None => Some first
      end
  end.

(** The candidates collected by the [try] block: the observer runs on every
    request; the scan of the content is reached only when [page.goto] did
    not raise. *)
Definition collect (pg : page) (st : session) : session :=
  let st := fold_left handle_request (requests_goto pg) st in
  if goto_times_out pg
  then eprint "Timeout while loading page" st
  else scan_content (content pg)
         (fold_left handle_request (requests_sleep pg) st).

Record extraction := {
  found : option str;
  log : session;
  browser_closed : bool
}.

(** [m3u8_urls = []], nothing printed yet. *)
Definition start : session := {| m3u8_urls := []; stdout := []; stderr := [] |}.

Definition extract_m3u8_from_page (pg : page) (url : str)
           (preferred_domain : option str) : extraction :=
  let st := print "Launching browser to fetch dynamic content..." start in
  let st := print ("Navigating to: " ++ url) st in
  let st := collect pg st in
  match select (m3u8_urls st) preferred_domain with
  | Some u =>
      {| found := Some u; log := print ("Found m3u8 link: " ++ u) st;
         browser_closed := true |}
  | None =>
      {| found := None; log := print "No m3u8 link found" st;
         browser_closed := true |}
  end.

(** ** [update_streams.py]: the playlist *)

(** [[^\n]] *)
Definition not_newline (c : ascii) : bool := negb (Ascii.eqb c Str.nl).

(** The pattern of [update_m3u_file] for [entry_name]: a first group with
    [#EXTINF:], any number of characters of the line, a comma, the escaped
    name and the newline; a second group with [https?://] and one or more
    characters of the next line. *)
Definition entry_pattern (entry_name : str) : Re.regex :=
  [Re.GroupOpen] ++ Re.chars "#EXTINF:" ++ [Re.Chr not_newline Re.Star]
  ++ Re.chars "," ++ Re.chars entry_name ++ Re.chars [Str.nl]
  ++ [Re.GroupClose]
  ++ [Re.GroupOpen] ++ Re.chars "http" ++ [Re.Chr (Ascii.eqb "s") Re.Opt]
  ++ Re.chars "://" ++ [Re.Chr not_newline Re.Plus] ++ [Re.GroupClose].

(** The line printed when no entry has the name. *)
Definition not_found_line (entry_name : str) : str :=
  "Entry " ++ [dquote] ++ entry_name ++ [dquote] ++ " not found in the m3u file".

(** What a call of [update_m3u_file] leaves behind: the value returned (or
    the exit of the process), the text of the file afterwards, and the lines
    printed. *)
Record outcome := {
  returned : result bool;
  file_after : str;
  out : list str;
  err : list str
}.

(** [file] is what [file_path.read_text()] gives: the text, or the exception
    it raises.  Writing back is taken to succeed.  The line printed for an
    exception names its class; the message of the library is not modelled. *)
Definition update_m3u_file (file : result str) (new_url entry_name : str)
  : outcome :=
  match file with
  | Raise e =>
      {| returned := Raise "SystemExit(1)"; file_after := [];
         out := []; err := ["Error updating m3u file: " ++ lit e] |}
  | Ok text =>
      let pattern := entry_pattern entry_name in
      match Re.search pattern text with
      | None =>
          {| returned := Ok false; file_after := text; out := [];
             err := [not_found_line entry_name] |}
      | Some m =>
          let old_url := Re.group m 2 in
          if Str.eqb old_url new_url then
            {| returned := Ok false; file_after := text;
               out := ["URL unchanged: " ++ new_url]; err := [] |}
          else
            match ReSub.sub pattern ("\g<1>" ++ new_url) text with
            | Raise e =>
                {| returned := Raise "SystemExit(1)"; file_after := text;
                   out := []; err := ["Error updating m3u file: " ++ lit e] |}
            | Ok new_content =>
                {| returned := Ok true; file_after := new_content;
                   out := ["Updated " ++ entry_name ++ " URL:";
                           "  Old: " ++ old_url;
                           "  New: " ++ new_url];
                   err := [] |}
            end
      end
  end.

(** ** [main.py]: writing a playlist *)

Record channel := { name : str; link : str }.

(** The text [create_output] writes to [irib.m3u8]. *)
Definition create_output (channels : list channel) : str :=
  "#EXTM3U" ++ [Str.nl; Str.nl]
  ++ flat_map (fun ch => "#EXTINF:-1," ++ name ch ++ [Str.nl]
                         ++ link ch ++ [Str.nl; Str.nl]) channels.

(** ** Python's [urllib.parse]

    [urlsplit], [urlparse], [urlunsplit] and [urlunparse] as in CPython's
    [Lib/urllib/parse.py], on text URLs and with the default arguments
    ([scheme] empty, [allow_fragments] true).  The script names no
    release of Python, and [urlunsplit] is not the same in all of them: it
    takes the release as an argument. *)

Module Url.

Record SplitResult := {
  s_scheme : str; s_netloc : str; s_path : str; s_query : str; s_fragment : str
}.

Record ParseResult := {
  scheme : str; netloc : str; path : str;
  params : str; query : str; fragment : str
}.

Definition uses_netloc : list str :=
  [ []; lit "ftp"; lit "http"; lit "gopher"; lit "nntp"; lit "telnet";
    lit "imap"; lit "wais"; lit "file"; lit "mms"; lit "https"; lit "shttp";
    lit "snews"; lit "prospero"; lit "rtsp"; lit "rtspu"; lit "rsync";
    lit "svn"; lit "svn+ssh"; lit "sftp"; lit "nfs"; lit "git"; lit "git+ssh";
    lit "ws"; lit "wss" ].

Definition uses_params : list str :=
  [ []; lit "ftp"; lit "hdl"; lit "prospero"; lit "http"; lit "imap";
    lit "https"; lit "shttp"; lit "rtsp"; lit "rtspu"; lit "sip"; lit "sips";
    lit "mms"; lit "sftp"; lit "tel" ].

Definition is_letter (c : ascii) : bool := Str.is_upper c || Str.is_lower c.

(** [scheme_chars] *)
Definition scheme_char (c : ascii) : bool :=
  is_letter c || Str.is_digit c
  || Ascii.eqb c "+" || Ascii.eqb c "-" || Ascii.eqb c ".".

(** [_WHATWG_C0_CONTROL_OR_SPACE] *)
Definition c0_or_space (c : ascii) : bool := nat_of_ascii c <=? 32.

(** [_UNSAFE_URL_BYTES_TO_REMOVE] *)
Definition unsafe (c : ascii) : bool :=
  Ascii.eqb c Str.tab || Ascii.eqb c Str.cr || Ascii.eqb c Str.nl.

Definition is_ascii (c : ascii) : bool := nat_of_ascii c <? 128.

(** The delimiters that end the network location. *)
Definition delim (c : ascii) : bool :=
  Ascii.eqb c "/" || Ascii.eqb c "?" || Ascii.eqb c "#".

(** The scheme, when the text before the first colon is one, and the
    rest. *)
Definition split_scheme (url : str) : str * str :=
  let (pre, rest) := Str.break (Ascii.eqb ":") url in
  match rest, pre with
  | _ :: after, c0 :: _ =>
      if is_letter c0 && forallb scheme_char pre
      then (Str.lower pre, after)
      else ([], url)
  | _, _ => ([], url)
  end.

(** The text of [url] from its last slash on, and the text before it; the
    whole of [url] when it has no slash. *)
Fixpoint split_last_slash (url : str) : str * str :=
  match url with
  | [] => ([], [])
  | c :: url' =>
      if Str.has "/" url'
      then let (h, t) := split_last_slash url' in (c :: h, t)
      else ([], url)
  end.

(** [_splitparams] *)
Definition splitparams (url : str) : str * str :=
  let (h, t) := split_last_slash url in
  let (a, b) := Str.break (Ascii.eqb ";") t in
  match b with
  | [] => (url, [])
  | _ :: b' => (h ++ a, b')
  end.

Section Checks.

(** Two checks of the network location are taken as given: whether
    [_check_bracketed_netloc] accepts a bracketed host (it parses IP
    addresses), and whether [_checknetloc] accepts a location with
    characters outside ASCII (it normalises Unicode). *)
Variable check_bracketed_netloc : str -> bool.
Variable checknetloc : str -> bool.

(** The network location is refused: one bracket without the other, or
    a bracketed host that [_check_bracketed_netloc] refuses. *)
Definition bracket_error (loc : str) : bool :=
  (Str.has "[" loc && negb (Str.has "]" loc))
  || (Str.has "]" loc && negb (Str.has "[" loc))
  || (Str.has "[" loc && Str.has "]" loc
      && negb (check_bracketed_netloc loc)).

(** [_checknetloc] refuses the location; it looks at locations with
    characters outside ASCII only. *)
Definition netloc_error (loc : str) : bool :=
  negb (match loc with [] => true | _ => forallb is_ascii loc end
        || checknetloc loc).

(** [_splitnetloc(url, 2)] and the checks of the brackets, after a
    leading [//]. *)
Definition split_netloc (url : str) : result (str * str) :=
  match url with
  | c1 :: c2 :: rest =>
      if Ascii.eqb c1 "/" && Ascii.eqb c2 "/" then
        let (loc, url') := Str.break delim rest in
        if bracket_error loc then Raise "ValueError" else Ok (loc, url')
      else Ok ([], url)
  | _ => Ok ([], url)
  end.

Definition urlsplit (url : str) : result SplitResult :=
  let url := Str.lstrip c0_or_space url in
  let url := Str.remove unsafe url in
  let (sch, url) := split_scheme url in
  nu <- split_netloc url ;;
  let (loc, url) := nu in
  let (url, frag) := Str.split1 "#" url in
  let (url, qry) := Str.split1 "?" url in
  if netloc_error loc then Raise "ValueError"
  else Ok {| s_scheme := sch; s_netloc := loc; s_path := url;
             s_query := qry; s_fragment := frag |}.

Definition urlparse (url : str) : result ParseResult :=
  sp <- urlsplit url ;;
  let (url, prm) :=
    if Str.mem (s_scheme sp) uses_params && Str.has ";" (s_path sp)
    then splitparams (s_path sp)
    else (s_path sp, []) in
  Ok {| scheme := s_scheme sp; netloc := s_netloc sp; path := url;
        params := prm; query := s_query sp; fragment := s_fragment sp |}.

End Checks.

Definition add_query_fragment (url qry frag : str) : str :=
  let url := match qry with [] => url | _ => url ++ "?" ++ qry end in
  match frag with [] => url | _ => url ++ "#" ++ frag end.

Definition add_scheme (sch url : str) : str :=
  match sch with [] => url | _ => sch ++ ":" ++ url end.

Definition slash_first (url : str) : str :=
  match url with
  | [] => []
  | c :: _ => if Ascii.eqb c "/" then url else "/" ++ url
  end.

(** The releases of CPython, as far as [urlunsplit] goes: 3.12.4 changed
    what it builds for a URL without a network location (gh-67693). *)
Inductive release := Before_3_12_4 | Since_3_12_4.

Definition urlunsplit (cpython : release) (c : SplitResult) : str :=
  let url := s_path c in
  let url :=
    match cpython with
    | Since_3_12_4 =>
        match s_netloc c with
        | _ :: _ => "//" ++ s_netloc c ++ slash_first url
        | [] =>
            if Str.startswith "//" url then "//" ++ url
            else
              match s_scheme c with
              | _ :: _ =>
                  if Str.mem (s_scheme c) uses_netloc
                     && (match url with
                         | [] => true
                         | x :: _ => Ascii.eqb x "/"
                         end)
                  then "//" ++ url
                  else url
              | [] => url
              end
        end
    | Before_3_12_4 =>
        if match s_netloc c with _ :: _ => true | [] => false end
           || (match s_scheme c with _ :: _ => true | [] => false end
               && Str.mem (s_scheme c) uses_netloc
               && negb (Str.startswith "//" url))
        then "//" ++ s_netloc c ++ slash_first url
        else url
    end in
  add_query_fragment (add_scheme (s_scheme c) url) (s_query c) (s_fragment c).

Definition with_params (c : ParseResult) : SplitResult :=
  {| s_scheme := scheme c; s_netloc := netloc c;
     s_path := match params c with
               | [] => path c
               | _ => path c ++ ";" ++ params c
               end;
     s_query := query c; s_fragment := fragment c |}.

Definition urlunparse (cpython : release) (c : ParseResult) : str :=
  urlunsplit cpython (with_params c).

End Url.

(** ** [update_streams.py]: [strip_url_parameters] *)

Section StripUrlParameters.

(** The release of CPython that runs the script. *)
Variable cpython : Url.release.

Variable check_bracketed_netloc : str -> bool.
Variable checknetloc : str -> bool.

Definition strip_url_parameters (url : str) : result str :=
  parsed <- Url.urlparse check_bracketed_netloc checknetloc url ;;
  Ok (Url.urlunparse cpython
        {| Url.scheme := Url.scheme parsed; Url.netloc := Url.netloc parsed;
           Url.path := Url.path parsed;
           Url.params := []; Url.query := []; Url.fragment := [] |}).

End StripUrlParameters.

(** ** What a pattern matches

    The declarative reading of a pattern, against which the matcher is
    checked: [pieces_ok p ps rest] says that the items of [p] can match the
    consecutive texts [ps] when [rest] follows the match. *)

Definition piece_ok (i : Re.item) (w follow : str) : Prop :=
  match i with
  | Re.Chr cls Re.One => exists c, w = [c] /\ cls c = true
  | Re.Chr cls Re.Opt => w = [] \/ exists c, w = [c] /\ cls c = true
  | Re.Chr cls Re.Star => forallb cls w = true
  | Re.Chr cls Re.Plus => w <> [] /\ forallb cls w = true
  | Re.GroupOpen => w = []
  | Re.GroupClose => w = []
  | Re.EndAnchor => w = [] /\ Re.at_end follow = true
  end.

Fixpoint pieces_ok (p : Re.regex) (ps : list str) (rest : str) : Prop :=
  match p, ps with
  | [], [] => True
  | i :: p', w :: ps' =>
      piece_ok i w (concat ps' ++ rest) /\ pieces_ok p' ps' rest
  | _, _ => False
  end.

(** Every class of the pattern lies within [ok]. *)
Definition classes_within (ok : ascii -> bool) (p : Re.regex) : Prop :=
  Forall (fun i => match i with
                   | Re.Chr cls _ => forall c, cls c = true -> ok c = true
                   | _ => True
                   end) p.

(** An entry of the playlist as [update_m3u_file] looks for it: [s] starts
    with a line [#EXTINF:...,entry_name] followed by a line that starts with
    [http://] or [https://] and at least one more character. *)
Definition entry_here (s entry_name : str) : Prop :=
  exists info sfx url after,
    s = "#EXTINF:" ++ info ++ "," ++ entry_name ++ [Str.nl]
        ++ "http" ++ sfx ++ "://" ++ url ++ after
    /\ forallb not_newline info = true
    /\ (sfx = [] \/ sfx = "s")
    /\ url <> []
    /\ forallb not_newline url = true.

Definition has_entry (text entry_name : str) : Prop :=
  exists before s, text = before ++ s /\ entry_here s entry_name.

(** The pieces of a literal text: one character each. *)
Definition singles (w : str) : list str := map (fun c => [c]) w.

(** The pieces of a match of [entry_pattern entry_name], given what its
    three quantified items took. *)
Definition entry_pieces (entry_name info sfx url : str) : list str :=
  [[]] ++ singles "#EXTINF:" ++ [info] ++ singles "," ++ singles entry_name
  ++ singles [Str.nl] ++ [[]]
  ++ [[]] ++ singles "http" ++ [sfx] ++ singles "://" ++ [url] ++ [[]].

(** The items of [entry_pattern] before its last quantified item. *)
Definition entry_head (entry_name : str) : Re.regex :=
  [Re.GroupOpen] ++ Re.chars "#EXTINF:" ++ [Re.Chr not_newline Re.Star]
  ++ Re.chars "," ++ Re.chars entry_name ++ Re.chars [Str.nl]
  ++ [Re.GroupClose]
  ++ [Re.GroupOpen] ++ Re.chars "http" ++ [Re.Chr (Ascii.eqb "s") Re.Opt]
  ++ Re.chars "://".

Definition entry_head_pieces (entry_name info sfx : str) : list str :=
  [[]] ++ singles "#EXTINF:" ++ [info] ++ singles "," ++ singles entry_name
  ++ singles [Str.nl] ++ [[]]
  ++ [[]] ++ singles "http" ++ [sfx] ++ singles "://".

(** The end of a line: the end of the text, or a newline. *)
Definition line_end (after : str) : Prop :=
  after = [] \/ exists r, after = Str.nl :: r.

(** The text of an entry: its [#EXTINF] line with [info] before the comma
    and [entry_name] after it, then the line of its URL, [http] or [https]
    by [sfx], with [url] after [://]. *)
Definition entry_text (info entry_name sfx url : str) : str :=
  "#EXTINF:" ++ info ++ "," ++ entry_name ++ [Str.nl]
  ++ "http" ++ sfx ++ "://" ++ url.

(** ** Sample playlists *)

(** A playlist with the entries Channel A and Channel B. *)
Definition two_channels : str :=
  create_output [ {| name := "Channel A"; link := "https://old/x.m3u8" |};
                  {| name := "Channel B"; link := "http://b/y.m3u8" |} ].

(** A playlist in which the name Channel A occurs twice. *)
Definition duplicate_names : str :=
  create_output [ {| name := "Channel A"; link := "https://old/x.m3u8" |};
                  {| name := "Channel B"; link := "http://b/y.m3u8" |};
                  {| name := "Channel A"; link := "https://other/z.m3u8" |} ].

(** A playlist whose only entry has a comma in its name. *)
Definition breaking_news (url : str) : str :=
  create_output [ {| name := "Breaking,News"; link := url |} ].

(** ** Sample pages *)

Definition stream_url : str := "https://cdn.example.com/stream.m3u8?tok=1".

(** The manifest URL between double quotes. *)
Definition quoted_stream_url : str := [dquote] ++ stream_url ++ [dquote].

(** A player that requests its manifest twice while the page loads. *)
Definition polling_page : page :=
  {| requests_goto := [ lit "https://cdn.example.com/live.m3u8";
                        lit "https://cdn.example.com/live.m3u8" ];
     goto_times_out := false;
     requests_sleep := [];
     content := [] |}.

(** A page that issues no request, holds the quoted manifest URL in its
    content, and whose navigation times out. *)
Definition timed_out_page : page :=
  {| requests_goto := [];
     goto_times_out := true;
     requests_sleep := [];
     content := quoted_stream_url |}.

(** The same page when the navigation succeeds. *)
Definition static_page : page :=
  {| requests_goto := [];
     goto_times_out := false;
     requests_sleep := [];
     content := quoted_stream_url |}.

(** What the specification expects after a timeout: the choice among the
    URLs observed before the timeout followed by those of the scan of the
    content. *)
Definition select_with_scan (pg : page) (preferred_domain : option str)
  : option str :=
  select (m3u8_urls (scan_content (content pg)
                       (fold_left handle_request (requests_goto pg) start)))
         preferred_domain.

(** ** The shape of a parsed URL *)

(** [no_char stop s]: no character of [s] is in [stop]. *)
Definition no_char (stop : ascii -> bool) (s : str) : Prop :=
  forallb (fun c => negb (stop c)) s = true.

(** A scheme as [urlsplit] returns it: a letter first, scheme characters
    only, in lower case. *)
Definition scheme_ok (s : str) : Prop :=
  (exists c t, s = c :: t /\ Url.is_letter c = true)
  /\ forallb Url.scheme_char s = true
  /\ Str.lower s = s.

(** [#] or [?] *)
Definition mark (c : ascii) : bool := Ascii.eqb "#" c || Ascii.eqb "?" c.

(** What [urlparse] guarantees of the scheme, the network location and the
    path it returns. *)
Record canonical (check_bracketed_netloc checknetloc : str -> bool)
       (s n p : str) : Prop := {
  can_safe : no_char Url.unsafe s /\ no_char Url.unsafe n /\ no_char Url.unsafe p;
  can_scheme : s = [] \/ scheme_ok s;
  can_netloc : no_char Url.delim n;
  can_brackets : Url.bracket_error check_bracketed_netloc n = false;
  can_checked : Url.netloc_error checknetloc n = false;
  can_path : no_char mark p;
  can_rooted : n <> [] -> p = [] \/ exists t, p = "/"%char :: t;
  can_params : Str.mem s Url.uses_params = true -> Str.has ";" p = true ->
               Url.splitparams p = (p, []);
  can_bare : s = [] -> n = [] -> Str.startswith "//" p = false ->
             Url.split_scheme p = ([], p) /\ Str.lstrip Url.c0_or_space p = p
}.

(** The parse of a URL that has the given scheme, network location and
    path, and neither parameters, query nor fragment. *)
Definition plain (s n p : str) : Url.ParseResult :=
  {| Url.scheme := s; Url.netloc := n; Url.path := p;
     Url.params := []; Url.query := []; Url.fragment := [] |}.

(** ** Samples for [strip_url_parameters] *)

(** The checks of the network location, for the examples: every location
    is accepted (those of the examples are ASCII and have no bracket, so
    neither check is reached). *)
Definition accept (_ : str) : bool := true.

(** The text of a URL before its first [?] or [#]: the URL without its
    query string and its fragment. *)
Definition before_marks (url : str) : str := fst (Str.break mark url).

(** ** Scanning a text for matches *)

(** The characters of a scan that no match covers: what [re.sub] with an
    empty replacement leaves. *)
Definition plain_chars (ts : list Re.token) : str :=
  flat_map (fun t => match t with Re.Plain c => [c] | Re.Matched _ => [] end) ts.

(** The pattern has an item that takes at least one character, so that it
    never matches the empty string. *)
Definition consumes (p : Re.regex) : bool :=
  existsb (fun i => match i with
                    | Re.Chr _ Re.One => true
                    | Re.Chr _ Re.Plus => true
                    | _ => false
                    end) p.

(** [deleted cls s t]: [t] is [s] with some characters of the class [cls]
    taken out. *)
Inductive deleted (cls : ascii -> bool) : str -> str -> Prop :=
| deleted_nil : deleted cls [] []
| deleted_keep c s t : deleted cls s t -> deleted cls (c :: s) (c :: t)
| deleted_drop c s t : cls c = true -> deleted cls s t -> deleted cls (c :: s) t.

(** The pattern has no capture group. *)
Definition no_groups (p : Re.regex) : bool :=
  forallb (fun i => match i with
                    | Re.GroupOpen => false
                    | Re.GroupClose => false
                    | _ => true
                    end) p.

(** What the second and third patterns have between their quotes. *)
Definition quoted_inner (q : ascii) : Re.regex :=
  http_prefix ++ [Re.Chr (not_char q) Re.Plus] ++ Re.chars_ci ".m3u8"
  ++ [Re.Chr (not_char q) Re.Star].

(** The mark of a manifest URL, in any letter case. *)
Definition has_marker (u : str) : Prop :=
  Str.contains ".m3u8" (Str.lower u) = true.

(** The request URLs the observer keeps during one visit, in order: those
    of the navigation and, unless it times out, those of the wait after
    it. *)
Definition observed (pg : page) : list str :=
  filter (Str.contains ".m3u8")
         (requests_goto pg
          ++ if goto_times_out pg then [] else requests_sleep pg).

(** ** Rewriting the playlist *)

(** What [re.sub] with the template of [update_m3u_file] puts for a part of
    the scan: a character outside the matches stays, a match gives its first
    group followed by the URL. *)
Definition replaced (new_url : str) (t : Re.token) : str :=
  match t with
  | Re.Plain c => [c]
  | Re.Matched m => Re.group m 1 ++ new_url
  end.

(** ** [update_streams.py]: the script *)

Module Args.

(** What [parse_args] returns for the command line. *)
Record t := {
  url : str;
  file : str;
  entry_name : str;
  preferred_domain : option str;
  strip_parameters : bool
}.

End Args.

(** What a run meets outside the program: whether the playlist exists, what
    reading it gives, and the page. *)
Record world := {
  file_exists : bool;
  file_text : result str;
  visited : page
}.

(** What a run leaves: how [main] ends ([Ok tt] when it returns), the lines
    printed on standard output and on standard error (the traceback of an
    exception that nothing catches is not among them), and the text written
    to the playlist, if any. *)
Record run := {
  ended : result unit;
  printed : list str;
  errors : list str;
  written : option str
}.

(** The check mark that starts the last line of a run, in UTF-8. *)
Definition check_mark : str := ["226"%char; "156"%char; "147"%char].

Section Main.

(** The release of CPython that runs the script. *)
Variable cpython : Url.release.

Variable check_bracketed_netloc : str -> bool.
Variable checknetloc : str -> bool.

(** The text of [Path(args.file)], which the messages show. *)
Variable show_path : str -> str.

(** The step [if args.strip_parameters]: the URL to write and the lines
    printed. *)
Definition stripped (strip_parameters : bool) (m3u8_url : str)
  : result (str * list str) :=
  if strip_parameters then
    let original_url := m3u8_url in
    m3u8_url <- strip_url_parameters cpython check_bracketed_netloc
                                     checknetloc m3u8_url ;;
    Ok (m3u8_url,
        if negb (Str.eqb original_url m3u8_url)
        then [ lit "Stripped parameters from URL:";
               "  Original: " ++ original_url;
               "  Cleaned:  " ++ m3u8_url ]
        else [])
  else Ok (m3u8_url, []).

Definition main (args : Args.t) (w : world) : run :=
  let m3u_file := show_path (Args.file args) in
  if negb (file_exists w) then
    {| ended := Raise "SystemExit(1)"; printed := [];
       errors := ["Error: File not found: " ++ m3u_file]; written := None |}
  else
    let ex := extract_m3u8_from_page (visited w) (Args.url args)
                                     (Args.preferred_domain args) in
    let out0 := ("Fetching live stream URL from: " ++ Args.url args)
                :: stdout (log ex) in
    match found ex with
    | None =>
        {| ended := Raise "SystemExit(0)";
           printed := out0 ++ [check_mark
                               ++ " No m3u8 link found - skipping update"];
           errors := stderr (log ex); written := None |}
    | Some m3u8_url =>
        match stripped (Args.strip_parameters args) m3u8_url with
        | Raise e =>
            {| ended := Raise e; printed := out0;
               errors := stderr (log ex); written := None |}
        | Ok (m3u8_url, out1) =>
            let o := update_m3u_file (file_text w) m3u8_url
                                     (Args.entry_name args) in
            let out2 := out0 ++ out1 ++ ["Updating m3u file: " ++ m3u_file]
                        ++ out o in
            match returned o with
            | Raise e =>
                {| ended := Raise e; printed := out2;
                   errors := stderr (log ex) ++ err o; written := None |}
            | Ok updated =>
                {| ended := Ok tt;
                   printed :=
                     out2 ++ [if updated : bool
                              then check_mark ++ " Successfully updated "
                                   ++ Args.entry_name args ++ " stream URL"
                              else check_mark ++ " No update needed"];
                   errors := stderr (log ex) ++ err o;
                   written := if updated : bool then Some (file_after o)
                              else None |}
            end
        end
    end.

End Main.

(** ** [main.py]: collecting the links *)

Module Updater.

(** [cfg.proxy] *)
Record proxy := { use : bool; httpProxy : str; sslProxy : str }.

(** An element of [cfg.sources] *)
Record source := { name : str; url : str; xpath : str }.

(** A driver, as far as the program sets it up: the manual proxy of its
    options, if any. *)
Definition driver := option (str * str).

Definition get_driver (p : proxy) : driver :=
  if negb (use p) then None
  else Some (httpProxy p, sslProxy p).

(** What a browser does when [get_stream_link] uses it: it does not start;
    or it starts and loading the page or finding the element raises; or the
    element is found and [get_attribute] gives its [src], [None] when it has
    none. *)
Inductive visit :=
| StartFails (e : string)
| PageFails (e : string)
| Src (link : option str).

(** The browsers started and the browsers closed so far. *)
Record browsers := { opened : nat; closed : nat }.

(** The dictionary [res] of [generate_results]. *)
Record res := { res_name : str; res_link : option str }.

Section Browser.

(** The browser: what the visit with a given number (the browsers opened
    before it) gives for a driver, a URL and an XPath. *)
Variable browse : nat -> driver -> str -> str -> visit.

(** There is no [finally]: when the visit raises, the browser stays open. *)
Definition get_stream_link (p : proxy) (url xpath : str) (b : browsers)
  : result (option str) * browsers :=
  match browse (opened b) (get_driver p) url xpath with
  | StartFails e => (Raise e, b)
  | PageFails e => (Raise e, {| opened := S (opened b); closed := closed b |})
  | Src stream_link =>
      (Ok stream_link, {| opened := S (opened b); closed := S (closed b) |})
  end.

(** The loop [for source in sources], from the list [results] so far. *)
Fixpoint for_sources (p : proxy) (sources : list source)
         (results : list res) (b : browsers)
  : result (list res) * browsers :=
  match sources with
  | [] => (Ok results, b)
  | source :: sources' =>
      match get_stream_link p (url source) (xpath source) b with
      | (Raise e, b') => (Raise e, b')
      | (Ok link, b') =>
          for_sources p sources'
            (results ++ [{| res_name := name source; res_link := link |}]) b'
      end
  end.

Definition generate_results (p : proxy) (sources : list source)
           (b : browsers) : result (list res) * browsers :=
  for_sources p sources [] b.

(** How an f-string shows a link: [None] as the word. *)
Definition shown (link : option str) : str :=
  match link with
  | Some l => l
  | None => "None"
  end.

(** [create_output] above takes the links as its f-string shows them. *)
Definition as_channel (r : res) : channel :=
  Build_channel (res_name r) (shown (res_link r)).

(** What a run leaves: how [main] ends, the browsers, and the text written
    to [irib.m3u8], if the file was opened. *)
Record run := {
  ended : result unit;
  left : browsers;
  irib : option str
}.

Definition main (p : proxy) (sources : list source) : run :=
  match generate_results p sources {| opened := 0; closed := 0 |} with
  | (Raise e, b) => {| ended := Raise e; left := b; irib := None |}
  | (Ok channels, b) =>
      {| ended := Ok tt; left := b;
         irib := Some (create_output (map as_channel channels)) |}
  end.

End Browser.

End Updater.

(** * Properties *)

(** ** Substrings *)

Lemma str_eqb_eq (a b : str) : Str.eqb a b = true <-> a = b.
Proof.
  unfold Str.eqb. destruct (list_eq_dec ascii_dec a b); split; congruence.
Qed.

Lemma str_eqb_refl (a : str) : Str.eqb a a = true.
Proof. now apply str_eqb_eq. Qed.

Lemma mem_In (x : str) (xs : list str) : Str.mem x xs = true <-> In x xs.
Proof.
  unfold Str.mem. rewrite existsb_exists. split.
  - intros (y & Hy & E). apply str_eqb_eq in E. now subst.
  - intros H. exists x. split; [assumption | apply str_eqb_refl].
Qed.

Lemma startswith_app (p r : str) : Str.startswith p (p ++ r) = true.
Proof.
  induction p as [|a p IH]; simpl; [reflexivity|].
  now rewrite Ascii.eqb_refl.
Qed.

Lemma startswith_inv (p s : str) :
  Str.startswith p s = true -> exists r, s = p ++ r.
Proof.
  revert s. induction p as [|a p IH]; intros s H.
  - now exists s.
  - destruct s as [|b s]; simpl in H; [discriminate|].
    apply andb_true_iff in H as [E H]. apply Ascii.eqb_eq in E. subst b.
    destruct (IH _ H) as [r ->]. now exists r.
Qed.

(** [Str.contains] is the substring test of Python's [in]. *)
Lemma contains_iff (sub s : str) :
  Str.contains sub s = true <-> exists a b, s = a ++ sub ++ b.
Proof.
  split.
  - induction s as [|c s IH]; simpl; intros H.
    + rewrite orb_false_r in H. apply startswith_inv in H as [r ->].
      now exists [], r.
    + apply orb_true_iff in H as [H|H].
      * apply startswith_inv in H as [r ->]. now exists [], r.
      * destruct (IH H) as (a & b & ->). now exists (c :: a), b.
  - intros (a & b & ->). induction a as [|c a IH]; simpl.
    + destruct (sub ++ b) eqn:E; simpl.
      * destruct sub; [reflexivity | discriminate].
      * rewrite <- E, startswith_app. reflexivity.
    + rewrite IH. apply orb_true_r.
Qed.

Lemma contains_nil (s : str) : Str.contains [] s = true.
Proof. destruct s; reflexivity. Qed.

Lemma find_first {A} (f : A -> bool) (l : list A) (u : A) :
  find f l = Some u ->
  exists before after,
    l = before ++ u :: after /\ f u = true
    /\ forall x, In x before -> f x = false.
Proof.
  induction l as [|a l IH]; simpl; [discriminate|].
  destruct (f a) eqn:Fa.
  - intros [= ->]. exists [], l. repeat split; [assumption | intros x []].
  - intros H. destruct (IH H) as (b & c & -> & Fu & Hb).
    exists (a :: b), c. repeat split; [assumption|].
    intros x [<-|Hx]; [assumption | now apply Hb].
Qed.

Lemma find_none_iff {A} (f : A -> bool) (l : list A) :
  find f l = None <-> forall x, In x l -> f x = false.
Proof.
  split.
  - intros H x Hx. now apply (find_none f l H).
  - induction l as [|a l IH]; simpl; intros H; [reflexivity|].
    rewrite (H a (or_introl eq_refl)). apply IH. intros x Hx. apply H. now right.
Qed.

(** ** Selection *)

(** C5. [select] gives nothing for the empty list; with a preferred domain
    that some candidate contains, the first candidate, in collected order,
    that contains it; and with no preference, or when no candidate contains
    the preferred domain, the first candidate. *)
Theorem select_first_preferred_or_first :
  forall (urls : list str) (preferred_domain : option str),
    (urls = [] -> select urls preferred_domain = None)
    /\ (forall d, preferred_domain = Some d ->
        (exists u, In u urls /\ Str.contains d u = true) ->
        exists before u after,
          urls = before ++ u :: after
          /\ Str.contains d u = true
          /\ (forall x, In x before -> Str.contains d x = false)
          /\ select urls preferred_domain = Some u)
    /\ ((preferred_domain = None
         \/ exists d, preferred_domain = Some d
                      /\ forall u, In u urls -> Str.contains d u = false) ->
        select urls preferred_domain = hd_error urls).
Proof.
  intros urls pd. repeat split.
  - intros ->. reflexivity.
  - intros d -> (u & Hu & Cu).
    destruct urls as [|first rest]; [destruct Hu|].
    destruct d as [|c d].
    + exists [], first, rest. repeat split; [apply contains_nil | intros x []].
    + unfold select.
      destruct (find (Str.contains (c :: d)) (first :: rest)) as [v|] eqn:F.
      * destruct (find_first _ _ _ F) as (b & a & E & Cv & Hb).
        exists b, v, a. repeat split; assumption.
      * rewrite find_none_iff in F. rewrite (F u Hu) in Cu. discriminate.
  - intros [-> | (d & -> & Hd)].
    + destruct urls; reflexivity.
    + destruct urls as [|first rest]; [reflexivity|].
      destruct d as [|c d]; [reflexivity|].
      unfold select. rewrite (proj2 (find_none_iff _ _) Hd). reflexivity.
Qed.

Lemma select_first_preferred_or_first_witness :
  select [] (Some (lit "cdn")) = None
  /\ select [lit "https://a/x.m3u8"; lit "https://cdn.b/y.m3u8"] None
     = Some (lit "https://a/x.m3u8").
Proof.
  split.
  - exact (proj1 (select_first_preferred_or_first [] (Some (lit "cdn"))) eq_refl).
  - exact (proj2 (proj2 (select_first_preferred_or_first
                           [lit "https://a/x.m3u8"; lit "https://cdn.b/y.m3u8"]
                           None))
                 (or_introl eq_refl)).
Defined.

(** ** The matcher against the declarative reading *)

Lemma greedy_sound cls k s w r :
  Re.greedy cls k s = Some (w, r) ->
  forallb cls w = true /\ exists s2, s = w ++ s2 /\ k s2 = Some r.
Proof.
  revert w r. induction s as [|c s IH]; simpl; intros w r H.
  - destruct (k []) eqn:K; simpl in H; [|discriminate].
    injection H as <- <-. split; [reflexivity|]. now exists [].
  - destruct (cls c) eqn:C.
    + destruct (Re.greedy cls k s) as [[w' r']|] eqn:G.
      * injection H as <- <-. destruct (IH _ _ eq_refl) as (F & s2 & -> & K).
        split; [simpl; now rewrite C|]. now exists s2.
      * destruct (k (c :: s)) eqn:K; simpl in H; [|discriminate].
        injection H as <- <-. split; [reflexivity|]. now exists (c :: s).
    + destruct (k (c :: s)) eqn:K; simpl in H; [|discriminate].
      injection H as <- <-. split; [reflexivity|]. now exists (c :: s).
Qed.

Lemma greedy_complete cls k w s2 r :
  forallb cls w = true -> k s2 = Some r ->
  exists wr, Re.greedy cls k (w ++ s2) = Some wr.
Proof.
  intros F K. induction w as [|c w IH]; simpl.
  - destruct s2 as [|c s]; simpl; [rewrite K; simpl; eauto|].
    destruct (cls c); [|rewrite K; simpl; eauto].
    destruct (Re.greedy cls k s) as [[w' r']|]; [eauto|].
    rewrite K; simpl; eauto.
  - simpl in F. apply andb_true_iff in F as [C F]. rewrite C.
    destruct (IH F) as [[w' r'] ->]. eauto.
Qed.

Lemma match_here_sound p :
  forall s ps, Re.match_here p s = Some ps ->
  exists rest, s = concat ps ++ rest /\ pieces_ok p ps rest.
Proof.
  induction p as [|i p IH]; intros s ps H.
  - simpl in H. injection H as <-. now exists s.
  - destruct i as [cls q| | |]; [destruct q|..]; simpl in H.
    + destruct s as [|c s]; [discriminate|].
      destruct (cls c) eqn:C; [|discriminate].
      destruct (Re.match_here p s) as [r|] eqn:M; [|discriminate].
      injection H as <-. destruct (IH _ _ M) as (rest & -> & Hp).
      exists rest. simpl. repeat split; eauto.
    + assert (Skip : forall t, option_map (cons []) (Re.match_here p t) = Some ps ->
                     exists rest, t = concat ps ++ rest
                                  /\ pieces_ok (Re.Chr cls Re.Opt :: p) ps rest).
      { intros t Ht. destruct (Re.match_here p t) as [r|] eqn:M; [|discriminate].
        injection Ht as <-. destruct (IH _ _ M) as (rest & -> & Hp).
        exists rest. simpl. repeat split; auto. }
      destruct s as [|c s]; [now apply Skip|].
      destruct (cls c) eqn:C; [|now apply Skip].
      destruct (Re.match_here p s) as [r|] eqn:M; [|now apply Skip].
      injection H as <-. destruct (IH _ _ M) as (rest & -> & Hp).
      exists rest. simpl. repeat split; eauto.
    + destruct (Re.greedy cls (Re.match_here p) s) as [[w r]|] eqn:G; [|discriminate].
      injection H as <-. destruct (greedy_sound _ _ _ _ _ G) as (F & s2 & -> & M).
      destruct (IH _ _ M) as (rest & -> & Hp).
      exists rest. simpl. rewrite app_assoc. repeat split; auto.
    + destruct s as [|c s]; [discriminate|].
      destruct (cls c) eqn:C; [|discriminate].
      destruct (Re.greedy cls (Re.match_here p) s) as [[w r]|] eqn:G; [|discriminate].
      injection H as <-. destruct (greedy_sound _ _ _ _ _ G) as (F & s2 & -> & M).
      destruct (IH _ _ M) as (rest & -> & Hp).
      exists rest. simpl. rewrite app_assoc. repeat split; auto.
      * discriminate.
      * now rewrite C.
    + destruct (Re.match_here p s) as [r|] eqn:M; [|discriminate].
      injection H as <-. destruct (IH _ _ M) as (rest & -> & Hp).
      exists rest. simpl. repeat split; auto.
    + destruct (Re.match_here p s) as [r|] eqn:M; [|discriminate].
      injection H as <-. destruct (IH _ _ M) as (rest & -> & Hp).
      exists rest. simpl. repeat split; auto.
    + destruct (Re.at_end s) eqn:E; [|discriminate].
      destruct (Re.match_here p s) as [r|] eqn:M; [|discriminate].
      injection H as <-. destruct (IH _ _ M) as (rest & -> & Hp).
      exists rest. simpl. repeat split; auto.
Qed.

Lemma match_here_complete p :
  forall ps rest, pieces_ok p ps rest ->
  exists ps', Re.match_here p (concat ps ++ rest) = Some ps'.
Proof.
  induction p as [|i p IH]; intros ps rest H.
  - simpl. eauto.
  - destruct ps as [|w ps]; [destruct H|]. destruct H as [Hw Hp].
    destruct (IH _ _ Hp) as [r M]. simpl concat. rewrite <- app_assoc.
    destruct i as [cls q| | |]; [destruct q|..]; simpl in Hw.
    + destruct Hw as (c & -> & C). simpl. rewrite C, M. simpl. eauto.
    + destruct Hw as [-> | (c & -> & C)].
      * simpl. destruct (concat ps ++ rest) as [|c s] eqn:E.
        -- rewrite M. simpl. eauto.
        -- destruct (cls c); [|rewrite M; simpl; eauto].
           destruct (Re.match_here p s); [eauto|]. rewrite M. simpl. eauto.
      * simpl. rewrite C, M. eauto.
    + simpl. destruct (greedy_complete cls _ w _ _ Hw M) as [wr ->]. simpl. eauto.
    + destruct Hw as [Hn F]. destruct w as [|c w]; [congruence|].
      simpl in F. apply andb_true_iff in F as [C F].
      simpl. rewrite C.
      destruct (greedy_complete cls _ w _ _ F M) as [wr ->]. simpl. eauto.
    + subst w. simpl. rewrite M. simpl. eauto.
    + subst w. simpl. rewrite M. simpl. eauto.
    + destruct Hw as [-> E]. simpl. rewrite E, M. simpl. eauto.
Qed.

Lemma search_from_sound p :
  forall s i m, Re.search_from p i s = Some m ->
  exists pre ps rest,
    s = pre ++ concat ps ++ rest
    /\ Re.match_here p (concat ps ++ rest) = Some ps
    /\ m = Re.mk p (i + length pre) ps
    /\ forall a b, pre = a ++ b -> b <> [] ->
                   Re.match_here p (b ++ concat ps ++ rest) = None.
Proof.
  induction s as [|c s IH]; intros i m H; simpl in H.
  - destruct (Re.match_here p []) as [ps|] eqn:M; [|discriminate].
    injection H as <-. destruct (match_here_sound _ _ _ M) as (rest & E & _).
    exists [], ps, rest. simpl. rewrite <- E, Nat.add_0_r. repeat split; auto.
    intros a b Hab Hb. destruct a; destruct b; try discriminate. congruence.
  - destruct (Re.match_here p (c :: s)) as [ps|] eqn:M.
    + injection H as <-. destruct (match_here_sound _ _ _ M) as (rest & E & _).
      exists [], ps, rest. simpl. rewrite <- E, Nat.add_0_r. repeat split; auto.
      intros a b Hab Hb. destruct a; destruct b; try discriminate. congruence.
    + destruct (IH _ _ H) as (pre & ps & rest & -> & M' & -> & L).
      exists (c :: pre), ps, rest. simpl length.
      rewrite Nat.add_succ_r. repeat split; auto.
      intros a b Hab Hb. destruct a as [|x a]; simpl in Hab.
      * subst b. exact M.
      * injection Hab as -> ->. exact (L a b eq_refl Hb).
Qed.

Lemma search_from_complete p :
  forall pre s i, Re.match_here p s <> None ->
  Re.search_from p i (pre ++ s) <> None.
Proof.
  induction pre as [|c pre IH]; intros s i H.
  - destruct s; simpl; destruct (Re.match_here p _); congruence.
  - simpl. destruct (Re.match_here p (c :: pre ++ s)); [discriminate|].
    now apply IH.
Qed.

(** ** The pattern of [update_m3u_file] *)

Lemma concat_singles (w : str) : concat (singles w) = w.
Proof. induction w as [|c w IH]; simpl; congruence. Qed.

Lemma pieces_ok_app p1 p2 :
  forall ps rest,
    pieces_ok (p1 ++ p2) ps rest <->
    exists a b, ps = a ++ b /\ pieces_ok p1 a (concat b ++ rest)
                /\ pieces_ok p2 b rest.
Proof.
  induction p1 as [|i p1 IH]; intros ps rest; simpl.
  - split.
    + intros H. exists [], ps. repeat split; auto.
    + intros (a & b & -> & Ha & Hb). destruct a; [assumption | destruct Ha].
  - split.
    + destruct ps as [|w ps]; [intros []|]. intros [Hw H].
      apply IH in H as (a & b & -> & Ha & Hb).
      exists (w :: a), b. simpl. repeat split; auto.
      now rewrite concat_app, <- app_assoc in Hw.
    + intros (a & b & -> & Ha & Hb). destruct a as [|w a]; [destruct Ha|].
      destruct Ha as [Hw Ha]. simpl. split.
      * now rewrite concat_app, <- app_assoc.
      * apply IH. eauto.
Qed.

Lemma pieces_ok_chars (w : str) :
  forall ps rest, pieces_ok (Re.chars w) ps rest <-> ps = singles w.
Proof.
  induction w as [|c w IH]; intros ps rest; simpl.
  - destruct ps; split; intros H; try reflexivity; try discriminate; auto.
    destruct H.
  - destruct ps as [|x ps]; [split; [intros [] | discriminate]|].
    rewrite IH. split.
    + intros [(c' & -> & E) ->]. apply Ascii.eqb_eq in E. now subst.
    + intros [= -> ->]. split; [|reflexivity].
      exists c. split; [reflexivity | apply Ascii.eqb_refl].
Qed.

Lemma pieces_ok_one (i : Re.item) :
  forall ps rest, pieces_ok [i] ps rest <-> exists w, ps = [w] /\ piece_ok i w rest.
Proof.
  intros ps rest. simpl. destruct ps as [|w ps].
  - split; [intros [] | intros (w & E & _); discriminate].
  - destruct ps as [|x ps]; simpl.
    + split.
      * intros [H _]. eauto.
      * intros (w' & [= ->] & H). auto.
    + split; [intros [_ []] | intros (w' & [=] & _)].
Qed.

Lemma piece_ok_follow (i : Re.item) (w f1 f2 : str) :
  i <> Re.EndAnchor -> piece_ok i w f1 -> piece_ok i w f2.
Proof. destruct i as [cls []| | |]; simpl; auto. congruence. Qed.

(** The matches of [entry_pattern] are the texts of [entry_pieces]. *)
Lemma entry_pattern_pieces (entry_name : str) (ps : list str) (rest : str) :
  pieces_ok (entry_pattern entry_name) ps rest <->
  exists info sfx url,
    ps = entry_pieces entry_name info sfx url
    /\ forallb not_newline info = true
    /\ (sfx = [] \/ sfx = "s")
    /\ url <> []
    /\ forallb not_newline url = true.
Proof.
  unfold entry_pattern, entry_pieces. split.
  - intros H.
    repeat (apply pieces_ok_app in H as (? & ? & -> & ?H & H)).
    repeat match goal with
           | X : pieces_ok (Re.chars _) _ _ |- _ => apply pieces_ok_chars in X; subst
           | X : pieces_ok [_] _ _ |- _ =>
               apply pieces_ok_one in X as (? & -> & X); cbn [piece_ok] in X
           end.
    subst.
    match goal with
    | A : forallb not_newline ?i = true, B : ?u <> [] /\ _,
      C : ?s = [] \/ _ |- _ =>
        exists i, s, u; destruct B as [B1 B2]; repeat split; auto
    end.
    match goal with
    | C : ?s = [] \/ (exists c, ?s = [c] /\ _) |- _ =>
        destruct C as [C | (c & C & E)]; [now left | right]
    end.
    apply Ascii.eqb_eq in E. now subst.
  - intros (info & sfx & url & -> & Hi & Hs & Hu & Hu').
    repeat (apply pieces_ok_app; eexists; eexists; split; [reflexivity|]; split).
    all: try (apply pieces_ok_chars; reflexivity).
    all: apply pieces_ok_one; eexists; (split; [reflexivity|]); cbn [piece_ok]; auto.
    destruct Hs as [-> | ->]; [now left | right].
    exists "s"%char. split; reflexivity.
Qed.

Lemma entry_pieces_concat (entry_name info sfx url : str) :
  concat (entry_pieces entry_name info sfx url)
  = "#EXTINF:" ++ info ++ "," ++ entry_name ++ [Str.nl]
    ++ "http" ++ sfx ++ "://" ++ url.
Proof.
  unfold entry_pieces. repeat rewrite concat_app. repeat rewrite concat_singles.
  simpl. repeat rewrite <- app_assoc. simpl. now rewrite app_nil_r.
Qed.

(** The pattern matches at the start of [s] exactly when an entry of that
    name starts there. *)
Lemma match_entry_iff (entry_name s : str) :
  Re.match_here (entry_pattern entry_name) s <> None <-> entry_here s entry_name.
Proof.
  split.
  - destruct (Re.match_here (entry_pattern entry_name) s) as [ps|] eqn:M;
      [intros _ | congruence].
    destruct (match_here_sound _ _ _ M) as (rest & -> & H).
    apply entry_pattern_pieces in H as (info & sfx & url & -> & Hi & Hs & Hu & Hu').
    exists info, sfx, url, rest. rewrite entry_pieces_concat.
    repeat rewrite <- app_assoc. repeat split; auto.
  - intros (info & sfx & url & after & -> & Hi & Hs & Hu & Hu').
    assert (H : pieces_ok (entry_pattern entry_name)
                          (entry_pieces entry_name info sfx url) after).
    { apply entry_pattern_pieces. exists info, sfx, url. repeat split; auto. }
    destruct (match_here_complete _ _ _ H) as [ps' M].
    rewrite entry_pieces_concat in M. repeat rewrite <- app_assoc in M.
    simpl in M. simpl. rewrite M. discriminate.
Qed.

(** [re.search] finds the pattern exactly when the text has an entry of
    that name. *)
Lemma search_entry_iff (entry_name text : str) :
  Re.search (entry_pattern entry_name) text <> None <-> has_entry text entry_name.
Proof.
  unfold Re.search. split.
  - destruct (Re.search_from _ 0 text) as [m|] eqn:S; [intros _ | congruence].
    destruct (search_from_sound _ _ _ _ S) as (pre & ps & rest & -> & M & _).
    exists pre, (concat ps ++ rest). split; [reflexivity|].
    apply match_entry_iff. rewrite M. discriminate.
  - intros (before & s & -> & H). apply search_from_complete.
    now apply match_entry_iff.
Qed.

(** ** Which match [re.search] returns *)

Lemma break_class_app cls (a s : str) :
  forallb cls a = true ->
  Str.break (fun c => negb (cls c)) (a ++ s)
  = (a ++ fst (Str.break (fun c => negb (cls c)) s),
     snd (Str.break (fun c => negb (cls c)) s)).
Proof.
  intros F. induction a as [|c a IH]; simpl.
  - now destruct (Str.break _ s).
  - simpl in F. apply andb_true_iff in F as [C F]. rewrite C. simpl.
    now rewrite (IH F).
Qed.

Lemma break_class_stop cls (c : ascii) (s : str) :
  cls c = false -> Str.break (fun c => negb (cls c)) (c :: s) = ([], c :: s).
Proof. intros C. simpl. now rewrite C. Qed.

(** The text before the first stop character does not depend on what
    follows that character. *)
Lemma break_fst_indep stop (m : str) (c : ascii) (r1 r2 : str) :
  stop c = true ->
  fst (Str.break stop (m ++ c :: r1)) = fst (Str.break stop (m ++ c :: r2)).
Proof.
  intros C. induction m as [|x m IH]; simpl.
  - now rewrite C.
  - destruct (stop x); [reflexivity|].
    destruct (Str.break stop (m ++ c :: r1)), (Str.break stop (m ++ c :: r2)).
    simpl in *. congruence.
Qed.

(** Two texts of one line followed by the same text and a newline are the
    same. *)
Lemma line_prefix_unique (a b m r1 r2 : str) :
  forallb not_newline a = true -> forallb not_newline b = true ->
  a ++ m ++ Str.nl :: r1 = b ++ m ++ Str.nl :: r2 -> a = b.
Proof.
  intros Fa Fb E.
  apply (f_equal (fun s => fst (Str.break (fun c => negb (not_newline c)) s))) in E.
  rewrite (break_class_app _ _ _ Fa), (break_class_app _ _ _ Fb) in E. simpl in E.
  rewrite (break_fst_indep _ m Str.nl r1 r2) in E by reflexivity.
  now apply app_inv_tail in E.
Qed.

Lemma greedy_takes_all cls k (s : str) :
  (forall t, k t <> None) ->
  exists r, Re.greedy cls k s
            = Some (fst (Str.break (fun c => negb (cls c)) s), r).
Proof.
  intros K. induction s as [|c s IH]; simpl.
  - destruct (k []) eqn:E; [simpl; eauto | now apply K in E].
  - destruct (cls c); simpl.
    + destruct IH as [r ->]. destruct (Str.break _ s). simpl. eauto.
    + destruct (k (c :: s)) eqn:E; [simpl; eauto | now apply K in E].
Qed.

(** The last two items of [entry_pattern]: the rest of the line, whole. *)
Lemma match_rest_of_line cls (s : str) (b : list str) :
  Re.match_here [Re.Chr cls Re.Plus; Re.GroupClose] s = Some b ->
  b = [fst (Str.break (fun c => negb (cls c)) s); []].
Proof.
  change (Re.match_here [Re.Chr cls Re.Plus; Re.GroupClose] s)
    with (match s with
          | c :: s' =>
              if cls c
              then option_map (fun wr => (c :: fst wr) :: snd wr)
                     (Re.greedy cls (Re.match_here [Re.GroupClose]) s')
              else None
          | [] => None
          end).
  destruct s as [|c s]; [discriminate|].
  destruct (cls c) eqn:C; [|discriminate].
  destruct (greedy_takes_all cls (Re.match_here [Re.GroupClose]) s) as [r G].
  { intros t. simpl. discriminate. }
  rewrite G. intros [= <-].
  destruct (greedy_sound _ _ _ _ _ G) as (_ & t & _ & [= <-]).
  simpl. rewrite C. simpl. now destruct (Str.break _ s).
Qed.

(** The result of the matcher on [p1 ++ p2] ends with a result of the
    matcher on [p2]. *)
Lemma match_here_app p1 p2 :
  forall s ps, Re.match_here (p1 ++ p2) s = Some ps ->
  exists a b s2,
    ps = a ++ b /\ s = concat a ++ s2 /\ length a = length p1
    /\ Re.match_here p2 s2 = Some b.
Proof.
  induction p1 as [|i p1 IH]; intros s ps H.
  - exists [], ps, s. auto.
  - assert (Step : forall w t r,
               Re.match_here (p1 ++ p2) t = Some r -> ps = w :: r -> s = w ++ t ->
               exists a b s2, ps = a ++ b /\ s = concat a ++ s2
                              /\ length a = length (i :: p1)
                              /\ Re.match_here p2 s2 = Some b).
    { intros w t r M -> ->. destruct (IH _ _ M) as (a & b & s2 & -> & -> & L & M2).
      exists (w :: a), b, s2. simpl. rewrite L, app_assoc. auto. }
    destruct i as [cls q| | |]; [destruct q|..]; simpl in H.
    + destruct s as [|c s]; [discriminate|].
      destruct (cls c); [|discriminate].
      destruct (Re.match_here (p1 ++ p2) s) as [r|] eqn:M; [|discriminate].
      injection H as <-. now apply (Step [c] s r).
    + assert (Skip : forall t, t = s ->
                 option_map (cons []) (Re.match_here (p1 ++ p2) t) = Some ps ->
                 exists a b s2, ps = a ++ b /\ s = concat a ++ s2
                                /\ length a = length (Re.Chr cls Re.Opt :: p1)
                                /\ Re.match_here p2 s2 = Some b).
      { intros t -> Ht.
        destruct (Re.match_here (p1 ++ p2) s) as [r|] eqn:M; [|discriminate].
        injection Ht as <-. now apply (Step [] s r). }
      destruct s as [|c s]; [now apply (Skip [])|].
      destruct (cls c); [|now apply (Skip (c :: s))].
      destruct (Re.match_here (p1 ++ p2) s) as [r|] eqn:M;
        [|now apply (Skip (c :: s))].
      injection H as <-. now apply (Step [c] s r).
    + destruct (Re.greedy cls (Re.match_here (p1 ++ p2)) s) as [[w r]|] eqn:G;
        [|discriminate].
      injection H as <-. destruct (greedy_sound _ _ _ _ _ G) as (_ & t & -> & M).
      now apply (Step w t r).
    + destruct s as [|c s]; [discriminate|].
      destruct (cls c); [|discriminate].
      destruct (Re.greedy cls (Re.match_here (p1 ++ p2)) s) as [[w r]|] eqn:G;
        [|discriminate].
      injection H as <-. destruct (greedy_sound _ _ _ _ _ G) as (_ & t & -> & M).
      now apply (Step (c :: w) t r).
    + destruct (Re.match_here (p1 ++ p2) s) as [r|] eqn:M; [|discriminate].
      injection H as <-. now apply (Step [] s r).
    + destruct (Re.match_here (p1 ++ p2) s) as [r|] eqn:M; [|discriminate].
      injection H as <-. now apply (Step [] s r).
    + destruct (Re.at_end s); [|discriminate].
      destruct (Re.match_here (p1 ++ p2) s) as [r|] eqn:M; [|discriminate].
      injection H as <-. now apply (Step [] s r).
Qed.

Lemma entry_pattern_split (entry_name : str) :
  entry_pattern entry_name
  = entry_head entry_name ++ [Re.Chr not_newline Re.Plus; Re.GroupClose].
Proof.
  unfold entry_pattern, entry_head. repeat rewrite <- app_assoc. reflexivity.
Qed.

Lemma entry_pieces_split (entry_name info sfx url : str) :
  entry_pieces entry_name info sfx url
  = entry_head_pieces entry_name info sfx ++ [url; []].
Proof.
  unfold entry_pieces, entry_head_pieces. repeat rewrite <- app_assoc. reflexivity.
Qed.

Lemma entry_head_length (entry_name info sfx : str) :
  length (entry_head_pieces entry_name info sfx) = length (entry_head entry_name).
Proof.
  unfold entry_head_pieces, entry_head, singles, Re.chars.
  repeat rewrite length_app. repeat rewrite length_map. reflexivity.
Qed.

Lemma app_eq_by_length {A} (a a' b b' : list A) :
  a ++ b = a' ++ b' -> length a = length a' -> a = a' /\ b = b'.
Proof.
  revert a'. induction a as [|x a IH]; intros [|y a'] E L; try discriminate.
  - auto.
  - simpl in E. injection E as -> E. injection L as L.
    destruct (IH _ E L) as [-> ->]. auto.
Qed.

Lemma entry_text_concat (entry_name info sfx url : str) :
  concat (entry_pieces entry_name info sfx url)
  = entry_text info entry_name sfx url.
Proof. apply entry_pieces_concat. Qed.

(** At the start of an entry the matcher takes the whole of its two
    lines. *)
Lemma match_entry_at (entry_name info sfx url after : str) :
  forallb not_newline info = true ->
  sfx = [] \/ sfx = "s" ->
  url <> [] ->
  forallb not_newline url = true ->
  line_end after ->
  Re.match_here (entry_pattern entry_name)
                (entry_text info entry_name sfx url ++ after)
  = Some (entry_pieces entry_name info sfx url).
Proof.
  intros Hi Hs Hu Hu' He.
  assert (H : entry_here (entry_text info entry_name sfx url ++ after) entry_name).
  { exists info, sfx, url, after. unfold entry_text.
    repeat rewrite <- app_assoc. repeat split; auto. }
  apply match_entry_iff in H.
  destruct (Re.match_here _ _) as [ps|] eqn:M; [clear H | congruence].
  f_equal.
  destruct (match_here_sound _ _ _ M) as (rest & E & P).
  apply entry_pattern_pieces in P
    as (info' & sfx' & url' & -> & Hi' & Hs' & Hn' & Hu'').
  rewrite entry_text_concat in E. unfold entry_text in E.
  repeat rewrite <- app_assoc in E.
  apply app_inv_head in E.
  assert (Ei : info = info').
  { apply (line_prefix_unique info info' ("," ++ entry_name)
             ("http" ++ sfx ++ "://" ++ url ++ after)
             ("http" ++ sfx' ++ "://" ++ url' ++ rest)); auto. }
  subst info'. repeat first [apply app_inv_head in E | (injection E as E)].
  assert (Es : sfx = sfx').
  { destruct Hs as [-> | ->], Hs' as [-> | ->]; try reflexivity; discriminate. }
  subst sfx'. repeat first [apply app_inv_head in E | (injection E as E)].
  rewrite entry_pattern_split in M.
  apply match_here_app in M as (a & b & s2 & Eps & Es2 & L & M2).
  rewrite entry_pieces_split in Eps.
  apply app_eq_by_length in Eps as [<- <-];
    [| now rewrite entry_head_length].
  apply match_rest_of_line in M2. injection M2 as M2.
  assert (S2 : s2 = url ++ after).
  { unfold entry_text, entry_head_pieces in Es2.
    repeat rewrite concat_app in Es2. repeat rewrite concat_singles in Es2.
    simpl in Es2. repeat rewrite <- app_assoc in Es2. simpl in Es2.
    repeat first [ rewrite <- app_assoc in Es2
                 | apply app_inv_head in Es2
                 | (injection Es2 as Es2)
                 | progress simpl in Es2 ].
    symmetry. exact Es2. }
  subst s2. rewrite (break_class_app _ _ _ Hu') in M2. simpl in M2.
  assert (B : fst (Str.break (fun c => negb (not_newline c)) after) = []).
  { destruct He as [-> | (r & ->)]; reflexivity. }
  rewrite B, app_nil_r in M2. unfold entry_pieces. now subst url'.
Qed.

Lemma groups_from_chars (w : str) p ps cur :
  Re.groups_from (Re.chars w ++ p) (singles w ++ ps) cur
  = Re.groups_from p ps (option_map (fun a => a ++ w) cur).
Proof.
  revert cur. induction w as [|c w IH]; intros cur; simpl.
  - destruct cur; simpl; [now rewrite app_nil_r | reflexivity].
  - rewrite IH. destruct cur; simpl; [now rewrite <- app_assoc | reflexivity].
Qed.

Lemma entry_groups (entry_name info sfx url : str) :
  Re.groups_from (entry_pattern entry_name)
                 (entry_pieces entry_name info sfx url) None
  = [ "#EXTINF:" ++ info ++ "," ++ entry_name ++ [Str.nl];
      "http" ++ sfx ++ "://" ++ url ].
Proof.
  unfold entry_pattern, entry_pieces.
  cbn [app Re.groups_from option_map].
  repeat (rewrite groups_from_chars; cbn [app Re.groups_from option_map]).
  repeat rewrite <- app_assoc. reflexivity.
Qed.

Lemma search_from_here p i (s : str) ps :
  Re.match_here p s = Some ps -> Re.search_from p i s = Some (Re.mk p i ps).
Proof. intros M. destruct s; simpl; now rewrite M. Qed.

Lemma search_from_skip p i (c : ascii) (s : str) :
  Re.match_here p (c :: s) = None ->
  Re.search_from p i (c :: s) = Re.search_from p (S i) s.
Proof. intros M. simpl. now rewrite M. Qed.

(** [re.search] returns the first entry of that name, with the whole of
    its URL line as second group. *)
Lemma search_first_entry (before info entry_name sfx url after : str) :
  forallb not_newline info = true ->
  sfx = [] \/ sfx = "s" ->
  url <> [] ->
  forallb not_newline url = true ->
  line_end after ->
  (forall a b, before = a ++ b -> b <> [] ->
               ~ entry_here (b ++ entry_text info entry_name sfx url ++ after)
                            entry_name) ->
  Re.search (entry_pattern entry_name)
            (before ++ entry_text info entry_name sfx url ++ after)
  = Some (Re.mk (entry_pattern entry_name) (length before)
                (entry_pieces entry_name info sfx url)).
Proof.
  intros Hi Hs Hu Hu' He. unfold Re.search.
  change (length before) with (0 + length before). generalize 0 as i.
  induction before as [|c before IH]; intros i First.
  - simpl app. rewrite Nat.add_0_r.
    apply search_from_here. now apply match_entry_at.
  - rewrite <- app_comm_cons.
    destruct (Re.match_here (entry_pattern entry_name)
                (c :: before ++ entry_text info entry_name sfx url ++ after))
      eqn:M.
    + exfalso. apply (First [] (c :: before) eq_refl); [discriminate|].
      apply match_entry_iff. rewrite <- app_comm_cons, M. discriminate.
    + rewrite (search_from_skip _ _ _ _ M). simpl length.
      rewrite Nat.add_succ_r. apply (IH (S i)).
      intros a b -> Hb. now apply (First (c :: a) b).
Qed.

(** ** [update_m3u_file] *)







(** No entry of the name starts inside a given text: every start is
    tried. *)
Ltac no_earlier_entry :=
  let a := fresh "a" in
  let b := fresh "b" in
  let E := fresh "E" in
  let Hb := fresh "Hb" in
  let H := fresh "H" in
  intros a b E Hb H; apply match_entry_iff in H;
  repeat (destruct a as [|? a];
          [ simpl in E; subst b; try (apply Hb; reflexivity);
            vm_compute in H; congruence
          | try discriminate E; simpl in E; injection E as <- E ]).


(** C10. The lookup takes any [#EXTINF] line that ends with a comma and
    [entry_name]: a playlist written by [create_output] whose only channel is
    named [x], a comma, [entry_name] is matched by [entry_name]; and for the
    only channel Breaking,News and the name News, which is not the name of
    the channel, the URL line is rewritten and [True] returned. *)
Theorem entry_lookup_matches_name_after_comma :
  (forall (x entry_name sfx url : str),
      forallb not_newline x = true ->
      sfx = [] \/ sfx = "s" ->
      url <> [] ->
      forallb not_newline url = true ->
      Re.search (entry_pattern entry_name)
        (create_output [ {| name := x ++ "," ++ entry_name;
                            link := "http" ++ sfx ++ "://" ++ url |} ])
      <> None)
  /\ lit "Breaking,News" <> lit "News"
  /\ update_m3u_file (Ok (breaking_news "https://old/x.m3u8"))
                     "https://new/y.m3u8" "News"
     = {| returned := Ok true;
          file_after := breaking_news "https://new/y.m3u8";
          out := [ lit "Updated News URL:";
                   lit "  Old: https://old/x.m3u8";
                   lit "  New: https://new/y.m3u8" ];
          err := [] |}.
Proof.
  split; [|split; [discriminate | vm_compute; reflexivity]].
  intros x entry_name sfx url Hx Hs Hu Hu'.
  apply search_entry_iff.
  exists ("#EXTM3U" ++ [Str.nl; Str.nl]),
         (entry_text ("-1," ++ x) entry_name sfx url ++ [Str.nl; Str.nl]).
  split.
  - unfold create_output, entry_text.
    repeat first [rewrite <- app_assoc | rewrite app_nil_r | progress simpl].
    reflexivity.
  - exists ("-1," ++ x), sfx, url, [Str.nl; Str.nl].
    unfold entry_text. repeat rewrite <- app_assoc. repeat split; auto.
Qed.

Lemma entry_lookup_matches_name_after_comma_witness :
  Re.search (entry_pattern "News") (breaking_news "https://old/x.m3u8") <> None.
Proof.
  apply (proj1 entry_lookup_matches_name_after_comma
               "Breaking" "News" "s" "old/x.m3u8").
  - reflexivity.
  - right. reflexivity.
  - discriminate.
  - reflexivity.
Defined.

(** C2, where the code departs from it.  [re.sub] is called without a
    count, so every entry of the name is rewritten, not the first alone: in
    [duplicate_names] both entries named Channel A get the new URL. *)
Theorem update_rewrites_every_duplicate :
  update_m3u_file (Ok duplicate_names) "https://new/y.m3u8" "Channel A"
  = {| returned := Ok true;
       file_after :=
         create_output
           [ {| name := "Channel A"; link := "https://new/y.m3u8" |};
             {| name := "Channel B"; link := "http://b/y.m3u8" |};
             {| name := "Channel A"; link := "https://new/y.m3u8" |} ];
       out := [ lit "Updated Channel A URL:";
                lit "  Old: https://old/x.m3u8";
                lit "  New: https://new/y.m3u8" ];
       err := [] |}
  /\ file_after (update_m3u_file (Ok duplicate_names) "https://new/y.m3u8" "Channel A")
     <> create_output
          [ {| name := "Channel A"; link := "https://new/y.m3u8" |};
            {| name := "Channel B"; link := "http://b/y.m3u8" |};
            {| name := "Channel A"; link := "https://other/z.m3u8" |} ].
Proof.
  split; [vm_compute; reflexivity|].
  vm_compute. discriminate.
Qed.

(** ** The candidates *)

Lemma handle_request_urls (reqs : list str) (st : session) :
  m3u8_urls (fold_left handle_request reqs st)
  = m3u8_urls st ++ filter (Str.contains ".m3u8") reqs.
Proof.
  revert st. induction reqs as [|r reqs IH]; intros st; cbn [fold_left filter].
  - now rewrite app_nil_r.
  - rewrite IH. unfold handle_request.
    destruct (Str.contains ".m3u8" r);
      cbn [m3u8_urls print append_url]; [|reflexivity].
    now rewrite <- app_assoc.
Qed.

Lemma handle_request_stderr (reqs : list str) (st : session) :
  stderr (fold_left handle_request reqs st) = stderr st.
Proof.
  revert st. induction reqs as [|r reqs IH]; intros st; cbn [fold_left];
    [reflexivity|].
  rewrite IH. unfold handle_request. now destruct (Str.contains ".m3u8" r).
Qed.

(** The scan of the content appends to the list and appends nothing that is
    in it already. *)
Lemma add_match_urls (st : session) (m : str) :
  m3u8_urls (add_match st m)
  = if Str.mem (strip_trailing m) (m3u8_urls st)
    then m3u8_urls st
    else m3u8_urls st ++ [strip_trailing m].
Proof.
  unfold add_match. now destruct (Str.mem _ _).
Qed.

Lemma add_match_NoDup (st : session) (m : str) :
  NoDup (m3u8_urls st) -> NoDup (m3u8_urls (add_match st m)).
Proof.
  intros N. rewrite add_match_urls.
  destruct (Str.mem (strip_trailing m) (m3u8_urls st)) eqn:E; [assumption|].
  apply NoDup_app; [assumption | repeat constructor; intros [] |].
  intros x Hx [<- | []]. apply mem_In in Hx. congruence.
Qed.

Lemma scan_content_NoDup (text : str) (st : session) :
  NoDup (m3u8_urls st) -> NoDup (m3u8_urls (scan_content text st)).
Proof.
  unfold scan_content. generalize patterns. intros ps. revert st.
  induction ps as [|p ps IH]; intros st N; simpl; [assumption|].
  apply IH. generalize (Re.findall p text). intros ms. revert st N.
  induction ms as [|m ms IHm]; intros st N; simpl; [assumption|].
  apply IHm. now apply add_match_NoDup.
Qed.

(** C1, where the code departs from it.  The observer of the requests
    appends every URL that contains [.m3u8], whether it is in the list or
    not (the scan of the content does check, [scan_content_NoDup]): a page
    whose player requests its manifest twice gives a list with that URL
    twice. *)
Theorem handle_request_appends_seen_url :
  m3u8_urls (collect polling_page start)
  = [ lit "https://cdn.example.com/live.m3u8";
      lit "https://cdn.example.com/live.m3u8" ]
  /\ ~ NoDup (m3u8_urls (collect polling_page start)).
Proof.
  split; [vm_compute; reflexivity|].
  intros N. assert (E : m3u8_urls (collect polling_page start)
                        = [ lit "https://cdn.example.com/live.m3u8";
                            lit "https://cdn.example.com/live.m3u8" ])
    by (vm_compute; reflexivity).
  rewrite E in N. inversion N as [|x l Hin _]. apply Hin. now left.
Qed.

(** ** A navigation that times out *)

(** C3, as stated, fails: after a timeout the content is not scanned.  For
    [timed_out_page] nothing is found, where the choice among the observed
    URLs and those of the scan would be the URL in the content. *)
Lemma timeout_skips_content_scan :
  found (extract_m3u8_from_page timed_out_page "https://example.com/live" None)
  = None
  /\ select_with_scan timed_out_page None = Some stream_url
  /\ found (extract_m3u8_from_page timed_out_page "https://example.com/live" None)
     <> select_with_scan timed_out_page None.
Proof.
  repeat split; try (vm_compute; reflexivity).
  vm_compute. discriminate.
Qed.

(** C3, as amended.  When the navigation times out the function still
    returns: the timeout is printed on standard error, the browser is closed,
    and the result is the choice among the URLs of the requests observed
    before the timeout that contain [.m3u8]; the content is not scanned. *)
Theorem timeout_keeps_observed_requests :
  forall (pg : page) (url : str) (preferred_domain : option str),
    goto_times_out pg = true ->
    found (extract_m3u8_from_page pg url preferred_domain)
    = select (filter (Str.contains ".m3u8") (requests_goto pg)) preferred_domain
    /\ stderr (log (extract_m3u8_from_page pg url preferred_domain))
       = [lit "Timeout while loading page"]
    /\ browser_closed (extract_m3u8_from_page pg url preferred_domain) = true.
Proof.
  intros pg url pd T. unfold extract_m3u8_from_page, collect. rewrite T.
  set (st := print _ (print _ start)).
  assert (U : m3u8_urls (eprint "Timeout while loading page"
                           (fold_left handle_request (requests_goto pg) st))
              = filter (Str.contains ".m3u8") (requests_goto pg)).
  { simpl. now rewrite handle_request_urls. }
  assert (E : stderr (eprint "Timeout while loading page"
                        (fold_left handle_request (requests_goto pg) st))
              = [lit "Timeout while loading page"]).
  { simpl. now rewrite handle_request_stderr. }
  rewrite U.
  destruct (select _ pd); simpl; rewrite ?handle_request_stderr; auto.
Qed.

Lemma timeout_keeps_observed_requests_witness :
  found (extract_m3u8_from_page
           {| requests_goto := [ lit "https://a.example/x.js";
                                 lit "https://cdn.example.com/live.m3u8" ];
              goto_times_out := true;
              requests_sleep := [];
              content := quoted_stream_url |}
           "https://example.com/live" None)
  = Some (lit "https://cdn.example.com/live.m3u8").
Proof.
  exact (proj1 (timeout_keeps_observed_requests
                  {| requests_goto := [ lit "https://a.example/x.js";
                                        lit "https://cdn.example.com/live.m3u8" ];
                     goto_times_out := true;
                     requests_sleep := [];
                     content := quoted_stream_url |}
                  "https://example.com/live" None eq_refl)).
Defined.

(** ** The scan of the content *)

Lemma pieces_within ok p :
  classes_within ok p ->
  forall ps rest, pieces_ok p ps rest -> forallb ok (concat ps) = true.
Proof.
  induction 1 as [|i p Hi Hp IH]; intros ps rest H.
  - destruct ps; [reflexivity | destruct H].
  - destruct ps as [|w ps]; [destruct H|]. destruct H as [Hw H].
    simpl. rewrite forallb_app, (IH _ _ H), andb_true_r.
    destruct i as [cls q| | |]; simpl in Hw.
    + assert (F : forallb cls w = true).
      { destruct q.
        - destruct Hw as (c & -> & C). simpl. now rewrite C.
        - destruct Hw as [-> | (c & -> & C)]; simpl; [reflexivity | now rewrite C].
        - assumption.
        - now destruct Hw. }
      rewrite forallb_forall in F. apply forallb_forall. auto.
    + now subst w.
    + now subst w.
    + destruct Hw as [-> _]. reflexivity.
Qed.

Lemma lower_app (a b : str) : Str.lower (a ++ b) = Str.lower a ++ Str.lower b.
Proof. apply map_app. Qed.

Lemma pieces_ok_chars_ci (w : str) :
  forall ps rest, pieces_ok (Re.chars_ci w) ps rest ->
                  Str.lower (concat ps) = Str.lower w.
Proof.
  induction w as [|c w IH]; intros ps rest H; simpl in H.
  - destruct ps; [reflexivity | destruct H].
  - destruct ps as [|x ps]; [destruct H|]. destruct H as [(c' & -> & E) H].
    simpl. rewrite (IH _ _ H). f_equal. unfold Re.ci in E.
    apply Ascii.eqb_eq in E. now symmetry.
Qed.

(** A match of the first pattern has no double quote in it and, in lower
    case, contains [.m3u8]. *)
Lemma bare_match_text (ps : list str) (rest : str) :
  pieces_ok bare_pattern ps rest ->
  forallb (not_char dquote) (concat ps) = true
  /\ Str.contains ".m3u8" (Str.lower (concat ps)) = true.
Proof.
  intros H. split.
  - apply (pieces_within (not_char dquote) bare_pattern) with (rest := rest);
      [|assumption].
    unfold bare_pattern, http_prefix. simpl.
    repeat constructor; intros c C; unfold not_char;
      destruct (Ascii.eqb c dquote) eqn:E; try reflexivity;
      apply Ascii.eqb_eq in E; subst c; vm_compute in C; discriminate.
  - unfold bare_pattern in H.
    apply pieces_ok_app in H as (a & b & -> & _ & H).
    apply pieces_ok_app in H as (c & d & -> & _ & H).
    apply pieces_ok_app in H as (e & f & -> & He & _).
    apply pieces_ok_chars_ci in He.
    repeat rewrite concat_app. repeat rewrite lower_app. rewrite He.
    apply contains_iff.
    exists (Str.lower (concat a) ++ Str.lower (concat c)), (Str.lower (concat f)).
    now repeat rewrite <- app_assoc.
Qed.

Lemma prefix_before_char (q : ascii) (a rest s t : str) :
  forallb (not_char q) a = true -> a ++ rest = s ++ q :: t ->
  exists s', s = a ++ s'.
Proof.
  revert s. induction a as [|x a IH]; intros s F E.
  - now exists s.
  - simpl in F. apply andb_true_iff in F as [X F].
    destruct s as [|y s]; simpl in E; injection E as -> E.
    + unfold not_char in X. now rewrite Ascii.eqb_refl in X.
    + destruct (IH _ F E) as [s' ->]. now exists s'.
Qed.

(** No match of the first pattern starts in a text that is followed by a
    double quote and does not contain [.m3u8] in any letter case. *)
Lemma bare_no_match (s t : str) :
  Str.contains ".m3u8" (Str.lower s) = false ->
  Re.match_here bare_pattern (s ++ dquote :: t) = None.
Proof.
  intros C. destruct (Re.match_here _ _) as [ps|] eqn:M; [|reflexivity].
  destruct (match_here_sound _ _ _ M) as (rest & E & H).
  destruct (bare_match_text _ _ H) as [Q L].
  symmetry in E. destruct (prefix_before_char _ _ _ _ _ Q E) as [s' ->].
  rewrite lower_app in C.
  apply contains_iff in L as (a & b & L). rewrite L in C.
  assert (C' : Str.contains ".m3u8" ((a ++ ".m3u8" ++ b) ++ Str.lower s') = true).
  { apply contains_iff. exists a, (b ++ Str.lower s').
    now repeat rewrite <- app_assoc. }
  congruence.
Qed.

Lemma contains_suffix (sub a b : str) :
  Str.contains sub (a ++ b) = false -> Str.contains sub b = false.
Proof.
  intros C. destruct (Str.contains sub b) eqn:E; [|reflexivity].
  apply contains_iff in E as (x & y & ->).
  assert (C' : Str.contains sub (a ++ x ++ sub ++ y) = true).
  { apply contains_iff. exists (a ++ x), y. now repeat rewrite <- app_assoc. }
  congruence.
Qed.

(** The scan steps over a text in which no match starts. *)
Lemma scan_skip p (pre rest : str) :
  forall i,
    (forall a b, pre = a ++ b -> b <> [] -> Re.match_here p (b ++ rest) = None) ->
    Re.scan p i 0 (pre ++ rest)
    = map Re.Plain pre ++ Re.scan p (i + length pre) 0 rest.
Proof.
  induction pre as [|c pre IH]; intros i H.
  - simpl. now rewrite Nat.add_0_r.
  - rewrite <- app_comm_cons. cbn [Re.scan].
    pose proof (H [] (c :: pre) eq_refl) as M.
    rewrite <- app_comm_cons in M. rewrite M by discriminate.
    simpl. rewrite Nat.add_succ_r. f_equal. apply (IH (S i)).
    intros a b -> Hb. now apply (H (c :: a) b).
Qed.

Lemma findall_plain (pre : str) :
  flat_map Re.found_text (map Re.Plain pre) = [].
Proof. induction pre; simpl; auto. Qed.

(** The first match of the first pattern in a text that holds the quoted
    manifest URL after a text without [.m3u8]. *)
Lemma findall_bare_first (pre post : str) :
  Str.contains ".m3u8" (Str.lower pre) = false ->
  exists l, Re.findall bare_pattern (pre ++ quoted_stream_url ++ post)
            = stream_url :: l.
Proof.
  intros C. unfold Re.findall.
  rewrite scan_skip.
  - rewrite flat_map_app, findall_plain. simpl. eexists. reflexivity.
  - intros a b -> Hb. unfold quoted_stream_url.
    rewrite <- app_assoc. simpl app. apply bare_no_match.
    rewrite lower_app in C. now apply contains_suffix in C.
Qed.

(** The scan appends at the end: the first URL of the list stays first. *)
Lemma add_match_head (st : session) (m u : str) (l : list str) :
  m3u8_urls st = u :: l -> exists l', m3u8_urls (add_match st m) = u :: l'.
Proof.
  intros E. rewrite add_match_urls, E.
  destruct (Str.mem _ _); [eauto | simpl; eauto].
Qed.

Lemma add_matches_head (ms : list str) :
  forall (st : session) (u : str) (l : list str),
    m3u8_urls st = u :: l ->
    exists l', m3u8_urls (fold_left add_match ms st) = u :: l'.
Proof.
  induction ms as [|m ms IH]; intros st u l E; simpl; [eauto|].
  destruct (add_match_head st m u l E) as [l' E']. eapply IH. exact E'.
Qed.

Lemma scan_patterns_head (text : str) (ps : list Re.regex) :
  forall (st : session) (u : str) (l : list str),
    m3u8_urls st = u :: l ->
    exists l',
      m3u8_urls (fold_left (fun st pattern =>
                              fold_left add_match (Re.findall pattern text) st)
                           ps st) = u :: l'.
Proof.
  induction ps as [|p ps IH]; intros st u l E; simpl; [eauto|].
  destruct (add_matches_head (Re.findall p text) st u l E) as [l' E'].
  eapply IH. exact E'.
Qed.

Lemma filter_none {A} (f : A -> bool) (l : list A) :
  (forall x, In x l -> f x = false) -> filter f l = [].
Proof.
  induction l as [|a l IH]; intros H; simpl; [reflexivity|].
  rewrite (H a (or_introl eq_refl)). apply IH. intros x Hx. apply H. now right.
Qed.

Lemma extract_found (pg : page) (url : str) (preferred_domain : option str) :
  found (extract_m3u8_from_page pg url preferred_domain)
  = select (m3u8_urls
              (collect pg
                 (print ("Navigating to: " ++ url)
                    (print "Launching browser to fetch dynamic content..." start))))
           preferred_domain.
Proof.
  unfold extract_m3u8_from_page. now destruct (select _ _).
Qed.

(** C9. When no request URL contains [.m3u8], the navigation does not time
    out, and the content holds the manifest URL between double quotes after
    a text that does not contain [.m3u8] in any letter case, the URL found is
    that URL, without the quotes and with its query string, whatever follows
    it in the content; this for no preferred domain, or one the URL
    contains. *)
Theorem static_scan_finds_quoted_url :
  forall (pg : page) (url pre post : str) (preferred_domain : option str),
    goto_times_out pg = false ->
    (forall r, In r (requests_goto pg ++ requests_sleep pg) ->
               Str.contains ".m3u8" r = false) ->
    content pg = pre ++ quoted_stream_url ++ post ->
    Str.contains ".m3u8" (Str.lower pre) = false ->
    (forall d, preferred_domain = Some d -> Str.contains d stream_url = true) ->
    found (extract_m3u8_from_page pg url preferred_domain) = Some stream_url.
Proof.
  intros pg url pre post pd T R C P D.
  rewrite extract_found. unfold collect. rewrite T.
  set (st0 := print _ (print _ start)).
  set (st := fold_left handle_request (requests_sleep pg)
               (fold_left handle_request (requests_goto pg) st0)).
  assert (E : m3u8_urls st = []).
  { unfold st. rewrite !handle_request_urls. simpl.
    rewrite !filter_none; [reflexivity | |]; intros r Hr; apply R;
      apply in_or_app; auto. }
  unfold scan_content, patterns. cbn [fold_left].
  rewrite C. destruct (findall_bare_first pre post P) as [l ->].
  cbn [fold_left].
  assert (E1 : m3u8_urls (add_match st stream_url) = [stream_url]).
  { rewrite add_match_urls, E. vm_compute. reflexivity. }
  destruct (add_matches_head l _ _ _ E1) as [l1 E2].
  destruct (scan_patterns_head (pre ++ quoted_stream_url ++ post)
              [quoted_pattern dquote; quoted_pattern squote] _ _ _ E2) as [l2 E3].
  cbn [fold_left] in E3. rewrite E3.
  unfold select. destruct pd as [[|c d]|]; try reflexivity.
  cbn [find]. now rewrite (D _ eq_refl).
Qed.

Lemma static_scan_finds_quoted_url_witness :
  found (extract_m3u8_from_page static_page "https://example.com/live" None)
  = Some stream_url.
Proof.
  apply (static_scan_finds_quoted_url static_page "https://example.com/live"
           [] [] None).
  - reflexivity.
  - intros r [].
  - reflexivity.
  - reflexivity.
  - discriminate.
Defined.

(** ** Characters of a URL *)

Ltac ascii_cases c :=
  destruct c as [[] [] [] [] [] [] [] []]; vm_compute; try reflexivity;
  try discriminate; auto.

Lemma unsafe_c0 (c : ascii) :
  Url.unsafe c = true -> Url.c0_or_space c = true.
Proof. ascii_cases c. Qed.

Lemma letter_not_c0 (c : ascii) :
  Url.is_letter c = true -> Url.c0_or_space c = false.
Proof. ascii_cases c. Qed.

Lemma scheme_char_safe (c : ascii) :
  Url.scheme_char c = true -> Url.unsafe c = false.
Proof. ascii_cases c. Qed.

Lemma scheme_char_not_colon (c : ascii) :
  Url.scheme_char c = true -> Ascii.eqb ":" c = false.
Proof. ascii_cases c. Qed.

Lemma lower_scheme_char (c : ascii) :
  Url.scheme_char c = true -> Url.scheme_char (Str.lower_char c) = true.
Proof. ascii_cases c. Qed.

Lemma lower_letter (c : ascii) :
  Url.is_letter c = true -> Url.is_letter (Str.lower_char c) = true.
Proof. ascii_cases c. Qed.

Lemma lower_char_idem (c : ascii) :
  Str.lower_char (Str.lower_char c) = Str.lower_char c.
Proof. ascii_cases c. Qed.

(** ** Cutting strings *)

Lemma no_char_app stop (a b : str) :
  no_char stop (a ++ b) <-> no_char stop a /\ no_char stop b.
Proof. unfold no_char. rewrite forallb_app. apply andb_true_iff. Qed.

Lemma no_char_cons stop (c : ascii) (s : str) :
  no_char stop (c :: s) <-> stop c = false /\ no_char stop s.
Proof.
  unfold no_char. simpl. rewrite andb_true_iff, negb_true_iff. reflexivity.
Qed.

Lemma no_char_has (c : ascii) (s : str) :
  no_char (Ascii.eqb c) s <-> Str.has c s = false.
Proof.
  unfold no_char, Str.has. induction s as [|x s IH]; simpl.
  - split; reflexivity.
  - rewrite andb_true_iff, orb_false_iff, negb_true_iff, IH. reflexivity.
Qed.

Lemma break_spec stop (s a b : str) :
  Str.break stop s = (a, b) ->
  s = a ++ b /\ no_char stop a
  /\ (b = [] \/ exists c t, b = c :: t /\ stop c = true).
Proof.
  revert a b. induction s as [|x s IH]; simpl; intros a b H.
  - injection H as <- <-. repeat split. now left.
  - destruct (stop x) eqn:X.
    + injection H as <- <-. repeat split. right. eauto.
    + destruct (Str.break stop s) as [a' b']. injection H as <- <-.
      destruct (IH _ _ eq_refl) as (-> & N & B).
      repeat split; [|assumption]. apply no_char_cons. auto.
Qed.

Lemma break_app stop (a b : str) :
  no_char stop a ->
  Str.break stop (a ++ b)
  = (a ++ fst (Str.break stop b), snd (Str.break stop b)).
Proof.
  intros N. induction a as [|c a IH]; simpl.
  - now destruct (Str.break stop b).
  - apply no_char_cons in N as [C N]. rewrite C, (IH N). reflexivity.
Qed.

Lemma break_at stop (a b : str) :
  no_char stop a ->
  b = [] \/ (exists c t, b = c :: t /\ stop c = true) ->
  Str.break stop (a ++ b) = (a, b).
Proof.
  intros N B. rewrite (break_app _ _ _ N).
  destruct B as [-> | (c & t & -> & C)]; simpl.
  - now rewrite app_nil_r.
  - now rewrite C, app_nil_r.
Qed.

Lemma break_free stop (s : str) : no_char stop s -> Str.break stop s = (s, []).
Proof.
  intros N. rewrite <- (app_nil_r s) at 1. apply break_at; auto.
Qed.

Lemma split1_free (c : ascii) (s : str) :
  no_char (Ascii.eqb c) s -> Str.split1 c s = (s, []).
Proof. intros N. unfold Str.split1. now rewrite (break_free _ _ N). Qed.

Lemma lstrip_spec drop (s : str) :
  Str.lstrip drop s = []
  \/ exists c t, Str.lstrip drop s = c :: t /\ drop c = false.
Proof.
  induction s as [|x s IH]; simpl; [now left|].
  destruct (drop x) eqn:X; [assumption|]. right. eauto.
Qed.

Lemma lstrip_id drop (c : ascii) (s : str) :
  drop c = false -> Str.lstrip drop (c :: s) = c :: s.
Proof. intros C. simpl. now rewrite C. Qed.

Lemma remove_no_char drop (s : str) : no_char drop (Str.remove drop s).
Proof.
  unfold no_char, Str.remove. apply forallb_forall. intros x Hx.
  now apply filter_In in Hx.
Qed.

Lemma remove_id drop (s : str) : no_char drop s -> Str.remove drop s = s.
Proof.
  unfold no_char, Str.remove. induction s as [|x s IH]; simpl; [reflexivity|].
  intros H. apply andb_true_iff in H as [X H]. rewrite X. f_equal. auto.
Qed.

Lemma no_char_weaken (stop stop' : ascii -> bool) (s : str) :
  (forall c, stop' c = true -> stop c = true) ->
  no_char stop s -> no_char stop' s.
Proof.
  unfold no_char. rewrite !forallb_forall. intros W H x Hx.
  specialize (H x Hx). apply negb_true_iff in H. apply negb_true_iff.
  destruct (stop' x) eqn:E; [|reflexivity]. apply W in E. congruence.
Qed.

(** ** Parsing what [urlunparse] builds *)

Lemma split_scheme_scheme (s b : str) :
  scheme_ok s -> Url.split_scheme (s ++ ":" ++ b) = (s, b).
Proof.
  intros ((c & t & -> & L) & F & Low). unfold Url.split_scheme.
  rewrite break_at with (a := c :: t) (b := ":" ++ b).
  - rewrite L, F, Low. reflexivity.
  - unfold no_char. rewrite forallb_forall in *. intros x Hx.
    now rewrite (scheme_char_not_colon x (F x Hx)).
  - right. exists ":"%char, b. auto.
Qed.

Lemma split_scheme_slash (t : str) :
  Url.split_scheme ("/"%char :: t) = ([], "/"%char :: t).
Proof.
  unfold Url.split_scheme. simpl.
  destruct (Str.break (Ascii.eqb ":") t) as [a b]. now destruct b.
Qed.

Lemma split_scheme_rooted (p : str) :
  p = [] \/ (exists t, p = "/"%char :: t) -> Url.split_scheme p = ([], p).
Proof. intros [-> | (t & ->)]; [reflexivity | apply split_scheme_slash]. Qed.

Lemma lstrip_rooted (p : str) :
  p = [] \/ (exists t, p = "/"%char :: t) -> Str.lstrip Url.c0_or_space p = p.
Proof. intros [-> | (t & ->)]; reflexivity. Qed.

Lemma startswith_slashes (p : str) :
  Str.startswith "//" p = true <-> exists t, p = "/"%char :: "/"%char :: t.
Proof.
  split.
  - intros H. apply startswith_inv in H as [r ->]. now exists r.
  - intros (t & ->). reflexivity.
Qed.

Section Reparse.

Variable check_bracketed_netloc : str -> bool.
Variable checknetloc : str -> bool.

Let split_netloc := Url.split_netloc check_bracketed_netloc.
Let urlsplit := Url.urlsplit check_bracketed_netloc checknetloc.
Let urlparse := Url.urlparse check_bracketed_netloc checknetloc.

Lemma split_netloc_slashes (n p : str) :
  no_char Url.delim n ->
  p = [] \/ (exists t, p = "/"%char :: t) ->
  Url.bracket_error check_bracketed_netloc n = false ->
  split_netloc ("//" ++ n ++ p) = Ok (n, p).
Proof.
  intros N P B. unfold split_netloc, Url.split_netloc. simpl.
  rewrite (break_at Url.delim n p N), B; [reflexivity|].
  destruct P as [-> | (t & ->)]; [now left | right]. eauto.
Qed.

Lemma split_netloc_none (p : str) :
  Str.startswith "//" p = false -> split_netloc p = Ok ([], p).
Proof.
  intros H. unfold split_netloc, Url.split_netloc.
  destruct p as [|c1 [|c2 t]]; try reflexivity.
  change (Str.startswith "//" (c1 :: c2 :: t))
    with (Ascii.eqb "/" c1 && (Ascii.eqb "/" c2 && true)) in H.
  rewrite andb_true_r in H.
  now rewrite (Ascii.eqb_sym c1), (Ascii.eqb_sym c2), H.
Qed.

(** [urlsplit] on a text that needs no cleaning and has neither query nor
    fragment. *)
Lemma urlsplit_steps (y s b n p : str) :
  Str.lstrip Url.c0_or_space y = y ->
  no_char Url.unsafe y ->
  Url.split_scheme y = (s, b) ->
  split_netloc b = Ok (n, p) ->
  no_char mark p ->
  Url.netloc_error checknetloc n = false ->
  urlsplit y = Ok {| Url.s_scheme := s; Url.s_netloc := n; Url.s_path := p;
                     Url.s_query := []; Url.s_fragment := [] |}.
Proof.
  intros L U S N M E. unfold urlsplit, Url.urlsplit.
  rewrite L, (remove_id _ _ U), S.
  fold split_netloc. rewrite N. cbn [bind].
  assert (M1 : no_char (Ascii.eqb "#") p).
  { revert M. apply no_char_weaken. intros c H. unfold mark. now rewrite H. }
  assert (M2 : no_char (Ascii.eqb "?") p).
  { revert M. apply no_char_weaken. intros c H. unfold mark.
    rewrite H. apply orb_true_r. }
  rewrite (split1_free _ _ M1), (split1_free _ _ M2), E. reflexivity.
Qed.

(** The text [urlunparse] builds from a canonical scheme, network
    location and path parses back to them. *)
Lemma reparse (s n p : str) :
  canonical check_bracketed_netloc checknetloc s n p ->
  urlparse (Url.urlunparse Url.Since_3_12_4 (plain s n p)) = Ok (plain s n p).
Proof.
  intros [(Ss & Sn & Sp) Sch Nl Br Ck Pm Rt Pr Ba].
  assert (Split : urlsplit (Url.urlunparse Url.Since_3_12_4 (plain s n p))
                  = Ok {| Url.s_scheme := s; Url.s_netloc := n;
                          Url.s_path := p; Url.s_query := [];
                          Url.s_fragment := [] |}).
  { unfold Url.urlunparse, Url.with_params, Url.urlunsplit, plain.
    cbn [Url.s_scheme Url.s_netloc Url.s_path Url.s_query Url.s_fragment
         Url.scheme Url.netloc Url.path Url.params Url.query Url.fragment
         Url.add_query_fragment].
    set (body := match n with
                 | [] => _
                 | _ :: _ => _
                 end).
    assert (Body : no_char Url.unsafe body
                   /\ split_netloc body = Ok (n, p)
                   /\ (s = [] -> Url.split_scheme body = ([], body)
                                 /\ Str.lstrip Url.c0_or_space body = body)).
    { subst body. destruct n as [|c n'] eqn:En.
      - destruct (Str.startswith "//" p) eqn:Sl.
        + apply startswith_slashes in Sl as (t & ->).
          split; [apply no_char_app; split; [reflexivity | assumption]|].
          split.
          * apply (split_netloc_slashes [] ("/"%char :: "/"%char :: t));
              [reflexivity | right; eauto | assumption].
          * intros _. split; [apply split_scheme_slash | reflexivity].
        + destruct s as [|c0 s'] eqn:Es.
          * split; [assumption|]. split; [now apply split_netloc_none|].
            intros _. now apply Ba.
          * destruct (Str.mem (c0 :: s') Url.uses_netloc
                      && match p with
                         | [] => true
                         | x :: _ => Ascii.eqb x "/"
                         end) eqn:Un.
            -- apply andb_true_iff in Un as [_ Un].
               assert (P : p = [] \/ exists t, p = "/"%char :: t).
               { destruct p as [|x t]; [now left | right].
                 apply Ascii.eqb_eq in Un. subst x. eauto. }
               split; [apply no_char_app; split; [reflexivity | assumption]|].
               split; [now apply (split_netloc_slashes [] p)|].
               intros H. discriminate H.
            -- split; [assumption|]. split; [now apply split_netloc_none|].
               intros H. discriminate H.
      - assert (P : p = [] \/ exists t, p = "/"%char :: t)
          by (apply Rt; discriminate).
        assert (Sf : Url.slash_first p = p)
          by (destruct P as [-> | (t & ->)]; reflexivity).
        rewrite Sf.
        split; [apply no_char_app; split; [reflexivity|];
                apply no_char_app; auto|].
        split; [now apply split_netloc_slashes|].
        intros _. split; [apply split_scheme_slash | reflexivity].
    }
    destruct Body as (Ub & Nb & Bb).
    destruct Sch as [-> | Sok].
    - destruct (Bb eq_refl) as [Sb Lb]. simpl Url.add_scheme.
      now apply (urlsplit_steps body [] body n p).
    - assert (Es : Url.add_scheme s body = s ++ ":" ++ body).
      { destruct Sok as ((c & t & -> & _) & _). reflexivity. }
      rewrite Es. apply (urlsplit_steps _ s body n p); auto.
      + destruct Sok as ((c & t & -> & L) & _). simpl.
        now rewrite (letter_not_c0 c L).
      + apply no_char_app. split; [assumption|].
        apply no_char_app. split; [reflexivity | assumption].
      + now apply split_scheme_scheme.
  }
  unfold urlparse, Url.urlparse. fold urlsplit. rewrite Split. cbn [bind].
  cbn [Url.s_scheme Url.s_netloc Url.s_path Url.s_query Url.s_fragment].
  destruct (Str.mem s Url.uses_params && Str.has ";" p) eqn:Up;
    [|reflexivity].
  apply andb_true_iff in Up as [U1 U2]. now rewrite (Pr U1 U2).
Qed.

End Reparse.

(** ** What [urlparse] returns *)

Lemma lower_scheme_ok (c : ascii) (t : str) :
  Url.is_letter c = true -> forallb Url.scheme_char (c :: t) = true ->
  scheme_ok (Str.lower (c :: t)).
Proof.
  intros L F. repeat split.
  - exists (Str.lower_char c), (Str.lower t). split; [reflexivity|].
    now apply lower_letter.
  - unfold Str.lower. apply forallb_forall. intros x Hx.
    apply in_map_iff in Hx as (y & <- & Hy). apply lower_scheme_char.
    rewrite forallb_forall in F. now apply F.
  - unfold Str.lower. rewrite map_map. apply map_ext. apply lower_char_idem.
Qed.

Lemma scheme_ok_safe (s : str) : scheme_ok s -> no_char Url.unsafe s.
Proof.
  intros (_ & F & _). unfold no_char. rewrite forallb_forall in *.
  intros x Hx. now rewrite (scheme_char_safe x (F x Hx)).
Qed.

Lemma split_scheme_spec (u s b : str) :
  Url.split_scheme u = (s, b) ->
  (s = [] /\ b = u) \/ (scheme_ok s /\ exists pre, u = pre ++ ":"%char :: b).
Proof.
  unfold Url.split_scheme. destruct (Str.break (Ascii.eqb ":") u) as [pre rest] eqn:B.
  destruct (break_spec _ _ _ _ B) as (-> & _ & R).
  destruct rest as [|x after]; [intros [= <- <-]; now left|].
  destruct pre as [|c0 t]; [intros [= <- <-]; now left|].
  destruct (Url.is_letter c0 && forallb Url.scheme_char (c0 :: t)) eqn:T.
  - intros [= <- <-]. right. apply andb_true_iff in T as [L F].
    split; [now apply lower_scheme_ok|].
    destruct R as [R | (c & t' & [= -> ->] & C)]; [discriminate|].
    apply Ascii.eqb_eq in C. subst c. now exists (c0 :: t).
  - intros [= <- <-]. now left.
Qed.

(** A text before which no scheme is found has none itself. *)
Lemma split_scheme_prefix (p w : str) :
  Url.split_scheme (p ++ w) = ([], p ++ w) -> Url.split_scheme p = ([], p).
Proof.
  unfold Url.split_scheme.
  destruct (Str.break (Ascii.eqb ":") p) as [pre rest] eqn:B.
  destruct (break_spec _ _ _ _ B) as (E & N & R).
  destruct R as [-> | (c & t & -> & C)].
  - intros _. now destruct pre.
  - subst p. rewrite <- app_assoc, <- app_comm_cons.
    rewrite (break_at _ pre (c :: t ++ w) N) by (right; eauto).
    destruct pre as [|c0 t0]; [reflexivity|].
    destruct (Url.is_letter c0 && forallb Url.scheme_char (c0 :: t0));
      [discriminate | reflexivity].
Qed.

Lemma split1_spec (c : ascii) (u a w : str) :
  Str.split1 c u = (a, w) ->
  no_char (Ascii.eqb c) a /\ exists w', u = a ++ w'.
Proof.
  unfold Str.split1. destruct (Str.break (Ascii.eqb c) u) as [a' b] eqn:B.
  intros [= <- <-]. destruct (break_spec _ _ _ _ B) as (-> & N & _). eauto.
Qed.

Lemma no_char_mark (p : str) :
  no_char (Ascii.eqb "#") p -> no_char (Ascii.eqb "?") p -> no_char mark p.
Proof.
  unfold no_char, mark. rewrite !forallb_forall. intros H1 H2 x Hx.
  specialize (H1 x Hx). specialize (H2 x Hx).
  apply negb_true_iff in H1, H2. now rewrite H1, H2.
Qed.

(** A prefix without [#] and [?] of a text that starts with a delimiter
    starts with a slash. *)
Lemma prefix_rooted (u a w : str) :
  u = [] \/ (exists c t, u = c :: t /\ Url.delim c = true) ->
  u = a ++ w -> no_char mark a ->
  a = [] \/ exists t, a = "/"%char :: t.
Proof.
  intros U E M. destruct a as [|x a']; [now left | right].
  destruct U as [-> | (c & t & -> & D)]; [discriminate|].
  injection E as -> _. apply no_char_cons in M as [M _].
  exists a'. f_equal. unfold Url.delim in D. unfold mark in M.
  apply orb_false_iff in M as [M1 M2].
  rewrite (Ascii.eqb_sym x "#"), (Ascii.eqb_sym x "?"), M1, M2 in D.
  rewrite !orb_false_r in D. now apply Ascii.eqb_eq in D.
Qed.

Section SplitNetloc.

Variable check_bracketed_netloc : str -> bool.

Lemma split_netloc_spec (b n u2 : str) :
  Url.split_netloc check_bracketed_netloc b = Ok (n, u2) ->
  (b = "//" ++ n ++ u2 /\ no_char Url.delim n
   /\ (u2 = [] \/ exists c t, u2 = c :: t /\ Url.delim c = true)
   /\ Url.bracket_error check_bracketed_netloc n = false)
  \/ (Str.startswith "//" b = false /\ n = [] /\ u2 = b).
Proof.
  unfold Url.split_netloc.
  destruct b as [|c1 [|c2 rest]];
    try (intros [= <- <-]; right; repeat split; try reflexivity).
  - simpl. now rewrite andb_false_r.
  - destruct (Ascii.eqb c1 "/" && Ascii.eqb c2 "/") eqn:S.
    + apply andb_true_iff in S as [S1 S2].
      apply Ascii.eqb_eq in S1, S2. subst c1 c2.
      destruct (Str.break Url.delim rest) as [loc url'] eqn:B.
      destruct (Url.bracket_error check_bracketed_netloc loc) eqn:Br;
        [discriminate|].
      intros [= <- <-]. left.
      destruct (break_spec _ _ _ _ B) as (-> & N & R). auto.
    + intros [= <- <-]. right. repeat split.
      change (Str.startswith "//" (c1 :: c2 :: rest))
        with (Ascii.eqb "/" c1 && (Ascii.eqb "/" c2 && true)).
      now rewrite andb_true_r, (Ascii.eqb_sym "/" c1), (Ascii.eqb_sym "/" c2).
Qed.

End SplitNetloc.

(** ** The parameters of the last path segment *)

Lemma has_app (c : ascii) (a b : str) :
  Str.has c (a ++ b) = Str.has c a || Str.has c b.
Proof. unfold Str.has. apply existsb_app. Qed.

Lemma has_cons (c x : ascii) (s : str) :
  Str.has c (x :: s) = Ascii.eqb c x || Str.has c s.
Proof. reflexivity. Qed.

Lemma split_last_slash_none (u : str) :
  Str.has "/" u = false -> Url.split_last_slash u = ([], u).
Proof.
  destruct u as [|c u]; [reflexivity|]. rewrite has_cons. intros H.
  apply orb_false_iff in H as [_ H]. cbn [Url.split_last_slash]. now rewrite H.
Qed.

Lemma split_last_slash_at (h t : str) :
  Str.has "/" t = false ->
  Url.split_last_slash (h ++ "/"%char :: t) = (h, "/"%char :: t).
Proof.
  intros H. induction h as [|x h IH].
  - cbn [app Url.split_last_slash]. now rewrite H.
  - rewrite <- app_comm_cons. cbn [Url.split_last_slash].
    assert (E : Str.has "/" (h ++ "/"%char :: t) = true).
    { rewrite has_app, has_cons, Ascii.eqb_refl. apply orb_true_r. }
    now rewrite E, IH.
Qed.

Lemma split_last_slash_spec (u h t : str) :
  Url.split_last_slash u = (h, t) ->
  u = h ++ t
  /\ (Str.has "/" u = false -> h = [])
  /\ (Str.has "/" u = true ->
      exists t', t = "/"%char :: t' /\ Str.has "/" t' = false).
Proof.
  revert h t. induction u as [|c u IH]; intros h t H.
  - injection H as <- <-. repeat split; auto. discriminate.
  - cbn [Url.split_last_slash] in H. rewrite has_cons.
    destruct (Str.has "/" u) eqn:S.
    + destruct (Url.split_last_slash u) as [h' t'].
      injection H as <- <-. destruct (IH _ _ eq_refl) as (-> & _ & T).
      repeat split.
      * rewrite orb_true_r. discriminate.
      * intros _. now apply T.
    + injection H as <- <-. repeat split; auto.
      rewrite orb_false_r. intros C. apply Ascii.eqb_eq in C. subst c. eauto.
Qed.

(** [_splitparams] cuts a suffix off, keeps a leading slash, and finds
    nothing more to cut in what it returns. *)
Lemma splitparams_spec (p0 p prm : str) :
  Url.splitparams p0 = (p, prm) ->
  (exists w, p0 = p ++ w)
  /\ (forall t, p0 = "/"%char :: t -> exists t', p = "/"%char :: t')
  /\ Url.splitparams p = (p, []).
Proof.
  unfold Url.splitparams at 1.
  destruct (Url.split_last_slash p0) as [h t] eqn:L.
  destruct (Str.break (Ascii.eqb ";") t) as [a b] eqn:B.
  destruct (split_last_slash_spec _ _ _ L) as (E & H0 & H1).
  destruct (break_spec _ _ _ _ B) as (Et & Na & _).
  destruct b as [|x b'].
  - intros [= <- <-]. repeat split.
    + exists []. now rewrite app_nil_r.
    + eauto.
    + unfold Url.splitparams. now rewrite L, B.
  - intros [= <- <-]. subst p0 t. repeat split.
    + exists (x :: b'). now rewrite app_assoc.
    + intros t0 E0. destruct h as [|y h'].
      * destruct a as [|y a']; [|injection E0 as -> _; simpl; eauto].
        simpl in E0. injection E0 as -> _.
        destruct (break_spec _ _ _ _ B) as (_ & _ & [R | (c & t' & [= <- <-] & C)]);
          [discriminate | discriminate C].
      * injection E0 as -> _. simpl. eauto.
    + destruct (Str.has "/" (h ++ a ++ x :: b')) eqn:S.
      * destruct (H1 eq_refl) as (t' & Et' & St').
        destruct a as [|y a'].
        -- simpl in Et'. injection Et' as -> _.
           destruct (break_spec _ _ _ _ B) as (_ & _ & [R | (c & t'' & [= <- <-] & C)]);
             [discriminate | discriminate C].
        -- injection Et' as -> <-. rewrite has_app in St'.
           apply orb_false_iff in St' as [Sa _].
           unfold Url.splitparams. rewrite (split_last_slash_at h a' Sa).
           now rewrite (break_free _ _ Na).
      * rewrite (H0 eq_refl) in *. simpl in S. rewrite has_app in S.
        apply orb_false_iff in S as [Sa _]. simpl.
        unfold Url.splitparams. rewrite (split_last_slash_none a Sa).
        now rewrite (break_free _ _ Na).
Qed.

Section Canonical.

Variable check_bracketed_netloc : str -> bool.
Variable checknetloc : str -> bool.

Let urlparse := Url.urlparse check_bracketed_netloc checknetloc.

Lemma prefix_of_rooted (p0 p w : str) :
  p0 = [] \/ (exists t, p0 = "/"%char :: t) ->
  p0 = p ++ w ->
  (forall t, p0 = "/"%char :: t -> exists t', p = "/"%char :: t') ->
  p = [] \/ exists t, p = "/"%char :: t.
Proof.
  intros [-> | (t & ->)] E H.
  - left. symmetry in E. now apply app_eq_nil in E.
  - right. eauto.
Qed.

(** The facts [urlsplit] and [_splitparams] establish, put together. *)
Lemma canonical_intro (u0 s b n u2 p0 p : str) :
  no_char Url.unsafe u0 ->
  u0 = [] \/ (exists c t, u0 = c :: t /\ Url.c0_or_space c = false) ->
  Url.split_scheme u0 = (s, b) ->
  Url.split_netloc check_bracketed_netloc b = Ok (n, u2) ->
  (exists w, u2 = p0 ++ w) ->
  no_char mark p0 ->
  Url.netloc_error checknetloc n = false ->
  (exists w, p0 = p ++ w) ->
  (forall t, p0 = "/"%char :: t -> exists t', p = "/"%char :: t') ->
  (Str.mem s Url.uses_params = true -> Str.has ";" p = true ->
   Url.splitparams p = (p, [])) ->
  canonical check_bracketed_netloc checknetloc s n p.
Proof.
  intros U0 H0 Ss Sn (w & E2) M Ne (w' & E0) Hd Pr.
  pose proof (split_scheme_spec _ _ _ Ss) as Sch.
  assert (Bs : no_char Url.unsafe b).
  { destruct Sch as [[_ ->] | (_ & pre & ->)]; [assumption|].
    apply no_char_app in U0 as [_ U0]. now apply no_char_cons in U0. }
  pose proof (split_netloc_spec _ _ _ _ Sn) as Nl.
  assert (Ns : no_char Url.unsafe n /\ no_char Url.unsafe u2).
  { destruct Nl as [(-> & _) | (_ & -> & ->)]; [|split; [reflexivity | assumption]].
    apply no_char_app in Bs as [_ Bs]. now apply no_char_app in Bs. }
  destruct Ns as [Ns U2].
  assert (P0 : no_char Url.unsafe p0 /\ no_char Url.unsafe p /\ no_char mark p).
  { subst u2 p0. apply no_char_app in U2 as [U2 _].
    pose proof U2 as U3. apply no_char_app in U3 as [U3 _].
    apply no_char_app in M as [M _]. auto. }
  destruct P0 as (P0s & Ps & Pm).
  assert (Rooted : b = "//" ++ n ++ u2 ->
                   (u2 = [] \/ exists c t, u2 = c :: t /\ Url.delim c = true) ->
                   p = [] \/ exists t, p = "/"%char :: t).
  { intros _ R. apply (prefix_of_rooted p0 p w'); auto.
    now apply (prefix_rooted u2 p0 w). }
  constructor.
  - repeat split; auto.
    destruct Sch as [[-> _] | [Sok _]]; [reflexivity | now apply scheme_ok_safe].
  - destruct Sch as [[-> _] | [Sok _]]; auto.
  - destruct Nl as [(_ & N & _) | (_ & -> & _)]; [assumption | reflexivity].
  - destruct Nl as [(_ & _ & _ & B) | (_ & -> & _)]; [assumption | reflexivity].
  - assumption.
  - assumption.
  - intros Hn. destruct Nl as [(Eb & _ & R & _) | (_ & -> & _)];
      [auto | congruence].
  - assumption.
  - intros Es En Sl.
    destruct Sch as [[_ ->] | [((c & t & -> & _) & _) _]]; [|discriminate].
    destruct Nl as [(Eb & _ & R & _) | (_ & _ & ->)].
    + pose proof (Rooted Eb R) as P.
      split; [now apply split_scheme_rooted | now apply lstrip_rooted].
    + subst p0 s. rewrite <- app_assoc in E2. split.
      * rewrite E2 in Ss. now apply split_scheme_prefix in Ss.
      * destruct p as [|c t]; [reflexivity|].
        destruct H0 as [-> | (c' & t' & -> & C)]; [discriminate|].
        injection E2 as -> _. now apply lstrip_id.
Qed.

Lemma cleaned_head (x : str) :
  let u0 := Str.remove Url.unsafe (Str.lstrip Url.c0_or_space x) in
  u0 = [] \/ exists c t, u0 = c :: t /\ Url.c0_or_space c = false.
Proof.
  intros u0. subst u0.
  destruct (lstrip_spec Url.c0_or_space x) as [-> | (c & t & -> & C)];
    [now left | right].
  assert (U : Url.unsafe c = false).
  { destruct (Url.unsafe c) eqn:U; [|reflexivity].
    apply unsafe_c0 in U. congruence. }
  unfold Str.remove. simpl. rewrite U. simpl. eauto.
Qed.

(** What [urlparse] returns is canonical. *)
Lemma urlparse_canonical (x : str) (r : Url.ParseResult) :
  urlparse x = Ok r ->
  canonical check_bracketed_netloc checknetloc
            (Url.scheme r) (Url.netloc r) (Url.path r).
Proof.
  unfold urlparse, Url.urlparse, Url.urlsplit.
  set (u0 := Str.remove Url.unsafe (Str.lstrip Url.c0_or_space x)).
  pose proof (remove_no_char Url.unsafe (Str.lstrip Url.c0_or_space x)) as U0.
  pose proof (cleaned_head x) as H0. fold u0 in U0. cbv zeta in H0. fold u0 in H0.
  destruct (Url.split_scheme u0) as [s b] eqn:Ss.
  destruct (Url.split_netloc check_bracketed_netloc b) as [[n u2]|] eqn:Sn;
    [|discriminate].
  cbn [bind].
  destruct (Str.split1 "#" u2) as [u3 frag] eqn:S1.
  destruct (Str.split1 "?" u3) as [p0 qry] eqn:S2.
  destruct (Url.netloc_error checknetloc n) eqn:Ne; [discriminate|].
  cbn [bind Url.s_scheme Url.s_netloc Url.s_path Url.s_query Url.s_fragment].
  destruct (split1_spec _ _ _ _ S1) as (N1 & w1 & E1).
  destruct (split1_spec _ _ _ _ S2) as (N2 & w2 & E2).
  assert (E : exists w, u2 = p0 ++ w).
  { exists (w2 ++ w1). subst u2 u3. now rewrite app_assoc. }
  assert (M : no_char mark p0).
  { apply no_char_mark; [|assumption]. subst u3.
    now apply no_char_app in N1. }
  destruct (Str.mem s Url.uses_params && Str.has ";" p0) eqn:Up.
  - destruct (Url.splitparams p0) as [p prm] eqn:Sp.
    intros [= <-]. cbn [Url.scheme Url.netloc Url.path].
    destruct (splitparams_spec _ _ _ Sp) as (Pw & Ph & Pi).
    apply (canonical_intro u0 s b n u2 p0 p); auto.
  - intros [= <-]. cbn [Url.scheme Url.netloc Url.path].
    apply (canonical_intro u0 s b n u2 p0 p0); auto.
    + exists []. now rewrite app_nil_r.
    + eauto.
    + intros A B. rewrite A, B in Up. discriminate.
Qed.

End Canonical.

(** ** [strip_url_parameters] *)

(** The releases of [urlunsplit] agree when the network location is not
    empty. *)
Lemma urlunsplit_releases_agree (c : Url.SplitResult) :
  Url.s_netloc c <> [] ->
  Url.urlunsplit Url.Before_3_12_4 c = Url.urlunsplit Url.Since_3_12_4 c.
Proof.
  unfold Url.urlunsplit.
  destruct (Url.s_netloc c); [congruence | reflexivity].
Qed.

Section Strip.

Variable cpython : Url.release.
Variable check_bracketed_netloc : str -> bool.
Variable checknetloc : str -> bool.

Let urlparse := Url.urlparse check_bracketed_netloc checknetloc.
Let strip := strip_url_parameters cpython check_bracketed_netloc checknetloc.

Lemma strip_ok (x y : str) :
  strip x = Ok y ->
  exists r, urlparse x = Ok r
            /\ y = Url.urlunparse cpython
                     (plain (Url.scheme r) (Url.netloc r) (Url.path r)).
Proof.
  unfold strip, strip_url_parameters. fold urlparse.
  destruct (urlparse x) as [r|e]; [|discriminate].
  intros [= <-]. eauto.
Qed.

(** What [urlunparse] builds parses to what it was built from: on every
    release when the network location is not empty, and whatever the
    network location from 3.12.4 on. *)
Lemma reparse_release (s n p : str) :
  cpython = Url.Since_3_12_4 \/ n <> [] ->
  canonical check_bracketed_netloc checknetloc s n p ->
  urlparse (Url.urlunparse cpython (plain s n p)) = Ok (plain s n p).
Proof.
  intros H C.
  assert (E : Url.urlunparse cpython (plain s n p)
              = Url.urlunparse Url.Since_3_12_4 (plain s n p)).
  { destruct H as [-> | Hn]; [reflexivity|].
    destruct cpython; [|reflexivity].
    unfold Url.urlunparse. now apply urlunsplit_releases_agree. }
  rewrite E. now apply reparse.
Qed.

(** The result parses to the scheme, the network location and the path
    of the input, and to nothing else. *)
Lemma strip_parses (x y : str) :
  strip x = Ok y ->
  exists r, urlparse x = Ok r
            /\ (cpython = Url.Since_3_12_4 \/ Url.netloc r <> [] ->
                urlparse y
                = Ok (plain (Url.scheme r) (Url.netloc r) (Url.path r))).
Proof.
  intros H. destruct (strip_ok _ _ H) as (r & P & ->).
  exists r. split; [assumption|]. intros V.
  apply reparse_release; [assumption|].
  now apply (urlparse_canonical _ _ x).
Qed.

Lemma strip_fixed (x y : str) :
  cpython = Url.Since_3_12_4
  \/ (forall r, urlparse x = Ok r -> Url.netloc r <> []) ->
  strip x = Ok y -> strip y = Ok y.
Proof.
  intros V H. destruct (strip_parses _ _ H) as (r & P & Q).
  destruct (strip_ok _ _ H) as (r' & P' & ->).
  rewrite P in P'. injection P' as <-.
  unfold strip, strip_url_parameters. fold urlparse. rewrite Q.
  - reflexivity.
  - destruct V as [V | V]; [now left | right; now apply V].
Qed.

End Strip.

(** C7, as stated, fails before CPython 3.12.4: there [urlunsplit] puts
    nothing before a path that starts with two slashes when the network
    location is empty, so that the path loses two of its slashes with each
    application. *)
Lemma strip_url_parameters_loses_slashes :
  strip_url_parameters Url.Before_3_12_4 accept accept "http://////.m3u8"
  = Ok (lit "http:////.m3u8")
  /\ strip_url_parameters Url.Before_3_12_4 accept accept "http:////.m3u8"
     = Ok (lit "http://.m3u8")
  /\ bind (strip_url_parameters Url.Before_3_12_4 accept accept
                                "http://////.m3u8")
          (strip_url_parameters Url.Before_3_12_4 accept accept)
     <> strip_url_parameters Url.Before_3_12_4 accept accept
                             "http://////.m3u8".
Proof.
  repeat split; try (vm_compute; reflexivity). vm_compute. discriminate.
Qed.

(** C7, as amended.  [strip_url_parameters] is idempotent from CPython
    3.12.4 on, and on every release for a URL whose network location is not
    empty: applied to its own result it returns that result; and where it
    raises ([urlparse] refuses the network location), so does the
    composition.  This whatever the two checks of the network location
    accept. *)
Theorem strip_url_parameters_idempotent :
  forall (cpython : Url.release)
         (check_bracketed_netloc checknetloc : str -> bool) (x : str),
    cpython = Url.Since_3_12_4
    \/ (forall r, Url.urlparse check_bracketed_netloc checknetloc x = Ok r ->
                  Url.netloc r <> []) ->
    bind (strip_url_parameters cpython check_bracketed_netloc checknetloc x)
         (strip_url_parameters cpython check_bracketed_netloc checknetloc)
    = strip_url_parameters cpython check_bracketed_netloc checknetloc x.
Proof.
  intros v cb cn x V.
  destruct (strip_url_parameters v cb cn x) as [y|e] eqn:H; [|reflexivity].
  simpl. now apply strip_fixed with (x := x).
Qed.

Lemma strip_url_parameters_idempotent_witness :
  bind (strip_url_parameters Url.Before_3_12_4 accept accept
                             "https://h/p/file.m3u8?s=abc&e=1")
       (strip_url_parameters Url.Before_3_12_4 accept accept)
  = strip_url_parameters Url.Before_3_12_4 accept accept
                         "https://h/p/file.m3u8?s=abc&e=1".
Proof.
  apply strip_url_parameters_idempotent.
  right. intros r H. vm_compute in H. injection H as <-. discriminate.
Defined.

(** C6, as stated, fails: the parameters of the last path segment, which
    are neither query string nor fragment, are removed as well, and the
    scheme is put in lower case. *)
Lemma strip_url_parameters_drops_more :
  before_marks "https://h/p/file.m3u8;v=1?s=abc"
  = lit "https://h/p/file.m3u8;v=1"
  /\ strip_url_parameters Url.Before_3_12_4 accept accept
                          "https://h/p/file.m3u8;v=1?s=abc"
     = Ok (lit "https://h/p/file.m3u8")
  /\ strip_url_parameters Url.Before_3_12_4 accept accept
                          "https://h/p/file.m3u8;v=1?s=abc"
     <> Ok (before_marks "https://h/p/file.m3u8;v=1?s=abc")
  /\ strip_url_parameters Url.Before_3_12_4 accept accept
                          "HTTPS://h/p/file.m3u8?s=abc&e=1"
     = Ok (lit "https://h/p/file.m3u8")
  /\ strip_url_parameters Url.Before_3_12_4 accept accept
                          "HTTPS://h/p/file.m3u8?s=abc&e=1"
     <> Ok (before_marks "HTTPS://h/p/file.m3u8?s=abc&e=1")
  /\ strip_url_parameters Url.Since_3_12_4 accept accept
                          "https://h/p/file.m3u8;v=1?s=abc"
     = Ok (lit "https://h/p/file.m3u8")
  /\ strip_url_parameters Url.Since_3_12_4 accept accept
                          "https://h/p/file.m3u8;v=1?s=abc"
     <> Ok (before_marks "https://h/p/file.m3u8;v=1?s=abc")
  /\ strip_url_parameters Url.Since_3_12_4 accept accept
                          "HTTPS://h/p/file.m3u8?s=abc&e=1"
     = Ok (lit "https://h/p/file.m3u8")
  /\ strip_url_parameters Url.Since_3_12_4 accept accept
                          "HTTPS://h/p/file.m3u8?s=abc&e=1"
     <> Ok (before_marks "HTTPS://h/p/file.m3u8?s=abc&e=1").
Proof.
  repeat split; try (vm_compute; reflexivity); vm_compute; discriminate.
Qed.

Lemma mark_cases (c : ascii) : mark c = true -> c = "#"%char \/ c = "?"%char.
Proof.
  unfold mark. intros H. apply orb_true_iff in H as [H | H];
    apply Ascii.eqb_eq in H; auto.
Qed.

Lemma mark_delim (c : ascii) : mark c = true -> Url.delim c = true.
Proof. intros H. destruct (mark_cases c H) as [-> | ->]; reflexivity. Qed.

(** Cutting the fragment and then the query off a text that has neither
    mark before [tail] leaves the text before [tail]. *)
Lemma split_marks (p tail : str) :
  no_char mark p ->
  tail = [] \/ (exists c t, tail = c :: t /\ mark c = true) ->
  fst (Str.split1 "?" (fst (Str.split1 "#" (p ++ tail)))) = p
  /\ before_marks (p ++ tail) = p.
Proof.
  intros M T.
  assert (M1 : no_char (Ascii.eqb "#") p).
  { revert M. apply no_char_weaken. intros c H. unfold mark. now rewrite H. }
  assert (M2 : no_char (Ascii.eqb "?") p).
  { revert M. apply no_char_weaken. intros c H. unfold mark.
    rewrite H. apply orb_true_r. }
  split.
  - unfold Str.split1. rewrite (break_app _ _ _ M1).
    destruct (Str.break (Ascii.eqb "#") tail) as [a b] eqn:B. cbn [fst snd].
    rewrite (break_app _ _ _ M2).
    destruct (Str.break (Ascii.eqb "?") a) as [a' b'] eqn:B'. cbn [fst snd].
    assert (A : a' = []).
    { destruct T as [-> | (c & t & -> & C)].
      - injection B as <- _. now injection B' as <- _.
      - destruct (mark_cases c C) as [-> | ->].
        + simpl in B. injection B as <- _. now injection B' as <- _.
        + simpl in B. destruct (Str.break (Ascii.eqb "#") t).
          injection B as <- _. simpl in B'. now injection B' as <- _. }
    subst a'. now rewrite app_nil_r.
  - unfold before_marks. rewrite (break_at mark p tail M T). reflexivity.
Qed.

Section StripPlain.

Variable cpython : Url.release.
Variable check_bracketed_netloc : str -> bool.
Variable checknetloc : str -> bool.

Lemma split_netloc_delim (n u : str) :
  no_char Url.delim n ->
  u = [] \/ (exists c t, u = c :: t /\ Url.delim c = true) ->
  Url.bracket_error check_bracketed_netloc n = false ->
  Url.split_netloc check_bracketed_netloc ("//" ++ n ++ u) = Ok (n, u).
Proof.
  intros N U B. unfold Url.split_netloc. simpl.
  now rewrite (break_at Url.delim n u N U), B.
Qed.

(** On an [http] or [https] URL in lower case, with a host and without
    parameters, the result is the text before the query string and the
    fragment. *)
Lemma strip_plain_http (sch n p tail : str) :
  sch = "http" \/ sch = "https" ->
  n <> [] ->
  no_char Url.delim n ->
  Str.has "[" n = false -> Str.has "]" n = false ->
  forallb Url.is_ascii n = true ->
  p = [] \/ (exists t, p = "/"%char :: t) ->
  no_char mark p ->
  Str.has ";" p = false ->
  tail = [] \/ (exists c t, tail = c :: t /\ mark c = true) ->
  no_char Url.unsafe (n ++ p ++ tail) ->
  strip_url_parameters cpython check_bracketed_netloc checknetloc
                       (sch ++ "://" ++ n ++ p ++ tail)
  = Ok (sch ++ "://" ++ n ++ p)
  /\ before_marks (sch ++ "://" ++ n ++ p ++ tail) = sch ++ "://" ++ n ++ p.
Proof.
  intros Hs Hn Nd Nb1 Nb2 Na Hp Mp Sp Ht Us.
  assert (Sok : scheme_ok sch).
  { destruct Hs as [-> | ->];
      (split; [exists "h"%char; eexists; split; reflexivity
              | split; reflexivity]). }
  assert (Ssafe : no_char Url.unsafe (sch ++ ":" ++ "//" ++ n ++ p ++ tail)).
  { apply no_char_app. split; [now apply scheme_ok_safe|].
    apply no_char_app. split; [reflexivity|].
    apply no_char_app. split; [reflexivity | assumption]. }
  assert (Ex : sch ++ "://" ++ n ++ p ++ tail
               = sch ++ ":" ++ "//" ++ n ++ p ++ tail) by reflexivity.
  assert (Ut : p ++ tail = [] \/ exists c t, p ++ tail = c :: t /\ Url.delim c = true).
  { destruct Hp as [-> | (t & ->)].
    - destruct Ht as [-> | (c & t & -> & C)]; [now left | right].
      exists c, t. split; [reflexivity | now apply mark_delim].
    - right. exists "/"%char, (t ++ tail). auto. }
  assert (Br : Url.bracket_error check_bracketed_netloc n = false).
  { unfold Url.bracket_error. now rewrite Nb1, Nb2. }
  destruct (split_marks p tail Mp Ht) as [Pm Bm].
  split.
  - unfold strip_url_parameters, Url.urlparse, Url.urlsplit.
    rewrite Ex.
    assert (L : Str.lstrip Url.c0_or_space (sch ++ ":" ++ "//" ++ n ++ p ++ tail)
                = sch ++ ":" ++ "//" ++ n ++ p ++ tail).
    { destruct Hs as [-> | ->]; reflexivity. }
    rewrite L, (remove_id _ _ Ssafe), (split_scheme_scheme _ _ Sok).
    rewrite (split_netloc_delim n (p ++ tail) Nd Ut Br). cbn [bind].
    destruct (Str.split1 "#" (p ++ tail)) as [u3 frag] eqn:S1.
    destruct (Str.split1 "?" u3) as [p' qry] eqn:S2.
    cbn [fst] in Pm. rewrite S2 in Pm. cbn [fst] in Pm. subst p'.
    assert (Ne : Url.netloc_error checknetloc n = false).
    { unfold Url.netloc_error. destruct n; [congruence|]. now rewrite Na. }
    rewrite Ne. cbn [bind Url.s_scheme Url.s_netloc Url.s_path].
    rewrite Sp, andb_false_r.
    unfold Url.urlunparse, Url.with_params, Url.urlunsplit.
    cbn [bind Url.scheme Url.netloc Url.path Url.params Url.query Url.fragment
         Url.s_scheme Url.s_netloc Url.s_path Url.s_query Url.s_fragment
         Url.add_query_fragment].
    assert (Sf : Url.slash_first p = p)
      by (destruct Hp as [-> | (t & ->)]; reflexivity).
    destruct n as [|c n']; [congruence|].
    destruct cpython; cbn [orb]; rewrite Sf;
      destruct Hs as [-> | ->]; reflexivity.
  - rewrite <- Bm at 2. unfold before_marks.
    assert (Mh : no_char mark (sch ++ "://" ++ n)).
    { apply no_char_app. split; [destruct Hs as [-> | ->]; reflexivity|].
      apply no_char_app. split; [reflexivity|].
      revert Nd. apply no_char_weaken. apply mark_delim. }
    replace (sch ++ "://" ++ n ++ p ++ tail)
      with ((sch ++ "://" ++ n) ++ p ++ tail)
      by (now repeat rewrite <- app_assoc).
    rewrite (break_app _ _ _ Mh). cbn [fst].
    now repeat rewrite <- app_assoc.
Qed.

End StripPlain.

(** C6, as amended.  The result of [strip_url_parameters] parses to the
    scheme (which [urlparse] gives in lower case), the network location
    (host and port) and the path of the input, with no parameters, no query
    string and no fragment: from CPython 3.12.4 on for every URL, on every
    release when the network location is not empty.  On an [http] or [https]
    URL written in lower case, whose host is not empty, is made of ASCII
    characters and has no square bracket, whose path is empty or starts with
    a slash and has no parameters, and that holds no tab, carriage return or
    newline, the result is the input up to its first [?] or [#], on every
    release; and the URL of the example gives [https://h/p/file.m3u8]. *)
Theorem strip_url_parameters_keeps_components :
  forall (cpython : Url.release)
         (check_bracketed_netloc checknetloc : str -> bool),
    (forall (x y : str),
        strip_url_parameters cpython check_bracketed_netloc checknetloc x
        = Ok y ->
        exists r,
          Url.urlparse check_bracketed_netloc checknetloc x = Ok r
          /\ (cpython = Url.Since_3_12_4 \/ Url.netloc r <> [] ->
              Url.urlparse check_bracketed_netloc checknetloc y
              = Ok (plain (Url.scheme r) (Url.netloc r) (Url.path r))))
    /\ (forall (sch n p tail : str),
           sch = "http" \/ sch = "https" ->
           n <> [] ->
           no_char Url.delim n ->
           Str.has "[" n = false -> Str.has "]" n = false ->
           forallb Url.is_ascii n = true ->
           p = [] \/ (exists t, p = "/"%char :: t) ->
           no_char mark p ->
           Str.has ";" p = false ->
           tail = [] \/ (exists c t, tail = c :: t /\ mark c = true) ->
           no_char Url.unsafe (n ++ p ++ tail) ->
           strip_url_parameters cpython check_bracketed_netloc checknetloc
                                (sch ++ "://" ++ n ++ p ++ tail)
           = Ok (before_marks (sch ++ "://" ++ n ++ p ++ tail)))
    /\ strip_url_parameters cpython check_bracketed_netloc checknetloc
                            "https://h/p/file.m3u8?s=abc&e=1"
       = Ok (lit "https://h/p/file.m3u8").
Proof.
  intros v cb cn. split; [|split].
  - intros x y H. now apply (strip_parses v).
  - intros sch n p tail Hs Hn Nd Nb1 Nb2 Na Hp Mp Sp Ht Us.
    destruct (strip_plain_http v cb cn sch n p tail
                Hs Hn Nd Nb1 Nb2 Na Hp Mp Sp Ht Us) as [-> ->].
    reflexivity.
  - destruct v; vm_compute; reflexivity.
Qed.

Lemma strip_url_parameters_keeps_components_witness :
  strip_url_parameters Url.Before_3_12_4 accept accept
                       "https://h/p/file.m3u8?s=abc&e=1"
  = Ok (before_marks "https://h/p/file.m3u8?s=abc&e=1").
Proof.
  apply (proj1 (proj2 (strip_url_parameters_keeps_components
                         Url.Before_3_12_4 accept accept))
               "https" "h" "/p/file.m3u8" "?s=abc&e=1").
  - right. reflexivity.
  - discriminate.
  - reflexivity.
  - reflexivity.
  - reflexivity.
  - reflexivity.
  - right. eexists. reflexivity.
  - reflexivity.
  - reflexivity.
  - right. do 2 eexists. split; reflexivity.
  - reflexivity.
Defined.

(** * More of the code *)

(** ** The scan of [re.findall] and [re.sub] *)

Lemma pieces_length p :
  forall ps rest, pieces_ok p ps rest -> length ps = length p.
Proof.
  induction p as [|i p IH]; intros [|w ps] rest H; try (now destruct H).
  destruct H as [_ H]. simpl. f_equal. now apply (IH _ rest).
Qed.

(** A pattern with an item that takes a character matches no empty text. *)
Lemma pieces_nonempty p :
  consumes p = true ->
  forall ps rest, pieces_ok p ps rest -> concat ps <> [].
Proof.
  induction p as [|i p IH]; intros C ps rest H; [discriminate|].
  destruct ps as [|w ps]; [destruct H|]. destruct H as [Hw H].
  simpl in C. simpl. intros E. apply app_eq_nil in E as [-> E].
  destruct i as [cls []| | |]; simpl in Hw, C;
    try (now apply (IH C ps rest H)).
  - destruct Hw as (c & [=] & _).
  - now destruct Hw.
Qed.

Lemma match_nonempty p (s : str) (ps : list str) :
  consumes p = true -> Re.match_here p s = Some ps -> concat ps <> [].
Proof.
  intros C M. destruct (match_here_sound _ _ _ M) as (rest & _ & H).
  now apply (pieces_nonempty p C ps rest).
Qed.

Lemma scan_skipping p (w rest : str) :
  forall i, Re.scan p i (length w) (w ++ rest)
            = Re.scan p (i + length w) 0 rest.
Proof.
  induction w as [|c w IH]; intros i; simpl length.
  - now rewrite Nat.add_0_r.
  - rewrite Nat.add_succ_r. apply (IH (S i)).
Qed.

(** After a match the scan goes on behind it. *)
Lemma scan_match p i (ps : list str) (rest : str) :
  Re.match_here p (concat ps ++ rest) = Some ps ->
  concat ps <> [] ->
  Re.scan p i 0 (concat ps ++ rest)
  = Re.Matched (Re.mk p i ps)
    :: Re.scan p (i + length (concat ps)) 0 rest.
Proof.
  intros M N. destruct (concat ps) as [|c w] eqn:E; [congruence|].
  rewrite <- app_comm_cons in *. cbn [Re.scan]. rewrite M. f_equal.
  rewrite E. cbn [length Nat.sub]. rewrite Nat.sub_0_r, Nat.add_succ_r.
  apply scan_skipping.
Qed.

Lemma scan_plain p i (c : ascii) (s : str) :
  Re.match_here p (c :: s) = None ->
  Re.scan p i 0 (c :: s) = Re.Plain c :: Re.scan p (S i) 0 s.
Proof. intros M. cbn [Re.scan]. now rewrite M. Qed.

Lemma scan_nil p i : consumes p = true -> Re.scan p i 0 [] = [].
Proof.
  intros C. cbn [Re.scan]. destruct (Re.match_here p []) as [ps|] eqn:M;
    [|reflexivity].
  exfalso. apply (match_nonempty p [] ps C M).
  destruct (match_here_sound _ _ _ M) as (rest & E & _).
  symmetry in E. now apply app_eq_nil in E.
Qed.

(** The three ways a scan goes on, as an induction principle. *)
Lemma scan_ind p (P : nat -> str -> list Re.token -> Prop) :
  consumes p = true ->
  (forall i, P i [] []) ->
  (forall i c s,
      Re.match_here p (c :: s) = None ->
      P (S i) s (Re.scan p (S i) 0 s) ->
      P i (c :: s) (Re.Plain c :: Re.scan p (S i) 0 s)) ->
  (forall i ps rest,
      Re.match_here p (concat ps ++ rest) = Some ps ->
      concat ps <> [] ->
      P (i + length (concat ps)) rest
        (Re.scan p (i + length (concat ps)) 0 rest) ->
      P i (concat ps ++ rest)
        (Re.Matched (Re.mk p i ps)
           :: Re.scan p (i + length (concat ps)) 0 rest)) ->
  forall s i, P i s (Re.scan p i 0 s).
Proof.
  intros C Hnil Hplain Hmatch s.
  induction s as [s IH] using (induction_ltof1 _ (@length ascii)).
  unfold ltof in IH. intros i. destruct s as [|c s].
  - rewrite scan_nil by assumption. apply Hnil.
  - destruct (Re.match_here p (c :: s)) as [ps|] eqn:M.
    + destruct (match_here_sound _ _ _ M) as (rest & E & _).
      pose proof (match_nonempty p _ ps C M) as N.
      rewrite E in M |- *. rewrite (scan_match p i ps rest M N).
      apply Hmatch; auto. apply IH.
      apply (f_equal (@length ascii)) in E. rewrite length_app in E.
      simpl in E. destruct (concat ps); [congruence|]. simpl in E.
      simpl. lia.
    + rewrite (scan_plain p i c s M). apply Hplain; auto.
Qed.

(** ** Taking characters out *)

Lemma deleted_prefix cls (w s t : str) :
  forallb cls w = true -> deleted cls s t -> deleted cls (w ++ s) t.
Proof.
  induction w as [|c w IH]; intros F D; [assumption|].
  simpl in F. apply andb_true_iff in F as [C F].
  simpl. apply deleted_drop; auto.
Qed.

Lemma deleted_startswith cls (x : str) :
  no_char cls x ->
  forall s t, deleted cls s t ->
              Str.startswith x s = true -> Str.startswith x t = true.
Proof.
  induction x as [|a x IH]; intros N s t D S; [reflexivity|].
  apply no_char_cons in N as [A N].
  destruct D as [|c s t D|c s t C D]; simpl in S; try discriminate.
  - apply andb_true_iff in S as [E S]. simpl. rewrite E. simpl.
    now apply (IH N s t).
  - apply andb_true_iff in S as [E _]. apply Ascii.eqb_eq in E. congruence.
Qed.

(** A text without characters of the class that occurs in [s] occurs in
    what is left of [s]. *)
Lemma deleted_contains cls (x s t : str) :
  no_char cls x -> deleted cls s t ->
  Str.contains x s = true -> Str.contains x t = true.
Proof.
  intros N D. induction D as [|c s t D IH|c s t C D IH]; intros H.
  - assumption.
  - simpl in H. apply orb_true_iff in H as [H | H].
    + apply (deleted_startswith cls x N (c :: s) (c :: t)) in H;
        [|now apply deleted_keep].
      simpl. now rewrite H.
    + simpl. rewrite (IH H). apply orb_true_r.
  - simpl in H. apply orb_true_iff in H as [H | H]; [|auto].
    destruct x as [|a x]; [apply contains_nil|].
    simpl in H. apply andb_true_iff in H as [E _].
    apply Ascii.eqb_eq in E. subst a.
    apply no_char_cons in N as [A _]. congruence.
Qed.

Lemma deleted_map cls (f : ascii -> ascii) (s t : str) :
  (forall c, cls c = true -> cls (f c) = true) ->
  deleted cls s t -> deleted cls (map f s) (map f t).
Proof.
  intros F D. induction D; simpl; constructor; auto.
Qed.

Lemma deleted_forallb cls (P : ascii -> bool) (s t : str) :
  deleted cls s t -> forallb P s = true -> forallb P t = true.
Proof.
  induction 1 as [|c s t D IH|c s t C D IH]; simpl; intros H; auto;
    apply andb_true_iff in H as [H1 H2]; auto.
  rewrite H1. auto.
Qed.

(** What a scan leaves between the matches is the text with characters of
    the classes of the pattern taken out. *)
Lemma scan_deleted cls p :
  consumes p = true -> classes_within cls p ->
  forall s i, deleted cls s (plain_chars (Re.scan p i 0 s)).
Proof.
  intros C W. apply (scan_ind p (fun _ s ts => deleted cls s (plain_chars ts)) C).
  - intros _. constructor.
  - intros i c s _ D. now apply deleted_keep.
  - intros i ps rest M _ D. simpl. apply deleted_prefix; [|assumption].
    destruct (match_here_sound _ _ _ M) as (r & _ & H).
    now apply (pieces_within cls p W ps r).
Qed.

(** Every match a scan reports is a match of the pattern at some place of
    the text. *)
Lemma scan_matched p :
  consumes p = true ->
  forall s i m,
    In (Re.Matched m) (Re.scan p i 0 s) ->
    exists pre ps rest j,
      s = pre ++ concat ps ++ rest
      /\ Re.match_here p (concat ps ++ rest) = Some ps
      /\ m = Re.mk p j ps.
Proof.
  intros C.
  apply (scan_ind p (fun _ s ts =>
                       forall m, In (Re.Matched m) ts ->
                                 exists pre ps rest j,
                                   s = pre ++ concat ps ++ rest
                                   /\ Re.match_here p (concat ps ++ rest) = Some ps
                                   /\ m = Re.mk p j ps) C).
  - intros _ m [].
  - intros i c s _ IH m [E | H]; [discriminate|].
    destruct (IH m H) as (pre & ps & rest & j & -> & M & ->).
    exists (c :: pre), ps, rest, j. auto.
  - intros i ps rest M _ IH m [E | H].
    + injection E as <-. exists [], ps, rest, i. auto.
    + destruct (IH m H) as (pre & ps' & rest' & j & -> & M' & ->).
      exists (concat ps ++ pre), ps', rest', j.
      rewrite <- app_assoc. auto.
Qed.

Lemma findall_matched p (s x : str) :
  consumes p = true ->
  In x (Re.findall p s) ->
  exists pre ps rest j,
    s = pre ++ concat ps ++ rest
    /\ Re.match_here p (concat ps ++ rest) = Some ps
    /\ In x (Re.found_text (Re.Matched (Re.mk p j ps))).
Proof.
  intros C H. unfold Re.findall in H. apply in_flat_map in H as (t & Ht & Hx).
  destruct t as [c|m]; [destruct Hx|].
  destruct (scan_matched p C s 0 m Ht) as (pre & ps & rest & j & E & M & ->).
  exists pre, ps, rest, j. auto.
Qed.

(** ** The candidates of the scan *)

Lemma contains_lower (x s : str) :
  Str.contains x s = true -> Str.contains (Str.lower x) (Str.lower s) = true.
Proof.
  intros H. apply contains_iff in H as (a & b & ->). apply contains_iff.
  exists (Str.lower a), (Str.lower b). now rewrite !lower_app.
Qed.

Lemma contains_app_l (x a b : str) :
  Str.contains x a = true -> Str.contains x (a ++ b) = true.
Proof.
  intros H. apply contains_iff in H as (u & v & ->). apply contains_iff.
  exists u, (v ++ b). now rewrite <- !app_assoc.
Qed.

Lemma contains_app_r (x a b : str) :
  Str.contains x b = true -> Str.contains x (a ++ b) = true.
Proof.
  intros H. apply contains_iff in H as (u & v & ->). apply contains_iff.
  exists (a ++ u), v. now rewrite <- !app_assoc.
Qed.

(** A match of a pattern that has the text [w], in any letter case, among
    its items contains it. *)
Lemma marker_in_match p1 (w : str) p3 (ps : list str) (rest : str) :
  pieces_ok (p1 ++ Re.chars_ci w ++ p3) ps rest ->
  Str.contains (Str.lower w) (Str.lower (concat ps)) = true.
Proof.
  intros H.
  apply pieces_ok_app in H as (a & b & -> & _ & H).
  apply pieces_ok_app in H as (c & d & -> & Hc & _).
  apply pieces_ok_chars_ci in Hc.
  rewrite !concat_app, !lower_app, Hc. apply contains_iff.
  exists (Str.lower (concat a)), (Str.lower (concat d)). reflexivity.
Qed.

Lemma bare_pattern_shape :
  bare_pattern
  = (http_prefix ++ [Re.Chr url_char Re.Plus]) ++ Re.chars_ci ".m3u8"
    ++ [Re.Chr url_char Re.Star].
Proof. reflexivity. Qed.

Lemma quoted_inner_shape (q : ascii) :
  quoted_inner q
  = (http_prefix ++ [Re.Chr (not_char q) Re.Plus]) ++ Re.chars_ci ".m3u8"
    ++ [Re.Chr (not_char q) Re.Star].
Proof. reflexivity. Qed.

Lemma quoted_pattern_shape (q : ascii) :
  quoted_pattern q
  = Re.chars_ci [q] ++ [Re.GroupOpen] ++ quoted_inner q ++ [Re.GroupClose]
    ++ Re.chars_ci [q].
Proof.
  unfold quoted_pattern, quoted_inner. now rewrite <- !app_assoc.
Qed.

Lemma groups_from_plain_items p1 :
  no_groups p1 = true ->
  forall a p2 b cur,
    length a = length p1 ->
    Re.groups_from (p1 ++ p2) (a ++ b) cur
    = Re.groups_from p2 b (option_map (fun x => x ++ concat a) cur).
Proof.
  induction p1 as [|i p1 IH]; intros N a p2 b cur L.
  - destruct a; [|discriminate]. simpl.
    destruct cur; simpl; [now rewrite app_nil_r | reflexivity].
  - destruct a as [|w a]; [discriminate|]. injection L as L.
    simpl in N. apply andb_true_iff in N as [Ni N].
    destruct i as [cls q| | |]; try discriminate; simpl;
      rewrite (IH N a p2 b _ L); destruct cur; simpl;
      now rewrite <- ?app_assoc.
Qed.

(** The first pattern has no group: [re.findall] gives the whole match. *)
Lemma bare_groups (ps : list str) (rest : str) :
  pieces_ok bare_pattern ps rest ->
  Re.groups_from bare_pattern ps None = [].
Proof.
  intros H. pose proof (pieces_length _ _ _ H) as L.
  rewrite <- (app_nil_r bare_pattern), <- (app_nil_r ps).
  rewrite groups_from_plain_items by (assumption || reflexivity).
  reflexivity.
Qed.

(** The second and third patterns have one group, with the text between
    the quotes. *)
Lemma quoted_groups (q : ascii) (ps : list str) (rest : str) :
  pieces_ok (quoted_pattern q) ps rest ->
  exists mid r,
    Re.groups_from (quoted_pattern q) ps None = [concat mid]
    /\ pieces_ok (quoted_inner q) mid r.
Proof.
  rewrite quoted_pattern_shape. intros H.
  apply pieces_ok_app in H as (a & b & -> & Ha & H).
  apply pieces_ok_app in H as (o & b' & -> & Ho & H).
  apply pieces_ok_app in H as (mid & b'' & -> & Hm & H).
  apply pieces_ok_app in H as (c & z & -> & Hc & Hz).
  apply pieces_ok_one in Ho as (w1 & -> & _).
  apply pieces_ok_one in Hc as (w2 & -> & _).
  pose proof (pieces_length _ _ _ Hz) as Lz.
  pose proof (pieces_length _ _ _ Ha) as La.
  pose proof (pieces_length _ _ _ Hm) as Lm.
  exists mid, (concat ([w2] ++ z) ++ rest). split; [|assumption].
  destruct a as [|w0 [|? ?]]; try discriminate La.
  destruct z as [|w3 [|? ?]]; try discriminate Lz.
  cbn [Re.chars_ci map app Re.groups_from option_map].
  rewrite groups_from_plain_items by (assumption || reflexivity).
  cbn [app Re.groups_from option_map]. reflexivity.
Qed.

Lemma pattern_consumes :
  consumes bare_pattern = true
  /\ consumes (quoted_pattern dquote) = true
  /\ consumes (quoted_pattern squote) = true
  /\ consumes trailing_pattern = true.
Proof. repeat split; reflexivity. Qed.

Lemma patterns_cases (p : Re.regex) :
  In p patterns ->
  p = bare_pattern \/ p = quoted_pattern dquote \/ p = quoted_pattern squote.
Proof. intros [<- | [<- | [<- | []]]]; auto. Qed.

(** What [re.findall] gives for one of the three patterns has the mark of
    a manifest URL, and is part of a match that has it. *)
Lemma findall_marker (p : Re.regex) (s x : str) :
  In p patterns -> In x (Re.findall p s) ->
  has_marker x /\ has_marker s.
Proof.
  intros Hp Hx.
  assert (C : consumes p = true).
  { destruct (patterns_cases p Hp) as [-> | [-> | ->]]; reflexivity. }
  destruct (findall_matched p s x C Hx) as (pre & ps & rest & j & -> & M & Fx).
  destruct (match_here_sound _ _ _ M) as (r & E & H).
  apply app_inv_head in E. subst r.
  assert (Whole : has_marker (concat ps)).
  { unfold has_marker. destruct (patterns_cases p Hp) as [-> | [-> | ->]].
    - rewrite bare_pattern_shape in H. apply (marker_in_match _ _ _ _ _ H).
    - destruct (quoted_groups _ _ _ H) as (mid & r & _ & Hm).
      rewrite quoted_pattern_shape in H.
      apply pieces_ok_app in H as (a & b & -> & _ & H).
      apply pieces_ok_app in H as (o & b' & -> & _ & H).
      apply pieces_ok_app in H as (mid' & b'' & -> & Hm' & _).
      rewrite quoted_inner_shape in Hm'.
      rewrite !concat_app, !lower_app.
      apply contains_app_r, contains_app_r, contains_app_l.
      apply (marker_in_match _ _ _ _ _ Hm').
    - rewrite quoted_pattern_shape in H.
      apply pieces_ok_app in H as (a & b & -> & _ & H).
      apply pieces_ok_app in H as (o & b' & -> & _ & H).
      apply pieces_ok_app in H as (mid' & b'' & -> & Hm' & _).
      rewrite quoted_inner_shape in Hm'.
      rewrite !concat_app, !lower_app.
      apply contains_app_r, contains_app_r, contains_app_l.
      apply (marker_in_match _ _ _ _ _ Hm'). }
  split.
  - unfold Re.found_text, Re.mk, Re.groups, Re.whole in Fx.
    destruct (patterns_cases p Hp) as [-> | [-> | ->]].
    + rewrite (bare_groups _ _ H) in Fx. destruct Fx as [<- | []]. exact Whole.
    + destruct (quoted_groups _ _ _ H) as (mid & r & G & Hm). rewrite G in Fx.
      destruct Fx as [<- | []]. rewrite quoted_inner_shape in Hm.
      apply (marker_in_match _ _ _ _ _ Hm).
    + destruct (quoted_groups _ _ _ H) as (mid & r & G & Hm). rewrite G in Fx.
      destruct Fx as [<- | []]. rewrite quoted_inner_shape in Hm.
      apply (marker_in_match _ _ _ _ _ Hm).
  - unfold has_marker in *. rewrite !lower_app.
    apply contains_app_r, contains_app_l. exact Whole.
Qed.

Lemma trailing_lower (c : ascii) :
  trailing c = true -> trailing (Str.lower_char c) = true.
Proof. ascii_cases c. Qed.

Lemma trailing_classes : classes_within trailing trailing_pattern.
Proof.
  unfold classes_within, trailing_pattern.
  constructor; [auto | constructor; [exact I | constructor]].
Qed.

(** [strip_trailing] takes out trailing characters only. *)
Lemma strip_trailing_deleted (s : str) : deleted trailing s (strip_trailing s).
Proof. apply (scan_deleted trailing trailing_pattern eq_refl trailing_classes). Qed.

Lemma strip_trailing_marker (s : str) :
  has_marker s -> has_marker (strip_trailing s).
Proof.
  unfold has_marker.
  apply (deleted_contains trailing); [reflexivity|].
  apply deleted_map; [exact trailing_lower | apply strip_trailing_deleted].
Qed.

Lemma request_marker (r : str) : Str.contains ".m3u8" r = true -> has_marker r.
Proof. intros H. apply (contains_lower ".m3u8" r H). Qed.

Lemma handle_request_marker (reqs : list str) (st : session) :
  Forall has_marker (m3u8_urls st) ->
  Forall has_marker (m3u8_urls (fold_left handle_request reqs st)).
Proof.
  intros F. rewrite handle_request_urls. apply Forall_app. split; [assumption|].
  apply Forall_forall. intros r Hr. apply filter_In in Hr as [_ Hr].
  now apply request_marker.
Qed.

Lemma add_matches_marker (ms : list str) :
  Forall has_marker ms ->
  forall st, Forall has_marker (m3u8_urls st) ->
             Forall has_marker (m3u8_urls (fold_left add_match ms st)).
Proof.
  induction 1 as [|m ms Hm _ IH]; intros st F; simpl; [assumption|].
  apply IH. rewrite add_match_urls. destruct (Str.mem _ _); [assumption|].
  apply Forall_app. split; [assumption|].
  constructor; [now apply strip_trailing_marker | constructor].
Qed.

Lemma scan_content_marker (text : str) (st : session) :
  Forall has_marker (m3u8_urls st) ->
  Forall has_marker (m3u8_urls (scan_content text st)).
Proof.
  unfold scan_content.
  assert (G : forall ps, (forall p, In p ps -> In p patterns) ->
              forall st, Forall has_marker (m3u8_urls st) ->
              Forall has_marker
                (m3u8_urls (fold_left (fun st pattern =>
                                         fold_left add_match
                                                   (Re.findall pattern text) st)
                                      ps st))).
  { induction ps as [|p ps IH]; intros Hps st' F; simpl; [assumption|].
    apply IH; [intros q Hq; apply Hps; now right|].
    apply add_matches_marker; [|assumption].
    apply Forall_forall. intros x Hx.
    apply (findall_marker p text x); [apply Hps; now left | assumption]. }
  apply G. auto.
Qed.

Lemma collect_marker (pg : page) (st : session) :
  Forall has_marker (m3u8_urls st) ->
  Forall has_marker (m3u8_urls (collect pg st)).
Proof.
  intros F. unfold collect. destruct (goto_times_out pg).
  - simpl. now apply handle_request_marker.
  - apply scan_content_marker. now do 2 apply handle_request_marker.
Qed.

Lemma select_In (urls : list str) (preferred_domain : option str) (u : str) :
  select urls preferred_domain = Some u -> In u urls.
Proof.
  unfold select. destruct urls as [|first rest]; [discriminate|].
  destruct preferred_domain as [[|c d]|]; try (intros [= <-]; now left).
  destruct (find (Str.contains (c :: d)) (first :: rest)) as [v|] eqn:F.
  - intros [= <-]. now apply find_some in F.
  - intros [= <-]. now left.
Qed.

(** X1. The URL returned has the mark of a manifest URL, [.m3u8] in some letter
    case, whether it comes from a request or from the content. *)
Theorem extract_result_has_marker :
  forall (pg : page) (url : str) (preferred_domain : option str) (u : str),
    found (extract_m3u8_from_page pg url preferred_domain) = Some u ->
    Str.contains ".m3u8" (Str.lower u) = true.
Proof.
  intros pg url pd u H. rewrite extract_found in H. apply select_In in H.
  assert (F : Forall has_marker
                (m3u8_urls (collect pg
                   (print ("Navigating to: " ++ url)
                      (print "Launching browser to fetch dynamic content..."
                             start)))))
    by (apply collect_marker; constructor).
  rewrite Forall_forall in F. now apply F.
Qed.

Lemma extract_result_has_marker_witness :
  Str.contains ".m3u8" (Str.lower stream_url) = true.
Proof.
  apply (extract_result_has_marker static_page "https://example.com/live" None).
  vm_compute. reflexivity.
Defined.

Lemma findall_without_marker (p : Re.regex) (s : str) :
  In p patterns ->
  Str.contains ".m3u8" (Str.lower s) = false ->
  Re.findall p s = [].
Proof.
  intros Hp C. destruct (Re.findall p s) as [|x l] eqn:E; [reflexivity|].
  destruct (findall_marker p s x Hp) as [_ M]; [rewrite E; now left|].
  unfold has_marker in M. congruence.
Qed.

Lemma collect_without_marker (pg : page) (st : session) :
  m3u8_urls st = [] ->
  (forall r, In r (requests_goto pg ++ requests_sleep pg) ->
             Str.contains ".m3u8" r = false) ->
  Str.contains ".m3u8" (Str.lower (content pg)) = false ->
  m3u8_urls (collect pg st) = [].
Proof.
  intros E0 R C. unfold collect.
  assert (G : m3u8_urls (fold_left handle_request (requests_goto pg) st) = []).
  { rewrite handle_request_urls, E0, filter_none; [reflexivity|].
    intros r Hr. apply R, in_or_app. auto. }
  destruct (goto_times_out pg); [exact G|].
  unfold scan_content, patterns. cbn [fold_left].
  rewrite !findall_without_marker by (assumption || (simpl; auto)).
  cbn [fold_left]. rewrite handle_request_urls, G, filter_none; [reflexivity|].
  intros r Hr. apply R, in_or_app. auto.
Qed.

(** X2. A page that shows [.m3u8] nowhere, in no request URL and in no letter
    case in its content, gives no URL, whatever the preferred domain and
    whether the navigation times out or not. *)
Theorem extract_nothing_without_marker :
  forall (pg : page) (url : str) (preferred_domain : option str),
    (forall r, In r (requests_goto pg ++ requests_sleep pg) ->
               Str.contains ".m3u8" r = false) ->
    Str.contains ".m3u8" (Str.lower (content pg)) = false ->
    found (extract_m3u8_from_page pg url preferred_domain) = None.
Proof.
  intros pg url pd R C. rewrite extract_found.
  now rewrite (collect_without_marker pg
                 (print ("Navigating to: " ++ url)
                    (print "Launching browser to fetch dynamic content..." start))
                 eq_refl R C).
Qed.

Lemma extract_nothing_without_marker_witness :
  found (extract_m3u8_from_page
           {| requests_goto := [lit "https://example.com/app.js"];
              goto_times_out := false;
              requests_sleep := [];
              content := "<video src=https://example.com/live.mp4>" |}
           "https://example.com/live" (Some (lit "example")))
  = None.
Proof.
  apply extract_nothing_without_marker.
  - intros r [<- | []]. reflexivity.
  - reflexivity.
Defined.

Lemma collect_starts_with_observed (pg : page) (st : session) :
  m3u8_urls st = [] ->
  exists l, m3u8_urls (collect pg st) = observed pg ++ l.
Proof.
  intros E. unfold collect, observed. destruct (goto_times_out pg).
  - exists []. simpl. now rewrite handle_request_urls, E, !app_nil_r.
  - set (st' := fold_left handle_request (requests_sleep pg)
                  (fold_left handle_request (requests_goto pg) st)).
    assert (E' : m3u8_urls st'
                 = filter (Str.contains ".m3u8")
                          (requests_goto pg ++ requests_sleep pg)).
    { unfold st'. now rewrite !handle_request_urls, E, filter_app. }
    rewrite <- E'. unfold scan_content. generalize patterns. intros ps.
    generalize st'. clear. induction ps as [|p ps IH]; intros st; simpl.
    + exists []. now rewrite app_nil_r.
    + assert (G : exists l, m3u8_urls (fold_left add_match (Re.findall p (content pg)) st)
                            = m3u8_urls st ++ l).
      { generalize (Re.findall p (content pg)). intros ms. generalize st. clear.
        induction ms as [|m ms IHm]; intros st; simpl.
        - exists []. now rewrite app_nil_r.
        - destruct (IHm (add_match st m)) as [l ->]. rewrite add_match_urls.
          destruct (Str.mem _ _); [eauto|]. rewrite <- app_assoc. eauto. }
      destruct G as [l G]. destruct (IH (fold_left add_match (Re.findall p (content pg)) st))
        as [l' ->]. rewrite G, <- app_assoc. eauto.
Qed.

Lemma found_first_observed (pg : page) (url : str)
      (preferred_domain : option str) (u : str) (l : list str) :
  observed pg = u :: l ->
  (forall d, preferred_domain = Some d -> Str.contains d u = true) ->
  found (extract_m3u8_from_page pg url preferred_domain) = Some u.
Proof.
  intros O D. rewrite extract_found.
  destruct (collect_starts_with_observed pg
              (print ("Navigating to: " ++ url)
                 (print "Launching browser to fetch dynamic content..." start))
              eq_refl) as [l' ->].
  rewrite O. unfold select. simpl app.
  destruct preferred_domain as [[|c d]|]; try reflexivity.
  cbn [find]. now rewrite (D _ eq_refl).
Qed.

(** X3. Requests come first: with no preferred domain, or with one the URL
    contains, the URL returned is that of the first request observed that
    contains [.m3u8], whatever the content of the page holds. *)
Theorem extract_prefers_first_request :
  forall (pg : page) (url : str) (preferred_domain : option str)
         (u : str) (l : list str),
    observed pg = u :: l ->
    (forall d, preferred_domain = Some d -> Str.contains d u = true) ->
    found (extract_m3u8_from_page pg url preferred_domain) = Some u.
Proof.
  intros pg url pd u l. apply found_first_observed.
Qed.

Lemma extract_prefers_first_request_witness :
  found (extract_m3u8_from_page
           {| requests_goto := [ lit "https://example.com/app.js";
                                 lit "https://edge.example.com/live.m3u8" ];
              goto_times_out := false;
              requests_sleep := [];
              content := quoted_stream_url |}
           "https://example.com/live" None)
  = Some (lit "https://edge.example.com/live.m3u8").
Proof.
  apply (extract_prefers_first_request _ _ _ _ []).
  - reflexivity.
  - discriminate.
Defined.

(** X4. When no observed request repeats a URL, the list of candidates holds no
    URL twice: the scan of the content adds none that is in the list. *)
Theorem candidates_distinct_when_requests_are :
  forall (pg : page) (st : session),
    m3u8_urls st = [] ->
    NoDup (observed pg) ->
    NoDup (m3u8_urls (collect pg st)).
Proof.
  intros pg st E N. unfold collect, observed in *.
  destruct (goto_times_out pg).
  - simpl. now rewrite handle_request_urls, E, app_nil_r in *.
  - apply scan_content_NoDup.
    rewrite !handle_request_urls, E. simpl app. now rewrite <- filter_app.
Qed.

Lemma candidates_distinct_when_requests_are_witness :
  NoDup (m3u8_urls
           (collect
              {| requests_goto := [ lit "https://edge.example.com/live.m3u8";
                                    lit "https://example.com/app.js" ];
                 goto_times_out := false;
                 requests_sleep := [ lit "https://cdn.example.com/stream.m3u8" ];
                 content := quoted_stream_url |}
              start)).
Proof.
  apply candidates_distinct_when_requests_are.
  - reflexivity.
  - vm_compute. repeat constructor; simpl; intuition discriminate.
Defined.

(** ** Where a candidate comes from *)

Lemma deleted_incl cls (s t : str) : deleted cls s t -> incl t s.
Proof.
  induction 1 as [|c s t _ IH|c s t _ _ IH].
  - apply incl_refl.
  - intros x [<- | Hx]; [now left | right; now apply IH].
  - now apply incl_tl.
Qed.

(** The text of a group is made of characters of the match. *)
Lemma groups_from_incl p :
  forall (ps : list str) (cur : option str) (g : str),
    In g (Re.groups_from p ps cur) ->
    incl g (match cur with Some w => w | None => [] end ++ concat ps).
Proof.
  induction p as [|i p IH]; intros ps cur g H; [destruct ps; destruct H|].
  destruct ps as [|w ps]; [destruct i as [cls q| | |]; destruct H|].
  assert (Step : forall cur',
             In g (Re.groups_from p ps cur') ->
             incl (match cur' with Some a => a | None => [] end ++ concat ps)
                  (match cur with Some a => a | None => [] end
                   ++ concat (w :: ps)) ->
             incl g (match cur with Some a => a | None => [] end
                     ++ concat (w :: ps))).
  { intros cur' Hg I. eapply incl_tran; [apply (IH _ _ _ Hg) | exact I]. }
  assert (Tail : incl (concat ps)
                      (match cur with Some a => a | None => [] end
                       ++ concat (w :: ps))).
  { cbn [concat]. apply incl_appr, incl_appr, incl_refl. }
  destruct i as [cls q| | |]; cbn [Re.groups_from] in H.
  - apply (Step _ H). destruct cur as [a|]; cbn [option_map concat app].
    + rewrite <- app_assoc. apply incl_refl.
    + apply incl_appr, incl_refl.
  - apply (Step _ H). exact Tail.
  - destruct cur as [a|].
    + destruct H as [<- | H]; [apply incl_appl, incl_refl|].
      apply (Step _ H). exact Tail.
    + apply (Step _ H). exact Tail.
  - apply (Step _ H). destruct cur as [a|]; cbn [option_map concat app].
    + rewrite <- app_assoc. apply incl_refl.
    + apply incl_appr, incl_refl.
Qed.

(** What [re.findall] returns is made of characters of the text. *)
Lemma findall_incl p (s x : str) :
  consumes p = true -> In x (Re.findall p s) -> incl x s.
Proof.
  intros C H.
  destruct (findall_matched p s x C H) as (pre & ps & rest & j & -> & _ & Hx).
  assert (I : incl x (concat ps)).
  { unfold Re.found_text, Re.mk, Re.groups, Re.whole in Hx.
    destruct (Re.groups_from p ps None) as [|g gs] eqn:G.
    - destruct Hx as [<- | []]. apply incl_refl.
    - destruct Hx as [<- | []].
      apply (groups_from_incl p ps None g). rewrite G. now left. }
  eapply incl_tran; [exact I|]. apply incl_appr, incl_appl, incl_refl.
Qed.

Lemma patterns_consume (p : Re.regex) : In p patterns -> consumes p = true.
Proof.
  intros H. destruct pattern_consumes as (C1 & C2 & C3 & _).
  destruct (patterns_cases p H) as [-> | [-> | ->]]; assumption.
Qed.

(** Every candidate is the URL of one of the requests or is made of
    characters of the text scanned. *)
Lemma collect_origin (pg : page) (st : session) :
  m3u8_urls st = [] ->
  Forall (fun u => In u (requests_goto pg ++ requests_sleep pg)
                   \/ incl u (content pg))
         (m3u8_urls (collect pg st)).
Proof.
  intros E0. unfold collect.
  set (Q := fun u : str => In u (requests_goto pg ++ requests_sleep pg)
                           \/ incl u (content pg)).
  assert (R : forall reqs st',
             incl reqs (requests_goto pg ++ requests_sleep pg) ->
             Forall Q (m3u8_urls st') ->
             Forall Q (m3u8_urls (fold_left handle_request reqs st'))).
  { intros reqs st' I F. rewrite handle_request_urls. apply Forall_app.
    split; [assumption|]. apply Forall_forall. intros r Hr.
    apply filter_In in Hr as [Hr _]. left. now apply I. }
  assert (F0 : Forall Q (m3u8_urls
                           (fold_left handle_request (requests_goto pg) st))).
  { apply R; [apply incl_appl, incl_refl | rewrite E0; constructor]. }
  destruct (goto_times_out pg); [exact F0|].
  unfold scan_content.
  assert (G : forall ps, (forall p, In p ps -> In p patterns) ->
              forall st', Forall Q (m3u8_urls st') ->
              Forall Q
                (m3u8_urls (fold_left (fun st pattern =>
                                         fold_left add_match
                                           (Re.findall pattern (content pg)) st)
                                      ps st'))).
  { induction ps as [|p ps IH]; intros Hps st' F; simpl; [assumption|].
    apply IH; [intros q Hq; apply Hps; now right|].
    assert (M : forall ms, (forall x, In x ms -> incl x (content pg)) ->
                forall st1, Forall Q (m3u8_urls st1) ->
                Forall Q (m3u8_urls (fold_left add_match ms st1))).
    { induction ms as [|m ms IHm]; intros Hms st1 F1; simpl; [assumption|].
      apply IHm; [intros x Hx; apply Hms; now right|].
      rewrite add_match_urls. destruct (Str.mem _ _); [assumption|].
      apply Forall_app. split; [assumption|].
      constructor; [|constructor]. right.
      eapply incl_tran; [apply (deleted_incl _ _ _ (strip_trailing_deleted m))|].
      apply Hms. now left. }
    apply M; [|assumption].
    intros x Hx. apply (findall_incl p); [|assumption].
    apply patterns_consume, Hps. now left. }
  apply G; [auto|]. apply R; [apply incl_appr, incl_refl | exact F0].
Qed.

Lemma found_origin (pg : page) (url : str) (preferred_domain : option str)
      (u : str) :
  found (extract_m3u8_from_page pg url preferred_domain) = Some u ->
  In u (requests_goto pg ++ requests_sleep pg) \/ incl u (content pg).
Proof.
  intros H. rewrite extract_found in H. apply select_In in H.
  pose proof (collect_origin pg
                (print ("Navigating to: " ++ url)
                   (print "Launching browser to fetch dynamic content..." start))
                eq_refl) as F.
  rewrite Forall_forall in F. now apply F.
Qed.

(** X5. The URL returned is the URL of an observed request as it is, or it is
    made of characters of the content of the page: nothing is made up. *)
Theorem extract_result_comes_from_the_page :
  forall (pg : page) (url : str) (preferred_domain : option str) (u : str),
    found (extract_m3u8_from_page pg url preferred_domain) = Some u ->
    In u (requests_goto pg ++ requests_sleep pg)
    \/ (forall c, In c u -> In c (content pg)).
Proof.
  intros pg url pd u. apply found_origin.
Qed.

Lemma extract_result_comes_from_the_page_witness :
  In (lit "https://cdn.example.com/stream.m3u8?tok=1")
     (requests_goto static_page ++ requests_sleep static_page)
  \/ (forall c, In c (lit "https://cdn.example.com/stream.m3u8?tok=1") ->
                In c (content static_page)).
Proof.
  apply (extract_result_comes_from_the_page static_page
           "https://example.com/live" None).
  vm_compute. reflexivity.
Defined.

(** ** Rewriting the playlist *)

(** A replacement text without a backslash stands for itself. *)
Lemma expand_plain m n (w : str) :
  forallb (not_char Template.backslash) w = true ->
  Template.expand m n None w = Ok w.
Proof.
  induction w as [|c w IH]; intros H; [reflexivity|].
  cbn [forallb] in H. apply andb_prop in H as [Hc Hw].
  cbn [Template.expand]. unfold not_char in Hc. rewrite Hc, (IH Hw). reflexivity.
Qed.

(** The template of [update_m3u_file]: the first group, then the URL. *)
Lemma expand_template m n (new_url : str) :
  1 <= n ->
  forallb (not_char Template.backslash) new_url = true ->
  Template.expand m n None ("\g<1>" ++ new_url) = Ok (Re.group m 1 ++ new_url).
Proof.
  intros Hn H.
  change (lit "\g<1>" ++ new_url)
    with (Template.backslash :: "g"%char :: "<"%char :: "1"%char :: ">"%char
          :: new_url).
  cbn [Template.expand Ascii.eqb Bool.eqb negb Template.backslash app forallb].
  change (Template.number 10 ["1"%char]) with 1.
  cbn [andb]. unfold Template.reference.
  apply Nat.leb_le in Hn. rewrite Hn, (expand_plain _ _ _ H). reflexivity.
Qed.

(** What [re.sub] puts for each part of the scan. *)
Lemma rebuild_template n (new_url : str) (ts : list Re.token) :
  1 <= n ->
  forallb (not_char Template.backslash) new_url = true ->
  ReSub.rebuild n ("\g<1>" ++ new_url) ts
  = Ok (flat_map (fun t => match t with
                           | Re.Plain c => [c]
                           | Re.Matched m => Re.group m 1 ++ new_url
                           end) ts).
Proof.
  intros Hn H. induction ts as [|[c|m] ts IH]; cbn [ReSub.rebuild flat_map].
  - reflexivity.
  - rewrite IH. reflexivity.
  - rewrite (expand_template _ _ _ Hn H), IH. cbn [bind].
    now rewrite <- app_assoc.
Qed.

Lemma count_groups_chars (w : str) p :
  ReSub.count_groups (Re.chars w ++ p) = ReSub.count_groups p.
Proof.
  unfold ReSub.count_groups. rewrite filter_app, length_app.
  induction w as [|c w IH]; [reflexivity | exact IH].
Qed.

Lemma entry_pattern_groups (entry_name : str) :
  ReSub.count_groups (entry_pattern entry_name) = 2.
Proof.
  unfold entry_pattern.
  change ([Re.GroupOpen] ++ Re.chars "#EXTINF:" ++ ?p)
    with (Re.GroupOpen :: Re.chars "#EXTINF:" ++ p).
  unfold ReSub.count_groups at 1. cbn [filter length].
  fold (ReSub.count_groups
          (Re.chars "#EXTINF:" ++ [Re.Chr not_newline Re.Star] ++ Re.chars ","
           ++ Re.chars entry_name ++ Re.chars [Str.nl] ++ [Re.GroupClose]
           ++ [Re.GroupOpen] ++ Re.chars "http" ++ [Re.Chr (Ascii.eqb "s") Re.Opt]
           ++ Re.chars "://" ++ [Re.Chr not_newline Re.Plus] ++ [Re.GroupClose])).
  rewrite count_groups_chars.
  change ([Re.Chr not_newline Re.Star] ++ Re.chars "," ++ ?p)
    with (Re.Chr not_newline Re.Star :: Re.chars "," ++ p).
  unfold ReSub.count_groups at 1. cbn [filter].
  fold (ReSub.count_groups
          (Re.chars "," ++ Re.chars entry_name ++ Re.chars [Str.nl]
           ++ [Re.GroupClose]
           ++ [Re.GroupOpen] ++ Re.chars "http" ++ [Re.Chr (Ascii.eqb "s") Re.Opt]
           ++ Re.chars "://" ++ [Re.Chr not_newline Re.Plus] ++ [Re.GroupClose])).
  now rewrite !count_groups_chars.
Qed.



Lemma entry_pattern_consumes (entry_name : str) :
  consumes (entry_pattern entry_name) = true.
Proof. reflexivity. Qed.

Lemma sub_template (entry_name new_url s : str) :
  forallb (not_char Template.backslash) new_url = true ->
  ReSub.sub (entry_pattern entry_name) ("\g<1>" ++ new_url) s
  = Ok (flat_map (replaced new_url) (Re.scan (entry_pattern entry_name) 0 0 s)).
Proof.
  intros H. unfold ReSub.sub. rewrite entry_pattern_groups.
  rewrite (expand_template _ 2 _ (le_S _ _ (le_n 1)) H). cbn [bind].
  apply (rebuild_template 2 _ _ (le_S _ _ (le_n 1)) H).
Qed.

Lemma replaced_plain (new_url w : str) :
  flat_map (replaced new_url) (map Re.Plain w) = w.
Proof. induction w as [|c w IH]; simpl; congruence. Qed.

(** Where no entry of the name begins, the scan finds nothing. *)
Lemma scan_no_entry (entry_name s : str) i :
  ~ has_entry s entry_name ->
  Re.scan (entry_pattern entry_name) i 0 s = map Re.Plain s.
Proof.
  intros N.
  rewrite <- (app_nil_r s) at 1. rewrite scan_skip.
  - rewrite (scan_nil _ _ (entry_pattern_consumes entry_name)). apply app_nil_r.
  - intros a b -> Hb. rewrite app_nil_r.
    destruct (Re.match_here (entry_pattern entry_name) b) eqn:M; [|reflexivity].
    exfalso. apply N. exists a, b. split; [reflexivity|].
    apply match_entry_iff. congruence.
Qed.

(** The scan of a text whose first entry of the name is known. *)
Lemma scan_first_entry (before info entry_name sfx url after : str) :
  forallb not_newline info = true ->
  sfx = [] \/ sfx = "s" ->
  url <> [] ->
  forallb not_newline url = true ->
  line_end after ->
  (forall a b, before = a ++ b -> b <> [] ->
               ~ entry_here (b ++ entry_text info entry_name sfx url ++ after)
                            entry_name) ->
  Re.scan (entry_pattern entry_name) 0 0
          (before ++ entry_text info entry_name sfx url ++ after)
  = map Re.Plain before
    ++ Re.Matched (Re.mk (entry_pattern entry_name) (length before)
                         (entry_pieces entry_name info sfx url))
    :: Re.scan (entry_pattern entry_name)
               (length before + length (entry_text info entry_name sfx url))
               0 after.
Proof.
  intros Hi Hs Hu Hu' He First.
  rewrite scan_skip.
  - f_equal. cbn [Nat.add].
    pose proof (match_entry_at entry_name info sfx url after Hi Hs Hu Hu' He) as M.
    rewrite <- entry_text_concat in *.
    apply (scan_match _ _ _ _ M).
    apply (match_nonempty _ _ _ (entry_pattern_consumes entry_name) M).
  - intros a b E Hb.
    destruct (Re.match_here _ _) eqn:M; [|reflexivity].
    exfalso. apply (First a b E Hb). apply match_entry_iff. congruence.
Qed.


(** The outcome of a call that finds the entry with another URL, the
    replacement having no backslash. *)
Lemma update_first_entry (before info entry_name sfx url after new_url : str) :
  forallb not_newline info = true ->
  sfx = [] \/ sfx = "s" ->
  url <> [] ->
  forallb not_newline url = true ->
  line_end after ->
  (forall a b, before = a ++ b -> b <> [] ->
               ~ entry_here (b ++ entry_text info entry_name sfx url ++ after)
                            entry_name) ->
  forallb (not_char Template.backslash) new_url = true ->
  new_url <> "http" ++ sfx ++ "://" ++ url ->
  update_m3u_file (Ok (before ++ entry_text info entry_name sfx url ++ after))
                  new_url entry_name
  = {| returned := Ok true;
       file_after :=
         before ++ "#EXTINF:" ++ info ++ "," ++ entry_name ++ [Str.nl]
         ++ new_url
         ++ flat_map (replaced new_url)
              (Re.scan (entry_pattern entry_name)
                 (length before + length (entry_text info entry_name sfx url))
                 0 after);
       out := [ "Updated " ++ entry_name ++ " URL:";
                "  Old: " ++ "http" ++ sfx ++ "://" ++ url;
                "  New: " ++ new_url ];
       err := [] |}.
Proof.
  intros Hi Hs Hu Hu' He First Hb Hd. unfold update_m3u_file.
  rewrite (search_first_entry before info entry_name sfx url after
             Hi Hs Hu Hu' He First).
  unfold Re.group at 1 2, Re.mk, Re.groups. rewrite entry_groups. cbn [nth].
  destruct (Str.eqb _ new_url) eqn:E.
  - apply str_eqb_eq in E. congruence.
  - rewrite (sub_template _ _ _ Hb).
    rewrite (scan_first_entry before info entry_name sfx url after
               Hi Hs Hu Hu' He First).
    rewrite flat_map_app, replaced_plain. cbn [flat_map replaced].
    unfold Re.group, Re.mk, Re.groups. rewrite entry_groups. cbn [nth].
    repeat rewrite <- app_assoc. reflexivity.
Qed.

(** X6. A playlist with one entry of the name: the call puts the new URL in the
    place of the old one, returns [True], and leaves every other character
    of the file, the [#EXTINF] line of the entry among them, as it was.
    The new URL has no backslash and differs from the old one. *)
Theorem update_replaces_only_the_url :
  forall (before info entry_name sfx url after new_url : str),
    forallb not_newline info = true ->
    sfx = [] \/ sfx = "s" ->
    url <> [] ->
    forallb not_newline url = true ->
    line_end after ->
    (forall a b, before = a ++ b -> b <> [] ->
                 ~ entry_here (b ++ entry_text info entry_name sfx url ++ after)
                              entry_name) ->
    ~ has_entry after entry_name ->
    forallb (not_char Template.backslash) new_url = true ->
    new_url <> "http" ++ sfx ++ "://" ++ url ->
    update_m3u_file (Ok (before ++ entry_text info entry_name sfx url ++ after))
                    new_url entry_name
    = {| returned := Ok true;
         file_after :=
           before ++ "#EXTINF:" ++ info ++ "," ++ entry_name ++ [Str.nl]
           ++ new_url ++ after;
         out := [ "Updated " ++ entry_name ++ " URL:";
                  "  Old: " ++ "http" ++ sfx ++ "://" ++ url;
                  "  New: " ++ new_url ];
         err := [] |}.
Proof.
  intros before info entry_name sfx url after new_url
         Hi Hs Hu Hu' He First Last Hb Hd.
  rewrite (update_first_entry before info entry_name sfx url after new_url
             Hi Hs Hu Hu' He First Hb Hd).
  now rewrite (scan_no_entry _ _ _ Last), replaced_plain.
Qed.

Lemma update_replaces_only_the_url_witness :
  update_m3u_file (Ok two_channels) "https://new/y.m3u8" "Channel A"
  = {| returned := Ok true;
       file_after :=
         create_output
           [ {| name := "Channel A"; link := "https://new/y.m3u8" |};
             {| name := "Channel B"; link := "http://b/y.m3u8" |} ];
       out := [ lit "Updated Channel A URL:";
                lit "  Old: https://old/x.m3u8";
                lit "  New: https://new/y.m3u8" ];
       err := [] |}.
Proof.
  apply (update_replaces_only_the_url
           ("#EXTM3U" ++ [Str.nl; Str.nl]) "-1" "Channel A" "s" "old/x.m3u8"
           ([Str.nl; Str.nl] ++ "#EXTINF:-1,Channel B" ++ [Str.nl]
            ++ "http://b/y.m3u8" ++ [Str.nl; Str.nl])
           "https://new/y.m3u8").
  - reflexivity.
  - right. reflexivity.
  - discriminate.
  - reflexivity.
  - right. eexists. reflexivity.
  - no_earlier_entry.
  - intros H. apply search_entry_iff in H. apply H. vm_compute. reflexivity.
  - reflexivity.
  - discriminate.
Defined.



Lemma not_found_outcome (text new_url entry_name : str) :
  Re.search (entry_pattern entry_name) text = None ->
  update_m3u_file (Ok text) new_url entry_name
  = {| returned := Ok false; file_after := text; out := [];
       err := [not_found_line entry_name] |}.
Proof. intros S. unfold update_m3u_file. now rewrite S. Qed.



Lemma plain_url_returns (text new_url entry_name : str) :
  forallb (not_char Template.backslash) new_url = true ->
  exists changed : bool,
    returned (update_m3u_file (Ok text) new_url entry_name) = Ok changed.
Proof.
  intros H. unfold update_m3u_file.
  destruct (Re.search _ text) as [m|]; [|now exists false].
  destruct (Str.eqb _ new_url); [now exists false|].
  rewrite (sub_template _ _ _ H). now exists true.
Qed.

(** X8. With a URL that has no backslash the call does not end the process
    once the file is read (writing it back is taken to succeed): it returns
    [True] or [False]. *)
Theorem update_returns_for_plain_url :
  forall (text new_url entry_name : str),
    forallb (not_char Template.backslash) new_url = true ->
    exists changed : bool,
      returned (update_m3u_file (Ok text) new_url entry_name) = Ok changed.
Proof.
  intros text new_url entry_name. apply plain_url_returns.
Qed.

Lemma update_returns_for_plain_url_witness :
  exists changed : bool,
    returned (update_m3u_file (Ok two_channels) "https://new/y.m3u8" "Channel B")
    = Ok changed.
Proof.
  apply (update_returns_for_plain_url two_channels "https://new/y.m3u8"
                                      "Channel B").
  reflexivity.
Defined.

Lemma expand_plain_app m n (w t : str) :
  forallb (not_char Template.backslash) w = true ->
  Template.expand m n None (w ++ t)
  = r <- Template.expand m n None t ;; Ok (w ++ r).
Proof.
  induction w as [|c w IH]; intros H.
  - cbn [app]. now destruct (Template.expand m n None t).
  - cbn [forallb] in H. apply andb_prop in H as [Hc Hw].
    rewrite <- app_comm_cons. cbn [Template.expand].
    unfold not_char in Hc. rewrite Hc, (IH Hw).
    now destruct (Template.expand m n None t).
Qed.

Lemma sub_trailing_backslash (entry_name w s : str) :
  forallb (not_char Template.backslash) w = true ->
  ReSub.sub (entry_pattern entry_name)
            ("\g<1>" ++ w ++ [Template.backslash]) s
  = Raise "re.error".
Proof.
  intros H. unfold ReSub.sub. rewrite entry_pattern_groups.
  change (lit "\g<1>" ++ w ++ [Template.backslash])
    with (Template.backslash :: "g"%char :: "<"%char :: "1"%char :: ">"%char
          :: w ++ [Template.backslash]).
  cbn [Template.expand Ascii.eqb Bool.eqb negb Template.backslash app forallb].
  change (Template.number 10 ["1"%char]) with 1.
  cbn [andb]. unfold Template.reference. cbn [Nat.leb].
  change ["092"%char] with [Template.backslash].
  rewrite (expand_plain_app _ _ _ _ H). reflexivity.
Qed.

(** X9. The URL is read as a replacement template: when it ends with a
    backslash that no other backslash precedes, and the entry is there with
    another URL, the process ends with status 1 and the file is left as it
    was. *)
Theorem update_exits_on_trailing_backslash :
  forall (before info entry_name sfx url after w : str),
    forallb not_newline info = true ->
    sfx = [] \/ sfx = "s" ->
    url <> [] ->
    forallb not_newline url = true ->
    line_end after ->
    (forall a b, before = a ++ b -> b <> [] ->
                 ~ entry_here (b ++ entry_text info entry_name sfx url ++ after)
                              entry_name) ->
    forallb (not_char Template.backslash) w = true ->
    w ++ [Template.backslash] <> "http" ++ sfx ++ "://" ++ url ->
    let o := update_m3u_file
               (Ok (before ++ entry_text info entry_name sfx url ++ after))
               (w ++ [Template.backslash]) entry_name in
    returned o = Raise "SystemExit(1)"
    /\ file_after o = before ++ entry_text info entry_name sfx url ++ after
    /\ out o = [].
Proof.
  intros before info entry_name sfx url after w Hi Hs Hu Hu' He First Hw Hd.
  cbv zeta. unfold update_m3u_file.
  rewrite (search_first_entry before info entry_name sfx url after
             Hi Hs Hu Hu' He First).
  unfold Re.group at 1, Re.mk, Re.groups. rewrite entry_groups. cbn [nth].
  destruct (Str.eqb _ (w ++ [Template.backslash])) eqn:E.
  - apply str_eqb_eq in E. congruence.
  - rewrite (sub_trailing_backslash _ _ _ Hw). repeat split.
Qed.

Lemma update_exits_on_trailing_backslash_witness :
  returned (update_m3u_file (Ok two_channels)
              ("https://new/y.m3u8" ++ [Template.backslash]) "Channel A")
  = Raise "SystemExit(1)"
  /\ file_after (update_m3u_file (Ok two_channels)
                   ("https://new/y.m3u8" ++ [Template.backslash]) "Channel A")
     = two_channels
  /\ out (update_m3u_file (Ok two_channels)
            ("https://new/y.m3u8" ++ [Template.backslash]) "Channel A")
     = [].
Proof.
  apply (update_exits_on_trailing_backslash
           ("#EXTM3U" ++ [Str.nl; Str.nl]) "-1" "Channel A" "s" "old/x.m3u8"
           ([Str.nl; Str.nl] ++ "#EXTINF:-1,Channel B" ++ [Str.nl]
            ++ "http://b/y.m3u8" ++ [Str.nl; Str.nl])
           "https://new/y.m3u8").
  - reflexivity.
  - right. reflexivity.
  - discriminate.
  - reflexivity.
  - right. eexists. reflexivity.
  - no_earlier_entry.
  - reflexivity.
  - discriminate.
Defined.

(** ** Entries of the same name *)

(** What [re.sub] leaves of a text from its first entry of the name on:
    the URL of that entry is replaced and the scan goes on behind it. *)
Lemma replaced_first_entry (before info entry_name sfx url after new_url : str)
      (i : nat) :
  forallb not_newline info = true ->
  sfx = [] \/ sfx = "s" ->
  url <> [] ->
  forallb not_newline url = true ->
  line_end after ->
  (forall a b, before = a ++ b -> b <> [] ->
               ~ entry_here (b ++ entry_text info entry_name sfx url ++ after)
                            entry_name) ->
  exists j,
    flat_map (replaced new_url)
             (Re.scan (entry_pattern entry_name) i 0
                      (before ++ entry_text info entry_name sfx url ++ after))
    = before ++ "#EXTINF:" ++ info ++ "," ++ entry_name ++ [Str.nl]
      ++ new_url
      ++ flat_map (replaced new_url)
                  (Re.scan (entry_pattern entry_name) j 0 after).
Proof.
  intros Hi Hs Hu Hu' He First.
  exists (i + length before + length (entry_text info entry_name sfx url)).
  rewrite scan_skip.
  - pose proof (match_entry_at entry_name info sfx url after Hi Hs Hu Hu' He) as M.
    rewrite <- entry_text_concat in *.
    rewrite (scan_match _ _ _ _ M
               (match_nonempty _ _ _ (entry_pattern_consumes entry_name) M)).
    rewrite flat_map_app, replaced_plain. cbn [flat_map replaced].
    unfold Re.group, Re.mk, Re.groups. rewrite entry_groups. cbn [nth].
    repeat rewrite <- app_assoc. reflexivity.
  - intros a b E Hb.
    destruct (Re.match_here _ _) eqn:M; [|reflexivity].
    exfalso. apply (First a b E Hb). apply match_entry_iff. congruence.
Qed.

(** X10. Every entry of the name is rewritten, not the first one only: in a
    playlist with two entries of the name, the URLs of both are replaced by
    the new URL, and nothing else changes.  The new URL has no backslash and
    differs from the URL of the first entry. *)
Theorem update_rewrites_both_entries :
  forall (before info1 entry_name sfx1 url1 between info2 sfx2 url2 after
          new_url : str),
    forallb not_newline info1 = true ->
    sfx1 = [] \/ sfx1 = "s" ->
    url1 <> [] ->
    forallb not_newline url1 = true ->
    forallb not_newline info2 = true ->
    sfx2 = [] \/ sfx2 = "s" ->
    url2 <> [] ->
    forallb not_newline url2 = true ->
    line_end (between ++ entry_text info2 entry_name sfx2 url2 ++ after) ->
    line_end after ->
    (forall a b, before = a ++ b -> b <> [] ->
                 ~ entry_here
                     (b ++ entry_text info1 entry_name sfx1 url1 ++ between
                        ++ entry_text info2 entry_name sfx2 url2 ++ after)
                     entry_name) ->
    (forall a b, between = a ++ b -> b <> [] ->
                 ~ entry_here
                     (b ++ entry_text info2 entry_name sfx2 url2 ++ after)
                     entry_name) ->
    ~ has_entry after entry_name ->
    forallb (not_char Template.backslash) new_url = true ->
    new_url <> "http" ++ sfx1 ++ "://" ++ url1 ->
    let o := update_m3u_file
               (Ok (before ++ entry_text info1 entry_name sfx1 url1 ++ between
                    ++ entry_text info2 entry_name sfx2 url2 ++ after))
               new_url entry_name in
    returned o = Ok true
    /\ file_after o
       = before ++ "#EXTINF:" ++ info1 ++ "," ++ entry_name ++ [Str.nl]
         ++ new_url ++ between
         ++ "#EXTINF:" ++ info2 ++ "," ++ entry_name ++ [Str.nl]
         ++ new_url ++ after.
Proof.
  intros before info1 entry_name sfx1 url1 between info2 sfx2 url2 after new_url
         Hi1 Hs1 Hu1 Hu1' Hi2 Hs2 Hu2 Hu2' He1 He2 First1 First2 Last Hb Hd.
  cbv zeta.
  rewrite (update_first_entry before info1 entry_name sfx1 url1
             (between ++ entry_text info2 entry_name sfx2 url2 ++ after)
             new_url Hi1 Hs1 Hu1 Hu1' He1 First1 Hb Hd).
  cbn [returned file_after]. split; [reflexivity|].
  destruct (replaced_first_entry between info2 entry_name sfx2 url2 after
              new_url
              (length before + length (entry_text info1 entry_name sfx1 url1))
              Hi2 Hs2 Hu2 Hu2' He2 First2) as [j ->].
  rewrite (scan_no_entry _ _ _ Last), replaced_plain.
  repeat rewrite <- app_assoc. reflexivity.
Qed.

Lemma update_rewrites_both_entries_witness :
  file_after (update_m3u_file (Ok duplicate_names) "https://new/y.m3u8"
                              "Channel A")
  = create_output
      [ {| name := "Channel A"; link := "https://new/y.m3u8" |};
        {| name := "Channel B"; link := "http://b/y.m3u8" |};
        {| name := "Channel A"; link := "https://new/y.m3u8" |} ].
Proof.
  apply (update_rewrites_both_entries
           ("#EXTM3U" ++ [Str.nl; Str.nl]) "-1" "Channel A" "s" "old/x.m3u8"
           ([Str.nl; Str.nl] ++ "#EXTINF:-1,Channel B" ++ [Str.nl]
            ++ "http://b/y.m3u8" ++ [Str.nl; Str.nl])
           "-1" "s" "other/z.m3u8" [Str.nl; Str.nl]
           "https://new/y.m3u8").
  - reflexivity.
  - right. reflexivity.
  - discriminate.
  - reflexivity.
  - reflexivity.
  - right. reflexivity.
  - discriminate.
  - reflexivity.
  - right. eexists. reflexivity.
  - right. eexists. reflexivity.
  - no_earlier_entry.
  - no_earlier_entry.
  - intros H. apply search_entry_iff in H. apply H. vm_compute. reflexivity.
  - reflexivity.
  - discriminate.
Defined.

(** ** The result of [strip_url_parameters] *)

Lemma scheme_char_unmarked (c : ascii) :
  Url.scheme_char c = true -> mark c = false.
Proof. ascii_cases c. Qed.

Lemma scheme_unmarked (s : str) : s = [] \/ scheme_ok s -> no_char mark s.
Proof.
  intros [-> | (_ & F & _)]; [reflexivity|].
  unfold no_char. rewrite forallb_forall in *.
  intros x Hx. now rewrite (scheme_char_unmarked x (F x Hx)).
Qed.

Lemma add_scheme_unmarked (s u : str) :
  no_char mark s -> no_char mark u -> no_char mark (Url.add_scheme s u).
Proof.
  intros Hs Hu. unfold Url.add_scheme. destruct s as [|c s]; [assumption|].
  apply no_char_app. split; [assumption|].
  apply no_char_app. split; [reflexivity | assumption].
Qed.

Lemma slash_first_unmarked (p : str) :
  no_char mark p -> no_char mark (Url.slash_first p).
Proof.
  intros H. unfold Url.slash_first. destruct p as [|c p]; [reflexivity|].
  destruct (Ascii.eqb c "/"); [assumption|].
  apply no_char_app. split; [reflexivity | assumption].
Qed.

(** Putting a scheme, a network location and a path together brings in no
    [?] and no [#]. *)
Lemma unparse_unmarked (cpython : Url.release) (s n p : str) :
  no_char mark s -> no_char mark n -> no_char mark p ->
  no_char mark (Url.urlunparse cpython (plain s n p)).
Proof.
  intros Hs Hn Hp.
  unfold Url.urlunparse, Url.urlunsplit, Url.with_params, plain.
  cbn [Url.s_scheme Url.s_netloc Url.s_path Url.s_query Url.s_fragment
       Url.scheme Url.netloc Url.path Url.params Url.query Url.fragment].
  unfold Url.add_query_fragment.
  assert (Hsl : no_char mark ("//" ++ p))
    by (apply no_char_app; split; [reflexivity | assumption]).
  assert (Hnp : no_char mark ("//" ++ n ++ Url.slash_first p)).
  { apply no_char_app. split; [reflexivity|].
    apply no_char_app. split; [assumption | now apply slash_first_unmarked]. }
  apply add_scheme_unmarked; [assumption|].
  destruct cpython.
  - destruct (_ || _); assumption.
  - destruct n as [|c n]; [|assumption].
    destruct (Str.startswith "//" p); [assumption|].
    destruct s as [|c s]; [assumption|].
    destruct (Str.mem (c :: s) Url.uses_netloc && _); assumption.
Qed.

(** X11. Whatever the URL, the result has no [?] and no [#]: no query string
    and no fragment is left, and none is made. *)
Theorem strip_url_parameters_leaves_no_mark :
  forall (cpython : Url.release)
         (check_bracketed_netloc checknetloc : str -> bool) (x y : str),
    strip_url_parameters cpython check_bracketed_netloc checknetloc x = Ok y ->
    Str.has "?" y = false /\ Str.has "#" y = false.
Proof.
  intros v cb cn x y H.
  destruct (strip_ok v cb cn _ _ H) as (r & P & ->).
  destruct (urlparse_canonical cb cn _ _ P) as [_ Cs Cn _ _ Cp _ _ _].
  assert (M : no_char mark
                (Url.urlunparse v
                   (plain (Url.scheme r) (Url.netloc r) (Url.path r)))).
  { apply unparse_unmarked; [now apply scheme_unmarked | | assumption].
    apply (no_char_weaken Url.delim); [apply mark_delim | assumption]. }
  split; apply no_char_has; apply (no_char_weaken mark); try assumption;
    intros c E; unfold mark; rewrite E; [apply orb_true_r | reflexivity].
Qed.

Lemma strip_url_parameters_leaves_no_mark_witness :
  Str.has "?" "https://h/p/file.m3u8" = false
  /\ Str.has "#" "https://h/p/file.m3u8" = false.
Proof.
  apply (strip_url_parameters_leaves_no_mark Url.Before_3_12_4 accept accept
           "https://h/p/file.m3u8?s=abc&e=1#t=10").
  reflexivity.
Defined.

Lemma lstrip_incl drop (s : str) : incl (Str.lstrip drop s) s.
Proof.
  induction s as [|c s IH]; simpl; [apply incl_refl|].
  destruct (drop c); [now apply incl_tl | apply incl_refl].
Qed.

Lemma break_incl stop (s a b : str) :
  Str.break stop s = (a, b) -> incl a s /\ incl b s.
Proof.
  intros B. apply break_spec in B as (-> & _ & _).
  split; [apply incl_appl | apply incl_appr]; apply incl_refl.
Qed.

Lemma split_scheme_incl (u s b : str) :
  Url.split_scheme u = (s, b) -> incl b u.
Proof.
  intros S. destruct (split_scheme_spec _ _ _ S) as [[_ ->] | (_ & pre & ->)].
  - apply incl_refl.
  - apply incl_appr, incl_tl, incl_refl.
Qed.

Lemma has_incl (c : ascii) (a b : str) :
  incl a b -> Str.has c b = false -> Str.has c a = false.
Proof.
  intros I H. destruct (Str.has c a) eqn:E; [|reflexivity].
  unfold Str.has in *. apply existsb_exists in E as (x & Hx & Ex).
  rewrite <- H. symmetry. apply existsb_exists. exists x. auto.
Qed.

Lemma forallb_incl (f : ascii -> bool) (a b : str) :
  incl a b -> forallb f b = true -> forallb f a = true.
Proof.
  intros I H. rewrite forallb_forall in *. auto.
Qed.

(** Without a square bracket the network location is never refused for its
    brackets, and it is made of characters of the text. *)
Lemma split_netloc_returns check_bracketed_netloc (b : str) :
  Str.has "[" b = false -> Str.has "]" b = false ->
  exists n u2,
    Url.split_netloc check_bracketed_netloc b = Ok (n, u2) /\ incl n b.
Proof.
  intros Ho Hc. unfold Url.split_netloc.
  destruct b as [|c1 [|c2 rest]];
    try (exists [], []; split; [reflexivity | apply incl_nil_l]).
  - eexists [], _. split; [reflexivity | apply incl_nil_l].
  - destruct (Ascii.eqb c1 "/" && Ascii.eqb c2 "/").
    + destruct (Str.break Url.delim rest) as [loc url'] eqn:B.
      apply break_incl in B as [I _].
      assert (I' : incl loc (c1 :: c2 :: rest)) by now apply incl_tl, incl_tl.
      unfold Url.bracket_error.
      rewrite (has_incl _ _ _ I' Ho), (has_incl _ _ _ I' Hc). cbn [andb orb].
      eauto.
    + eexists [], _. split; [reflexivity | apply incl_nil_l].
Qed.

(** X12. [strip_url_parameters] raises for no URL made of ASCII characters
    without a square bracket: [urlparse] refuses nothing else. *)
Theorem strip_url_parameters_returns :
  forall (cpython : Url.release)
         (check_bracketed_netloc checknetloc : str -> bool) (x : str),
    forallb Url.is_ascii x = true ->
    Str.has "[" x = false ->
    Str.has "]" x = false ->
    exists y,
      strip_url_parameters cpython check_bracketed_netloc checknetloc x = Ok y.
Proof.
  intros v cb cn x Ha Ho Hc.
  unfold strip_url_parameters, Url.urlparse, Url.urlsplit.
  set (u0 := Str.remove Url.unsafe (Str.lstrip Url.c0_or_space x)).
  assert (I0 : incl u0 x).
  { unfold u0, Str.remove. eapply incl_tran; [apply incl_filter|].
    apply lstrip_incl. }
  destruct (Url.split_scheme u0) as [s b] eqn:Ss.
  assert (Ib : incl b x).
  { eapply incl_tran; [apply (split_scheme_incl _ _ _ Ss) | exact I0]. }
  destruct (split_netloc_returns cb b (has_incl _ _ _ Ib Ho) (has_incl _ _ _ Ib Hc))
    as (n & u2 & -> & In).
  cbn [bind].
  destruct (Str.split1 "#" u2) as [u3 frag].
  destruct (Str.split1 "?" u3) as [p0 qry].
  assert (Ne : Url.netloc_error cn n = false).
  { unfold Url.netloc_error.
    rewrite (forallb_incl Url.is_ascii n x (incl_tran In Ib) Ha).
    now destruct n. }
  rewrite Ne. cbn [bind Url.s_scheme Url.s_path].
  destruct (if Str.mem s Url.uses_params && Str.has ";" p0
            then Url.splitparams p0 else (p0, [])) as [p prm].
  cbn [bind]. eauto.
Qed.

Lemma strip_url_parameters_returns_witness :
  exists y,
    strip_url_parameters Url.Before_3_12_4 accept (fun _ => false)
                         "https://h/p/file.m3u8?s=abc&e=1" = Ok y.
Proof.
  apply strip_url_parameters_returns; reflexivity.
Defined.

(** X13. An [http] or [https] URL whose host has one square bracket without the
    other is refused: [strip_url_parameters] raises the [ValueError] of
    [urlparse], which nothing in the script catches. *)
Theorem strip_url_parameters_refuses_lone_bracket :
  forall (cpython : Url.release)
         (check_bracketed_netloc checknetloc : str -> bool)
         (sch n tail : str),
    sch = "http" \/ sch = "https" ->
    no_char Url.delim n ->
    Str.has "[" n <> Str.has "]" n ->
    tail = [] \/ (exists c t, tail = c :: t /\ Url.delim c = true) ->
    no_char Url.unsafe (n ++ tail) ->
    strip_url_parameters cpython check_bracketed_netloc checknetloc
                         (sch ++ "://" ++ n ++ tail)
    = Raise "ValueError".
Proof.
  intros v cb cn sch n tail Hs Nd Nb Ht Us.
  assert (Sok : scheme_ok sch).
  { destruct Hs as [-> | ->];
      (split; [exists "h"%char; eexists; split; reflexivity
              | split; reflexivity]). }
  assert (Ssafe : no_char Url.unsafe (sch ++ ":" ++ "//" ++ n ++ tail)).
  { apply no_char_app. split; [now apply scheme_ok_safe|].
    apply no_char_app. split; [reflexivity|].
    apply no_char_app. split; [reflexivity | assumption]. }
  assert (Ex : sch ++ "://" ++ n ++ tail = sch ++ ":" ++ "//" ++ n ++ tail)
    by reflexivity.
  assert (L : Str.lstrip Url.c0_or_space (sch ++ ":" ++ "//" ++ n ++ tail)
              = sch ++ ":" ++ "//" ++ n ++ tail).
  { destruct Hs as [-> | ->]; reflexivity. }
  assert (Br : Url.bracket_error cb n = true).
  { unfold Url.bracket_error.
    destruct (Str.has "[" n), (Str.has "]" n); try reflexivity; congruence. }
  unfold strip_url_parameters, Url.urlparse, Url.urlsplit.
  rewrite Ex, L, (remove_id _ _ Ssafe), (split_scheme_scheme _ _ Sok).
  unfold Url.split_netloc. cbn [app Ascii.eqb Bool.eqb andb].
  change (lit "//" ++ n ++ tail) with ("/"%char :: "/"%char :: n ++ tail).
  cbn [Ascii.eqb Bool.eqb andb].
  now rewrite (break_at Url.delim n tail Nd Ht), Br.
Qed.

Lemma strip_url_parameters_refuses_lone_bracket_witness :
  strip_url_parameters Url.Before_3_12_4 accept accept
                       "https://[::1/live.m3u8?tok=1"
  = Raise "ValueError".
Proof.
  apply (strip_url_parameters_refuses_lone_bracket Url.Before_3_12_4
           accept accept
           "https" "[::1" "/live.m3u8?tok=1").
  - right. reflexivity.
  - reflexivity.
  - discriminate.
  - right. eexists. eexists. split; reflexivity.
  - reflexivity.
Defined.

(** ** The script as a whole *)

Section MainRuns.

Variable cpython : Url.release.
Variable check_bracketed_netloc : str -> bool.
Variable checknetloc : str -> bool.
Variable show_path : str -> str.

(** A run that finds a URL to write. *)
Lemma main_with_url (args : Args.t) (w : world) (u m3u8_url : str)
      (out1 : list str) :
  file_exists w = true ->
  found (extract_m3u8_from_page (visited w) (Args.url args)
                                (Args.preferred_domain args)) = Some u ->
  stripped cpython check_bracketed_netloc checknetloc (Args.strip_parameters args) u
  = Ok (m3u8_url, out1) ->
  forall (updated : bool),
    returned (update_m3u_file (file_text w) m3u8_url (Args.entry_name args))
    = Ok updated ->
    ended (main cpython check_bracketed_netloc checknetloc show_path args w) = Ok tt
    /\ written (main cpython check_bracketed_netloc checknetloc show_path args w)
       = (if updated
          then Some (file_after (update_m3u_file (file_text w) m3u8_url
                                                 (Args.entry_name args)))
          else None)
    /\ last (printed (main cpython check_bracketed_netloc checknetloc show_path args w)) []
       = (if updated
          then check_mark ++ " Successfully updated " ++ Args.entry_name args
               ++ " stream URL"
          else check_mark ++ " No update needed")
    /\ errors (main cpython check_bracketed_netloc checknetloc show_path args w)
       = stderr (log (extract_m3u8_from_page (visited w) (Args.url args)
                                             (Args.preferred_domain args)))
         ++ err (update_m3u_file (file_text w) m3u8_url (Args.entry_name args)).
Proof.
  intros He F S updated R. unfold main.
  rewrite He. cbn [negb]. cbv zeta. rewrite F, S, R.
  cbn [ended written printed errors].
  repeat split. rewrite !app_assoc. apply last_last.
Qed.

End MainRuns.

(** X14. When the page shows [.m3u8] nowhere, the script ends with status 0
    after the line that says so, and writes nothing: a page without a
    stream is no error. *)
Theorem main_skips_update_without_marker :
  forall (cpython : Url.release)
         (check_bracketed_netloc checknetloc : str -> bool)
         (show_path : str -> str) (args : Args.t) (w : world),
    file_exists w = true ->
    (forall r, In r (requests_goto (visited w) ++ requests_sleep (visited w)) ->
               Str.contains ".m3u8" r = false) ->
    Str.contains ".m3u8" (Str.lower (content (visited w))) = false ->
    let r := main cpython check_bracketed_netloc checknetloc show_path args w in
    ended r = Raise "SystemExit(0)"
    /\ written r = None
    /\ last (printed r) []
       = check_mark ++ " No m3u8 link found - skipping update".
Proof.
  intros v cb cn sp args w He R C. cbv zeta. unfold main.
  rewrite He. cbn [negb]. cbv zeta.
  rewrite extract_found.
  rewrite (collect_without_marker (visited w)
             (print ("Navigating to: " ++ Args.url args)
                (print "Launching browser to fetch dynamic content..." start))
             eq_refl R C).
  cbn [select ended written printed]. repeat split.
  apply last_last.
Qed.

Lemma main_skips_update_without_marker_witness :
  ended (main Url.Before_3_12_4 accept accept (fun f => f)
           {| Args.url := "https://example.com/live";
              Args.file := "list.m3u";
              Args.entry_name := "Channel A";
              Args.preferred_domain := None;
              Args.strip_parameters := true |}
           {| file_exists := true;
              file_text := Ok two_channels;
              visited :=
                {| requests_goto := [lit "https://example.com/app.js"];
                   goto_times_out := false;
                   requests_sleep := [];
                   content := "<video src=https://example.com/live.mp4>" |} |})
  = Raise "SystemExit(0)".
Proof.
  apply (main_skips_update_without_marker Url.Before_3_12_4 accept accept (fun f => f)).
  - reflexivity.
  - intros r [<- | []]. reflexivity.
  - reflexivity.
Defined.

(** X15. A playlist without an entry of the name is no error for the script:
    whenever a URL is found, the run prints the line that the entry was not
    found on standard error, writes nothing, and ends like a run that had
    nothing to change, with the line that no update was needed. *)
Theorem main_missing_entry_is_no_error :
  forall (cpython : Url.release)
         (check_bracketed_netloc checknetloc : str -> bool)
         (show_path : str -> str) (args : Args.t) (w : world)
         (text u : str),
    file_exists w = true ->
    file_text w = Ok text ->
    ~ has_entry text (Args.entry_name args) ->
    found (extract_m3u8_from_page (visited w) (Args.url args)
                                  (Args.preferred_domain args)) = Some u ->
    (Args.strip_parameters args = true ->
     exists y, strip_url_parameters cpython check_bracketed_netloc
                                     checknetloc u
               = Ok y) ->
    let r := main cpython check_bracketed_netloc checknetloc show_path args w in
    ended r = Ok tt
    /\ written r = None
    /\ last (printed r) [] = check_mark ++ " No update needed"
    /\ last (errors r) [] = not_found_line (Args.entry_name args).
Proof.
  intros v cb cn sp args w text u He Ht N F S. cbv zeta.
  assert (S' : exists m3u8_url out1,
             stripped v cb cn (Args.strip_parameters args) u
             = Ok (m3u8_url, out1)).
  { unfold stripped. destruct (Args.strip_parameters args); [|eauto].
    destruct (S eq_refl) as [y ->]. cbn [bind]. eauto. }
  destruct S' as (m3u8_url & out1 & S').
  assert (U : update_m3u_file (file_text w) m3u8_url (Args.entry_name args)
              = {| returned := Ok false; file_after := text; out := [];
                   err := [not_found_line (Args.entry_name args)] |}).
  { rewrite Ht. apply not_found_outcome.
    destruct (Re.search _ text) eqn:E; [|reflexivity].
    exfalso. apply N, search_entry_iff. congruence. }
  destruct (main_with_url v cb cn sp args w u m3u8_url out1 He F S' false)
    as (E1 & E2 & E3 & E4); [now rewrite U|].
  repeat split; try assumption.
  rewrite E4, U. cbn [err]. apply last_last.
Qed.

Lemma main_missing_entry_is_no_error_witness :
  ended (main Url.Before_3_12_4 accept accept (fun f => f)
           {| Args.url := "https://example.com/live";
              Args.file := "list.m3u";
              Args.entry_name := "Channel C";
              Args.preferred_domain := None;
              Args.strip_parameters := false |}
           {| file_exists := true;
              file_text := Ok two_channels;
              visited := static_page |})
  = Ok tt.
Proof.
  apply (main_missing_entry_is_no_error Url.Before_3_12_4 accept accept (fun f => f) _ _
           two_channels "https://cdn.example.com/stream.m3u8?tok=1").
  - reflexivity.
  - reflexivity.
  - intros H. apply search_entry_iff in H. apply H. vm_compute. reflexivity.
  - vm_compute. reflexivity.
  - discriminate.
Defined.

(** X16. From the page to the playlist: without [--strip-parameters], the URL of
    the first request observed that contains [.m3u8] (there is no preferred
    domain, or the URL contains it) is put under the one entry of the name,
    nothing else in the file changes, and the run ends with the line that
    the entry was updated.  The URL has no backslash and is not the one the
    entry has. *)
Theorem main_writes_first_request_url :
  forall (cpython : Url.release)
         (check_bracketed_netloc checknetloc : str -> bool)
         (show_path : str -> str) (args : Args.t) (w : world)
         (before info sfx url after u : str) (l : list str),
    file_exists w = true ->
    Args.strip_parameters args = false ->
    observed (visited w) = u :: l ->
    (forall d, Args.preferred_domain args = Some d ->
               Str.contains d u = true) ->
    file_text w
    = Ok (before ++ entry_text info (Args.entry_name args) sfx url ++ after) ->
    forallb not_newline info = true ->
    sfx = [] \/ sfx = "s" ->
    url <> [] ->
    forallb not_newline url = true ->
    line_end after ->
    (forall a b, before = a ++ b -> b <> [] ->
                 ~ entry_here (b ++ entry_text info (Args.entry_name args)
                                               sfx url ++ after)
                              (Args.entry_name args)) ->
    ~ has_entry after (Args.entry_name args) ->
    forallb (not_char Template.backslash) u = true ->
    u <> "http" ++ sfx ++ "://" ++ url ->
    let r := main cpython check_bracketed_netloc checknetloc show_path args w in
    ended r = Ok tt
    /\ written r
       = Some (before ++ "#EXTINF:" ++ info ++ "," ++ Args.entry_name args
               ++ [Str.nl] ++ u ++ after)
    /\ last (printed r) []
       = check_mark ++ " Successfully updated " ++ Args.entry_name args
         ++ " stream URL".
Proof.
  intros v cb cn sp args w before info sfx url after u l
         Hex Hst O D Ht Hi Hs Hu Hu' He First Last Hb Hd.
  cbv zeta.
  pose proof (update_first_entry before info (Args.entry_name args) sfx url
                after u Hi Hs Hu Hu' He First Hb Hd) as U.
  rewrite (scan_no_entry _ _ _ Last), replaced_plain in U.
  rewrite <- Ht in U.
  destruct (main_with_url v cb cn sp args w u u []
              Hex (found_first_observed _ _ _ _ _ O D)) with (updated := true)
    as (E1 & E2 & E3 & _).
  - unfold stripped. now rewrite Hst.
  - now rewrite U.
  - rewrite U in E2. cbn [file_after] in E2. auto.
Qed.

Lemma main_writes_first_request_url_witness :
  written (main Url.Before_3_12_4 accept accept (fun f => f)
             {| Args.url := "https://example.com/live";
                Args.file := "list.m3u";
                Args.entry_name := "Channel A";
                Args.preferred_domain := Some (lit "edge");
                Args.strip_parameters := false |}
             {| file_exists := true;
                file_text := Ok two_channels;
                visited :=
                  {| requests_goto :=
                       [ lit "https://example.com/app.js";
                         lit "https://edge.example.com/live.m3u8?tok=1" ];
                     goto_times_out := true;
                     requests_sleep := [];
                     content := [] |} |})
  = Some (create_output
            [ {| name := "Channel A";
                 link := "https://edge.example.com/live.m3u8?tok=1" |};
              {| name := "Channel B"; link := "http://b/y.m3u8" |} ]).
Proof.
  apply (main_writes_first_request_url Url.Before_3_12_4 accept accept (fun f => f)
           {| Args.url := "https://example.com/live";
              Args.file := "list.m3u";
              Args.entry_name := "Channel A";
              Args.preferred_domain := Some (lit "edge");
              Args.strip_parameters := false |}
           {| file_exists := true;
              file_text := Ok two_channels;
              visited :=
                {| requests_goto :=
                     [ lit "https://example.com/app.js";
                       lit "https://edge.example.com/live.m3u8?tok=1" ];
                   goto_times_out := true;
                   requests_sleep := [];
                   content := [] |} |}
           ("#EXTM3U" ++ [Str.nl; Str.nl]) "-1" "s" "old/x.m3u8"
           ([Str.nl; Str.nl] ++ "#EXTINF:-1,Channel B" ++ [Str.nl]
            ++ "http://b/y.m3u8" ++ [Str.nl; Str.nl])
           "https://edge.example.com/live.m3u8?tok=1" []).
  - reflexivity.
  - reflexivity.
  - reflexivity.
  - intros d [= <-]. reflexivity.
  - reflexivity.
  - reflexivity.
  - right. reflexivity.
  - discriminate.
  - reflexivity.
  - right. eexists. reflexivity.
  - no_earlier_entry.
  - intros H. apply search_entry_iff in H. apply H. vm_compute. reflexivity.
  - reflexivity.
  - discriminate.
Defined.

(** X17. Where the page loads or its navigation times out, and writing the
    playlist back succeeds (no other run is described here: a write that
    fails, or another error of the browser, ends the process with status
    1), the script ends with status 0 whenever the playlist exists and can
    be read, [--strip-parameters] is not given, and no backslash occurs in
    the URLs requested or in the content of the page: a page without a
    stream, an entry that is missing and a URL that is the same are no
    errors, and none of the steps of the program raises. *)
Theorem main_succeeds_without_backslash :
  forall (cpython : Url.release)
         (check_bracketed_netloc checknetloc : str -> bool)
         (show_path : str -> str) (args : Args.t) (w : world) (text : str),
    file_exists w = true ->
    file_text w = Ok text ->
    Args.strip_parameters args = false ->
    (forall r, In r (requests_goto (visited w) ++ requests_sleep (visited w)) ->
               forallb (not_char Template.backslash) r = true) ->
    forallb (not_char Template.backslash) (content (visited w)) = true ->
    let r := main cpython check_bracketed_netloc checknetloc show_path args w in
    ended r = Ok tt \/ ended r = Raise "SystemExit(0)".
Proof.
  intros v cb cn sp args w text He Ht Hs R C. cbv zeta.
  destruct (found (extract_m3u8_from_page (visited w) (Args.url args)
                                          (Args.preferred_domain args)))
    as [u|] eqn:F.
  - left.
    assert (B : forallb (not_char Template.backslash) u = true).
    { destruct (found_origin _ _ _ _ F) as [I | I]; [now apply R|].
      now apply (forallb_incl _ u (content (visited w))). }
    destruct (plain_url_returns text u (Args.entry_name args) B)
      as [changed U].
    rewrite <- Ht in U.
    apply (main_with_url v cb cn sp args w u u [] He F) with (updated := changed);
      [| exact U].
    unfold stripped. now rewrite Hs.
  - right. unfold main. rewrite He. cbn [negb]. cbv zeta. now rewrite F.
Qed.

Lemma main_succeeds_without_backslash_witness :
  ended (main Url.Before_3_12_4 accept accept (fun f => f)
           {| Args.url := "https://example.com/live";
              Args.file := "list.m3u";
              Args.entry_name := "Channel A";
              Args.preferred_domain := None;
              Args.strip_parameters := false |}
           {| file_exists := true;
              file_text := Ok two_channels;
              visited := static_page |})
  = Ok tt
  \/ ended (main Url.Before_3_12_4 accept accept (fun f => f)
              {| Args.url := "https://example.com/live";
                 Args.file := "list.m3u";
                 Args.entry_name := "Channel A";
                 Args.preferred_domain := None;
                 Args.strip_parameters := false |}
              {| file_exists := true;
                 file_text := Ok two_channels;
                 visited := static_page |})
     = Raise "SystemExit(0)".
Proof.
  apply (main_succeeds_without_backslash Url.Before_3_12_4 accept accept (fun f => f) _ _
           two_channels).
  - reflexivity.
  - reflexivity.
  - reflexivity.
  - intros r [].
  - reflexivity.
Defined.

(** ** Collecting the links *)

Section Visits.

Variable browse : nat -> Updater.driver -> str -> str -> Updater.visit.
Variable p : Updater.proxy.

(** The loop over sources whose visits all give a link. *)
Lemma for_sources_found (pre rest : list Updater.source) :
  forall (results : list Updater.res) (o c : nat),
    (forall i src, nth_error pre i = Some src ->
                   exists link,
                     browse (o + i) (Updater.get_driver p)
                            (Updater.url src) (Updater.xpath src)
                     = Updater.Src link) ->
    exists found,
      length found = length pre
      /\ (forall i r, nth_error found i = Some r ->
                      exists src,
                        nth_error pre i = Some src
                        /\ Updater.res_name r = Updater.name src
                        /\ browse (o + i) (Updater.get_driver p)
                                  (Updater.url src) (Updater.xpath src)
                           = Updater.Src (Updater.res_link r))
      /\ Updater.for_sources browse p (pre ++ rest) results
           {| Updater.opened := o; Updater.closed := c |}
         = Updater.for_sources browse p rest (results ++ found)
             {| Updater.opened := o + length pre;
                Updater.closed := c + length pre |}.
Proof.
  induction pre as [|s pre IH]; intros results o c H.
  - exists []. cbn [app length]. rewrite app_nil_r, !Nat.add_0_r.
    repeat split. intros [|i] r Hr; discriminate.
  - destruct (H 0 s eq_refl) as [link B].
    destruct (IH (results ++ [{| Updater.res_name := Updater.name s;
                                 Updater.res_link := link |}]) (S o) (S c))
      as (found & Hl & Hn & E).
    { intros i src Hi. destruct (H (S i) src Hi) as [l Hl].
      rewrite Nat.add_succ_r in Hl. eauto. }
    exists ({| Updater.res_name := Updater.name s; Updater.res_link := link |}
            :: found).
    split; [cbn [length]; now rewrite Hl|]. split.
    + intros [|i] r Hr.
      * injection Hr as <-. exists s. repeat split. exact B.
      * destruct (Hn i r Hr) as (src & Hs & Hname & Hb).
        exists src. rewrite Nat.add_succ_r. repeat split; assumption.
    + rewrite Nat.add_0_r in B.
      rewrite <- app_comm_cons. cbn [Updater.for_sources].
      unfold Updater.get_stream_link. cbn [Updater.opened Updater.closed].
      rewrite B, E. cbn [length]. rewrite !Nat.add_succ_r, <- app_assoc.
      reflexivity.
Qed.

End Visits.

(** X18. Nothing is written unless every source gives its link: when the visit
    of one source raises after its browser has started, and the sources
    before it gave theirs, the run ends with that exception, the sources
    after it are not visited, [irib.m3u8] is not opened, and the browser of
    the failed visit is left open. *)
Theorem failed_visit_writes_nothing :
  forall (browse : nat -> Updater.driver -> str -> str -> Updater.visit)
         (p : Updater.proxy) (pre post : list Updater.source)
         (s : Updater.source) (e : string),
    (forall i src, nth_error pre i = Some src ->
                   exists link,
                     browse i (Updater.get_driver p)
                            (Updater.url src) (Updater.xpath src)
                     = Updater.Src link) ->
    browse (length pre) (Updater.get_driver p)
           (Updater.url s) (Updater.xpath s)
    = Updater.PageFails e ->
    let r := Updater.main browse p (pre ++ s :: post) in
    Updater.ended r = Raise e
    /\ Updater.irib r = None
    /\ Updater.left r = {| Updater.opened := S (length pre);
                           Updater.closed := length pre |}.
Proof.
  intros browse p pre post s e H F. cbv zeta.
  unfold Updater.main, Updater.generate_results.
  destruct (for_sources_found browse p pre (s :: post) [] 0 0 H)
    as (found & _ & _ & ->).
  cbn [Updater.for_sources Nat.add]. unfold Updater.get_stream_link.
  cbn [Updater.opened Updater.closed]. rewrite F.
  repeat split.
Qed.

Lemma failed_visit_writes_nothing_witness :
  Updater.irib
    (Updater.main
       (fun i _ _ _ =>
          match i with
          | 0 => Updater.Src (Some (lit "http://a/1.m3u8"))
          | _ => Updater.PageFails "NoSuchElementException"
          end)
       {| Updater.use := false; Updater.httpProxy := [];
          Updater.sslProxy := [] |}
       ([ {| Updater.name := "One"; Updater.url := "http://a";
             Updater.xpath := "//video" |} ]
        ++ {| Updater.name := "Two"; Updater.url := "http://b";
              Updater.xpath := "//video" |}
        :: [ {| Updater.name := "Three"; Updater.url := "http://c";
                Updater.xpath := "//video" |} ]))
  = None.
Proof.
  apply (failed_visit_writes_nothing _ _ _ _ _ "NoSuchElementException").
  - intros [|[|i]] src Hi; try discriminate. eauto.
  - reflexivity.
Defined.

(** X19. When every visit gives a link, each browser started is closed, and
    [irib.m3u8] gets one entry for each source, in the order of the
    sources: under the name of the source, the link its visit gave, as an
    f-string shows it. *)
Theorem all_visits_write_every_source :
  forall (browse : nat -> Updater.driver -> str -> str -> Updater.visit)
         (p : Updater.proxy) (sources : list Updater.source),
    (forall i src, nth_error sources i = Some src ->
                   exists link,
                     browse i (Updater.get_driver p)
                            (Updater.url src) (Updater.xpath src)
                     = Updater.Src link) ->
    let r := Updater.main browse p sources in
    Updater.ended r = Ok tt
    /\ Updater.left r = {| Updater.opened := length sources;
                           Updater.closed := length sources |}
    /\ exists channels,
         Updater.irib r = Some (create_output channels)
         /\ length channels = length sources
         /\ forall i ch, nth_error channels i = Some ch ->
              exists src l,
                nth_error sources i = Some src
                /\ name ch = Updater.name src
                /\ browse i (Updater.get_driver p)
                          (Updater.url src) (Updater.xpath src)
                   = Updater.Src l
                /\ link ch = Updater.shown l.
Proof.
  intros browse p sources H. cbv zeta.
  unfold Updater.main, Updater.generate_results.
  destruct (for_sources_found browse p sources [] [] 0 0 H)
    as (found & Hl & Hn & E).
  rewrite app_nil_r in E. rewrite E. cbn [Updater.for_sources Nat.add app].
  repeat split. exists (map Updater.as_channel found).
  split; [reflexivity|]. split; [now rewrite length_map|].
  intros i ch Hi. rewrite nth_error_map in Hi.
  destruct (nth_error found i) as [r|] eqn:Hr; [|discriminate].
  injection Hi as <-. destruct (Hn i r Hr) as (src & Hs & Hname & Hb).
  exists src, (Updater.res_link r). repeat split; assumption.
Qed.

Lemma all_visits_write_every_source_witness :
  Updater.ended
    (Updater.main
       (fun _ _ _ _ => Updater.Src (Some (lit "http://a/1.m3u8")))
       {| Updater.use := false; Updater.httpProxy := [];
          Updater.sslProxy := [] |}
       [ {| Updater.name := "One"; Updater.url := "http://a";
            Updater.xpath := "//video" |} ])
  = Ok tt.
Proof.
  apply (all_visits_write_every_source
           (fun _ _ _ _ => Updater.Src (Some (lit "http://a/1.m3u8")))).
  intros i src _. eauto.
Defined.


